(** * Brand Canonizer: the extraction pipeline, its stages and the session log

    A shallow embedding of the JavaScript sources

      - [src/pipeline/orchestrator.js]   ([extractBrand])
      - [src/pipeline/synthesize.js]     ([synthesizeBrandSpec], [fixValidationIssues])
      - [src/pipeline/evaluate.js]       ([evaluateBrandSpec], [getQualityBand])
      - [src/pipeline/refine.js]         ([refineBrandSpec])
      - [src/server.js]                  (POST /api/extract and its progress sink)
      - [src/server.js]                  (GET /api/brands/:id/status, the progress stream)
      - [src/pipeline/capture.js]        ([captureWebsite], [captureScreenshots])
      - [src/pipeline/analyze.js]        ([analyzeWithClaude], [loadScreenshots])
      - [src/utils/logger.js]            ([Logger])
      - [src/utils/schema-validator.js]  ([loadSchema], [validateAgainstSchema])
      - [frontend/src/utils/api.js]      ([createProgressStream])
      - the Processing page of the frontend (its progress callback)

    JavaScript numbers are IEEE binary64 values and are modelled by Rocq's
    primitive floats; token counts, durations and percentages are integers
    well below 2^53 and are modelled in [Z].  Promises are run to completion:
    a rejected promise is [Thrown], a fulfilled one is [Returned].  Everything
    the program obtains from outside (browser, model API, file system, clock,
    schema files, random identifiers) is read from a [World].  Timestamps,
    log lines and display names, which no stage reads back, are left out of
    the records. *)

From Stdlib Require Import ZArith String Ascii List Floats DecimalString Lia.
From stdpp Require Import base option list strings gmap sorting.

Set Warnings "-register-all,-inexact-float".

Local Open Scope string_scope.
Local Open Scope Z_scope.

(** ** JavaScript values *)

Module Js.

(** Completion of a call: a value, or an exception carrying [error.message]. *)
Inductive Outcome (A : Type) : Type :=
| Returned (a : A)
| Thrown (message : string).
Arguments Returned {A} a.
Arguments Thrown {A} message.

Definition obind {A B} (o : Outcome A) (k : A -> Outcome B) : Outcome B :=
  match o with
  | Returned a => k a
  | Thrown m => Thrown m
  end.

(** JSON documents.  A property whose value is [undefined] is absent. *)
Inductive json : Type :=
| JNull
| JBool (b : bool)
| JNum (x : float)
| JStr (s : string)
| JArr (items : list json)
| JObj (fields : list (string * json)).

(** A JavaScript value read from a document: [None] is [undefined]. *)
Definition jsval : Type := option json.

(** [x >= y] and [x < y] on numbers; both are false when an operand is NaN. *)
Definition num_ge (x y : float) : bool := PrimFloat.leb y x.
Definition num_lt (x y : float) : bool := PrimFloat.ltb x y.

(** [ToNumber] of a numeric field that may be missing. *)
Definition to_number (v : option float) : float :=
  match v with
  | Some x => x
  | None => nan
  end.

(** [!!x] for a number: zero (of either sign) and NaN are falsy. *)
Definition num_truthy (x : float) : bool :=
  negb (PrimFloat.eqb x 0%float || PrimFloat.is_nan x).

Definition truthy (v : jsval) : bool :=
  match v with
  | None => false
  | Some JNull => false
  | Some (JBool b) => b
  | Some (JNum x) => num_truthy x
  | Some (JStr s) => negb (String.eqb s EmptyString)
  | Some (JArr _) => true
  | Some (JObj _) => true
  end.

Fixpoint assoc_get (k : string) (fields : list (string * json)) : jsval :=
  match fields with
  | [] => None
  | (k', v) :: rest => if String.eqb k k' then Some v else assoc_get k rest
  end.

(** Assignment [o[k] = v]: an existing key keeps its position. *)
Fixpoint assoc_set (k : string) (v : json) (fields : list (string * json))
  : list (string * json) :=
  match fields with
  | [] => [(k, v)]
  | (k', v') :: rest =>
      if String.eqb k k' then (k, v) :: rest else (k', v') :: assoc_set k v rest
  end.

(** [o.k] on a value that is not null or undefined. *)
Definition get_prop (o : json) (k : string) : jsval :=
  match o with
  | JObj fields => assoc_get k fields
  | _ => None
  end.

(** [o.k] where [o] itself may be null or undefined (a TypeError then). *)
Definition get_prop_strict (o : jsval) (k : string) : Outcome jsval :=
  match o with
  | None => Thrown ("Cannot read properties of undefined (reading '" ++ k ++ "')")
  | Some JNull => Thrown ("Cannot read properties of null (reading '" ++ k ++ "')")
  | Some d => Returned (get_prop d k)
  end.

Definition set_prop (o : json) (k : string) (v : json) : json :=
  match o with
  | JObj fields => JObj (assoc_set k v fields)
  | other => other
  end.

(** An object literal entry [k: v] with a possibly undefined [v]. *)
Definition field (k : string) (v : jsval) : list (string * json) :=
  match v with
  | Some d => [(k, d)]
  | None => []
  end.

(** The one-character string holding a double quote. *)
Definition dquote : string := String (ascii_of_nat 34) EmptyString.

(** Decimal rendering of integers, as in template literals. *)
Definition show_Z (z : Z) : string := NilZero.string_of_int (Z.to_int z).
Definition show_nat (n : nat) : string := show_Z (Z.of_nat n).

(** *** Number.prototype.toFixed *)

(** The integer [n] for which [n / 10^d] is nearest to [|x|], the larger
    one on a tie, computed exactly from the mantissa and exponent of [x]. *)
Definition round_scaled (d : nat) (x : float) : Z :=
  match Prim2SF x with
  | S754_finite _ m e =>
      let num := Z.pos m * 10 ^ Z.of_nat d in
      if 0 <=? e then num * 2 ^ e
      else (2 * num + 2 ^ (- e)) / 2 ^ (- e + 1)
  | _ => 0
  end.

Fixpoint zeros (n : nat) : string :=
  match n with
  | O => EmptyString
  | S n' => String "0" (zeros n')
  end.

Definition pad_left (width : nat) (s : string) : string :=
  zeros (width - String.length s) ++ s.

(** [x.toFixed(d)].  For magnitudes of 1e21 and above the result is
    [ToString(x)], whose digits come from [big], the runtime's
    Number::toString. *)
Definition toFixed (big : float -> string) (x : float) (d : nat) : string :=
  if PrimFloat.is_nan x then "NaN"
  else
    let sign := if PrimFloat.ltb x 0%float then "-" else EmptyString in
    let ax := PrimFloat.abs x in
    if PrimFloat.leb 1e21%float ax then sign ++ big ax
    else
      let digits := pad_left (S d) (show_Z (round_scaled d x)) in
      let k := (String.length digits - d)%nat in
      sign ++ substring 0 k digits ++
        match d with
        | O => EmptyString
        | S _ => "." ++ substring k d digits
        end.

(** The nearest binary64 value to an integer (a JSON integer literal). *)
Definition of_Z (z : Z) : float :=
  SF2Prim (binary_normalize prec emax z 0 false).

(** [parseFloat(x.toFixed(4))].  Below 2^53 / 10^4 the decimal [n / 10^4]
    is read back by one correctly rounded division; from there on binary64
    values are more than 10^-4 apart, so the four-decimal string reads back
    as [x] itself (and so do "Infinity" and the exponent form). *)
Definition fixed4 (x : float) : float :=
  if PrimFloat.is_nan x then nan
  else if PrimFloat.leb 900719925474%float (PrimFloat.abs x) then x
  else
    let r := PrimFloat.div (of_Z (round_scaled 4 x)) 10000%float in
    if PrimFloat.ltb x 0%float then PrimFloat.opp r else r.

End Js.
Export Js.

(** ** Stage 4 helper: the quality band *)

Inductive Band : Type := excellent | good | acceptable | poor.

(** [getQualityBand] of evaluate.js.  The argument is the [overall_score]
    field of the model's reply, which may be missing; a missing score
    compares as NaN. *)
Definition getQualityBand (score : option float) : Band :=
  if num_ge (to_number score) 4.5%float then excellent
  else if num_ge (to_number score) 3.5%float then good
  else if num_ge (to_number score) 2.5%float then acceptable
  else poor.

(** ** Stage results and the execution trace *)

Inductive Stage : Type :=
| Setup | Capture | Analyze | Synthesize | Evaluate | Refine | Finalize
| Error | Complete.

Inductive Status : Type := Success | Warning | Failed | Skipped.

Definition status_eqb (a b : Status) : bool :=
  match a, b with
  | Success, Success | Warning, Warning | Failed, Failed | Skipped, Skipped => true
  | _, _ => false
  end.

Record StageError : Type := {
  err_code : string;
  err_message : string;
  err_recoverable : bool
}.

Record Artifact : Type := {
  art_name : string;
  art_path : string;
  art_size_bytes : Z
}.

Record Metrics : Type := {
  tokens_input : Z;
  tokens_output : Z;
  api_calls : Z;
  improvements_made : option Z
}.

(** [errors[0]?.message], as it is spliced into a string. *)
Definition first_error_message (errors : list StageError) : string :=
  match errors with
  | e :: _ => err_message e
  | [] => "undefined"
  end.

(** ** The schema validator (Ajv over the files under schemas/) *)

Record ValidationError : Type := {
  instancePath : string;
  keyword : string;
  v_message : string
}.

Record ValidationResult : Type := {
  valid : bool;
  errors : list ValidationError
}.

(** ** Evaluation documents *)

Record Dimension : Type := {
  dim_name : string;
  dim_display_name : string;
  dim_score : option float;
  dim_weight : option float;
  dim_justification : string
}.

Record Recommendation : Type := {
  rec_priority : string;
  rec_dimension : string;
  rec_issue : string;
  rec_suggestion : string
}.

(** What [extractJSONFromResponse] yields for the evaluator's reply, seen
    through the fields the pipeline reads.  [reply_quality_band] is a band
    the model may have written into its reply. *)
Record EvaluationData : Type := {
  reply_overall_score : option float;
  reply_quality_band : option string;
  reply_dimensions : option (list Dimension);
  reply_recommendations : option (list Recommendation)
}.

(** The [evaluation] object built by [evaluateBrandSpec]. *)
Record Evaluation : Type := {
  ev_brand_id : jsval;
  overall_score : option float;
  quality_band : Band;
  dimensions : option (list Dimension);
  recommendations : option (list Recommendation);
  ev_tokens_used : Z
}.

(** A reply of [anthropic.messages.create]. *)
Record ApiReply : Type := {
  usage_input_tokens : Z;
  usage_output_tokens : Z;
  reply_text : string
}.

(** The refinement prompt, by content: the specification, the evaluation
    and the recommendations selected for it. *)
Record RefinePrompt : Type := {
  prompt_spec : jsval;
  prompt_evaluation : Evaluation;
  prompt_issues : list Recommendation
}.

(** ** Results of the five stages *)

Record CaptureResult : Type := {
  cap_status : Status;
  cap_duration_ms : Z;
  cap_artifacts : list Artifact;
  cap_errors : list StageError;
  cap_data : jsval
}.

Record AnalyzeResult : Type := {
  an_status : Status;
  an_duration_ms : Z;
  an_artifacts : list Artifact;
  an_errors : list StageError;
  an_metrics : option Metrics;
  an_data : jsval
}.

Record SynthesizeResult : Type := {
  syn_status : Status;
  syn_duration_ms : Z;
  syn_artifacts : list Artifact;
  syn_errors : list StageError;
  syn_warnings : list string;
  syn_data : option json
}.

Record EvaluateResult : Type := {
  evr_status : Status;
  evr_duration_ms : Z;
  evr_artifacts : list Artifact;
  evr_errors : list StageError;
  evr_metrics : Metrics;
  evr_data : option Evaluation
}.

Record RefineResult : Type := {
  ref_status : Status;
  ref_duration_ms : Z;
  ref_artifacts : list Artifact;
  ref_errors : list StageError;
  ref_metrics : Metrics;
  ref_data : jsval
}.

(** One element of [executionTrace.stages]. *)
Record StageEntry : Type := {
  st_name : Stage;
  st_status : Status;
  st_duration_ms : Z;
  st_artifacts : list Artifact;
  st_errors : list StageError;
  st_metrics : option Metrics
}.

Record Summary : Type := {
  total_duration_ms : Z;
  summary_status : Status;
  total_tokens : Z;
  estimated_cost_usd : float;
  summary_warnings : list string
}.

Record ExecutionTrace : Type := {
  trace_brand_id : string;
  stages : list StageEntry;
  summary : option Summary
}.

Record SynthMeta : Type := {
  meta_brand_id : string;
  meta_brand_name : string;
  meta_source_url : string;
  meta_extracted_at : string;
  meta_adjectives : list string
}.

(** [metadata.json], by the fields computed from the run. *)
Record Metadata : Type := {
  md_brand_id : string;
  md_brand_name : string;
  md_source_url : string;
  md_overall_score : option float;
  md_quality_band : Band;
  md_total_tokens : Z;
  md_estimated_cost_usd : float;
  md_adjectives : list string
}.

(** ** The world outside the pipeline *)

(** The places where the pipeline touches the file system. *)
Inductive IoSite : Type :=
| CreateDirectories
| SaveBrandSpec | SizeBrandSpec
| SaveEvaluation | SizeEvaluation
| SaveRefinedSpec | SizeRefinedSpec
| SaveTrace | SaveMetadata.

Record World : Type := {
  (** runtime and environment *)
  number_toString : float -> string;
  url_is_valid : string -> bool;
  extractBrandName : string -> string;
  id_suffix : string;
  now_iso : string;
  elapsed_ms : Stage -> Z;
  kebab_case : string -> string;
  (** file system: the value returned is the size for the [Size...] sites *)
  io : IoSite -> Outcome Z;
  (** schema validation *)
  validateBrandSpec : json -> Outcome ValidationResult;
  validateEvaluation : Evaluation -> Outcome ValidationResult;
  validateExecutionTrace : ExecutionTrace -> Outcome ValidationResult;
  validateMetadata : Metadata -> Outcome ValidationResult;
  (** stages 1 and 2, external collaborators *)
  captureWebsite : string -> Outcome CaptureResult;
  analyzeWithClaude : jsval -> list string -> Outcome AnalyzeResult;
  (** token mapping helpers of synthesize.js whose bodies no property reads;
      the design-token mapper also pushes to the shared [warnings] array *)
  synthesizeDesignTokens : json -> list string * Outcome json;
  synthesizePatterns : json -> Outcome json;
  synthesizeAccessibility : json -> Outcome json;
  synthesizeNotes : json -> Outcome json;
  (** the model API and the JSON extraction from its replies *)
  evaluation_call : jsval -> Outcome ApiReply;
  extractEvaluationJSON : string -> Outcome EvaluationData;
  refinement_call : RefinePrompt -> Outcome ApiReply;
  extractRefinedJSON : string -> Outcome json;
  improvement_count : json -> json -> Z;
  total_elapsed_ms : Z
}.

(** ** Stage 3: synthesize.js *)

Section Synthesize.

Variable w : World.

(** [synthesizeBrandEssence]. *)
Definition synthesizeBrandEssence (tokens : json) : json :=
  let essence :=
    if truthy (get_prop tokens "brand_essence")
    then default (JObj []) (get_prop tokens "brand_essence")
    else JObj [] in
  JObj
    ([("description",
        if truthy (get_prop essence "description")
        then default JNull (get_prop essence "description")
        else JStr "Brand identity extracted from website");
      ("adjectives",
        match get_prop essence "adjectives" with
        | Some (JArr l) => JArr l
        | _ => JArr []
        end);
      ("tone",
        if truthy (get_prop essence "tone")
        then default JNull (get_prop essence "tone")
        else JStr "professional")]
     ++ field "target_audience" (get_prop essence "target_audience")).

(** [a || b] for a document property with a literal fallback. *)
Definition or_else (v : jsval) (fallback : json) : json :=
  if truthy v then default fallback v else fallback.

(** One element of the [tokens.components.map(...)] callback. *)
Definition synthesizeComponent (comp : json) : Outcome json :=
  obind (get_prop_strict (Some comp) "name") (fun name =>
  obind
    (if truthy (get_prop comp "example_html")
     then Returned (default JNull (get_prop comp "example_html"))
     else match name with
          | Some (JStr n) =>
              Returned (JStr ("<div class=" ++ dquote ++ kebab_case w n ++ dquote ++ ">"
                              ++ n ++ "</div>"))
          | _ => Thrown "comp.name.toLowerCase is not a function"
          end)
    (fun example_html =>
  Returned (JObj
    (field "name" name ++
     [("category", or_else (get_prop comp "category") (JStr "other"));
      ("description", or_else (get_prop comp "description") (JStr EmptyString));
      ("visual_properties", or_else (get_prop comp "visual_properties") (JObj []));
      ("states", or_else (get_prop comp "states_observed") (JObj []));
      ("usage_rules", or_else (get_prop comp "usage_notes") (JStr EmptyString));
      ("example_html", example_html)])))).

Fixpoint map_outcome {A B} (f : A -> Outcome B) (l : list A) : Outcome (list B) :=
  match l with
  | [] => Returned []
  | x :: rest =>
      obind (f x) (fun y => obind (map_outcome f rest) (fun ys => Returned (y :: ys)))
  end.

(** [synthesizeComponents]: no components when the property is falsy or an
    empty array; a value without [map] is a TypeError. *)
Definition synthesizeComponents (tokens : json) : Outcome json :=
  match get_prop tokens "components" with
  | Some (JArr []) => Returned (JArr [])
  | Some (JArr comps) => obind (map_outcome synthesizeComponent comps) (fun l => Returned (JArr l))
  | Some (JObj fields) =>
      match assoc_get "length" fields with
      | Some (JNum x) =>
          if PrimFloat.eqb x 0%float then Returned (JArr [])
          else Thrown "tokens.components.map is not a function"
      | _ => Thrown "tokens.components.map is not a function"
      end
  | v => if truthy v then Thrown "tokens.components.map is not a function"
         else Returned (JArr [])
  end.

(** The object literal [brandSpec] of [synthesizeBrandSpec], evaluated
    property by property; the warnings pushed so far survive an exception. *)
Definition buildBrandSpec (brandTokens : jsval) (metadata : SynthMeta) (totalDuration : Z)
  : list string * Outcome json :=
  match brandTokens with
  | None => ([], Thrown "Cannot read properties of undefined (reading 'brand_essence')")
  | Some JNull => ([], Thrown "Cannot read properties of null (reading 'brand_essence')")
  | Some tokens =>
      let md := JObj [("brand_id", JStr (meta_brand_id metadata));
                      ("brand_name", JStr (meta_brand_name metadata));
                      ("source_url", JStr (meta_source_url metadata));
                      ("extracted_at", JStr (meta_extracted_at metadata));
                      ("extraction_duration_ms", JNum (of_Z totalDuration));
                      ("adjectives", JArr (map JStr (meta_adjectives metadata)));
                      ("pipeline_version", JStr "1.0.0")] in
      let essence := synthesizeBrandEssence tokens in
      let '(warnings, design) := synthesizeDesignTokens w tokens in
      (warnings,
       obind design (fun design_tokens =>
       obind (synthesizeComponents tokens) (fun components =>
       obind (synthesizePatterns w tokens) (fun patterns =>
       obind (synthesizeAccessibility w tokens) (fun accessibility =>
       obind (synthesizeNotes w tokens) (fun notes =>
       Returned (JObj [("version", JStr "1.0.0");
                       ("metadata", md);
                       ("brand_essence", essence);
                       ("design_tokens", design_tokens);
                       ("components", components);
                       ("patterns", patterns);
                       ("accessibility", accessibility);
                       ("notes", notes)])))))))
  end.

(** *** fixValidationIssues *)

Fixpoint includes (needle s : string) : bool :=
  String.prefix needle s ||
  match s with
  | EmptyString => false
  | String _ rest => includes needle rest
  end.

Definition digit_of (c : ascii) : option N :=
  let n := N_of_ascii c in
  if ((48 <=? n) && (n <=? 57))%N then Some (n - 48)%N else None.

(** The value of the longest run of decimal digits at the head of [s]. *)
Fixpoint read_digits (s : string) (acc : option N) : option N :=
  match s with
  | EmptyString => acc
  | String c rest =>
      match digit_of c with
      | Some d => read_digits rest (Some (10 * default 0%N acc + d)%N)
      | None => acc
      end
  end.

Definition after_prefix (p s : string) : option string :=
  if String.prefix p s
  then Some (substring (String.length p) (String.length s - String.length p) s)
  else None.

(** [parseInt(path.match(/\/components\/(\d+)/)[1])]: the leftmost place
    where "/components/" is followed by a digit. *)
Fixpoint match_components (path : string) : option N :=
  match
    match after_prefix "/components/" path with
    | Some rest => read_digits rest None
    | None => None
    end
  with
  | Some index => Some index
  | None =>
      match path with
      | EmptyString => None
      | String _ rest => match_components rest
      end
  end.

(** The three repairs on [component].  The module runs in strict mode: a
    read on null or undefined and a write on a primitive are TypeErrors;
    named properties written on an array do not show in the document. *)
Definition fix_component (component : jsval) : Outcome json :=
  match component with
  | None => Thrown "Cannot read properties of undefined (reading 'visual_properties')"
  | Some JNull => Thrown "Cannot read properties of null (reading 'visual_properties')"
  | Some (JObj fields) =>
      let c0 := JObj fields in
      let c1 := if truthy (get_prop c0 "visual_properties") then c0
                else set_prop c0 "visual_properties" (JObj []) in
      let c2 := if truthy (get_prop c1 "category") then c1
                else set_prop c1 "category" (JStr "other") in
      let c3 := if truthy (get_prop c2 "description") then c2
                else set_prop c2 "description"
                       (or_else (get_prop c2 "name") (JStr "Component")) in
      Returned c3
  | Some (JArr items) => Returned (JArr items)
  | Some _ => Thrown "Cannot create property 'visual_properties' on a primitive"
  end.

(** [brandSpec.components[index]], repaired in place. *)
Definition fix_at (brandSpec : json) (index : N) : Outcome json :=
  match get_prop brandSpec "components" with
  | Some (JArr comps) =>
      obind (fix_component (comps !! N.to_nat index)) (fun c =>
      Returned (set_prop brandSpec "components" (JArr (<[N.to_nat index := c]> comps))))
  | Some (JObj fields) =>
      obind (fix_component (assoc_get (show_Z (Z.of_N index)) fields)) (fun c =>
      Returned (set_prop brandSpec "components"
                  (JObj (assoc_set (show_Z (Z.of_N index)) c fields))))
  | _ => Thrown "Cannot read properties of undefined (reading 'visual_properties')"
  end.

(** The body of the [errors.forEach] callback. *)
Definition fix_one (brandSpec : json) (e : ValidationError) : Outcome json :=
  if includes "/components/" (instancePath e) && String.eqb (keyword e) "required"
  then match match_components (instancePath e) with
       | Some index => fix_at brandSpec index
       | None => Returned brandSpec
       end
  else Returned brandSpec.

Fixpoint fixValidationIssues (brandSpec : json) (errs : list ValidationError)
  : Outcome json :=
  match errs with
  | [] => Returned brandSpec
  | e :: rest => obind (fix_one brandSpec e) (fun s => fixValidationIssues s rest)
  end.

(** *** synthesizeBrandSpec *)

Definition schema_warning (v : ValidationResult) : string :=
  "Schema validation issues: " ++ show_nat (length (errors v)) ++ " errors found".

(** What the [try] block leaves behind: the [warnings] array, the documents
    handed to [validateBrandSpec] in call order, and its completion. *)
Record SynthesizeRun : Type := {
  run_warnings : list string;
  run_validated : list json;
  run_completion : Outcome (json * Artifact)
}.

Definition save_brand_spec (warnings : list string) (validated : list json) (spec : json)
  : SynthesizeRun :=
  {| run_warnings := warnings;
     run_validated := validated;
     run_completion :=
       obind (io w SaveBrandSpec) (fun _ =>
       obind (io w SizeBrandSpec) (fun size =>
       Returned (spec, {| art_name := "brand_spec.json";
                          art_path := "reports/brand_spec.json";
                          art_size_bytes := size |}))) |}.

Definition synthesize_try (brandTokens : jsval) (metadata : SynthMeta) (totalDuration : Z)
  : SynthesizeRun :=
  match buildBrandSpec brandTokens metadata totalDuration with
  | (warnings, Thrown m) =>
      {| run_warnings := warnings; run_validated := []; run_completion := Thrown m |}
  | (warnings, Returned brandSpec) =>
      match validateBrandSpec w brandSpec with
      | Thrown m =>
          {| run_warnings := warnings; run_validated := [brandSpec];
             run_completion := Thrown m |}
      | Returned validation =>
          if valid validation then save_brand_spec warnings [brandSpec] brandSpec
          else
            let warnings' := (warnings ++ [schema_warning validation])%list in
            match fixValidationIssues brandSpec (errors validation) with
            | Thrown m =>
                {| run_warnings := warnings'; run_validated := [brandSpec];
                   run_completion := Thrown m |}
            | Returned repaired =>
                match validateBrandSpec w repaired with
                | Thrown m =>
                    {| run_warnings := warnings'; run_validated := [brandSpec; repaired];
                       run_completion := Thrown m |}
                | Returned revalidation =>
                    save_brand_spec warnings' [brandSpec; repaired] repaired
                end
            end
      end
  end.

Definition synthesizeBrandSpec (brandTokens : jsval) (metadata : SynthMeta)
    (totalDuration : Z) : SynthesizeResult :=
  let run := synthesize_try brandTokens metadata totalDuration in
  match run_completion run with
  | Returned (brandSpec, artifact) =>
      {| syn_status := match run_warnings run with [] => Success | _ => Warning end;
         syn_duration_ms := elapsed_ms w Synthesize;
         syn_artifacts := [artifact];
         syn_errors := [];
         syn_warnings := run_warnings run;
         syn_data := Some brandSpec |}
  | Thrown m =>
      {| syn_status := Failed;
         syn_duration_ms := elapsed_ms w Synthesize;
         syn_artifacts := [];
         syn_errors := [{| err_code := "SYNTHESIS_ERROR"; err_message := m;
                           err_recoverable := false |}];
         syn_warnings := run_warnings run;
         syn_data := None |}
  end.

End Synthesize.

(** ** Stage 4: evaluate.js *)

Section Evaluate.

Variable w : World.

Definition requiredDimensions : list (string * string * float) :=
  [("brand_fidelity", "Brand Fidelity", 0.4%float);
   ("completeness", "Completeness", 0.2%float);
   ("parseability", "Parseability", 0.15%float);
   ("actionability", "Actionability", 0.15%float);
   ("accessibility", "Accessibility", 0.05%float);
   ("insight_depth", "Insight Depth", 0.05%float)].

(** The inner [requiredDimensions.forEach]: push what [find] misses. *)
Definition add_missing_dimensions (dims : list Dimension) : list Dimension :=
  fold_left
    (fun (acc : list Dimension) '(name, display_name, weight) =>
       if existsb (fun d => String.eqb (dim_name d) name) acc then acc
       else (acc ++ [{| dim_name := name;
                        dim_display_name := display_name;
                        dim_score := Some 3%float;
                        dim_weight := Some weight;
                        dim_justification := "Dimension not evaluated" |}])%list)
    requiredDimensions dims.

(** [dimensions.reduce((sum, dim) => sum + dim.score * dim.weight, 0)]. *)
Definition weighted_sum (dims : list Dimension) : float :=
  fold_left
    (fun sum dim =>
       PrimFloat.add sum
         (PrimFloat.mul (to_number (dim_score dim)) (to_number (dim_weight dim))))
    dims 0%float.

Definition score_falsy (score : option float) : bool :=
  match score with
  | Some x => negb (num_truthy x)
  | None => true
  end.

(** The body of the [errors.forEach] callback of [fixEvaluationIssues]. *)
Definition fix_evaluation_one (evaluation : Evaluation) (e : ValidationError)
  : Evaluation :=
  let ev1 :=
    if String.eqb (instancePath e) "/dimensions" && String.eqb (keyword e) "minItems"
    then {| ev_brand_id := ev_brand_id evaluation;
            overall_score := overall_score evaluation;
            quality_band := quality_band evaluation;
            dimensions := Some (add_missing_dimensions (default [] (dimensions evaluation)));
            recommendations := recommendations evaluation;
            ev_tokens_used := ev_tokens_used evaluation |}
    else evaluation in
  match dimensions ev1 with
  | Some dims =>
      if score_falsy (overall_score ev1)
      then {| ev_brand_id := ev_brand_id ev1;
              overall_score := Some (weighted_sum dims);
              quality_band := quality_band ev1;
              dimensions := dimensions ev1;
              recommendations := recommendations ev1;
              ev_tokens_used := ev_tokens_used ev1 |}
      else ev1
  | None => ev1
  end.

Definition fixEvaluationIssues (evaluation : Evaluation) (errs : list ValidationError)
  : Evaluation :=
  fold_left fix_evaluation_one errs evaluation.

(** The [try] block of [evaluateBrandSpec]: the token counters as they
    stand when it ends, and its completion. *)
Definition evaluate_try (brandSpec : jsval) : Z * Z * Outcome (Evaluation * Artifact) :=
  match evaluation_call w brandSpec with
  | Thrown m => (0, 0, Thrown m)
  | Returned message =>
      (usage_input_tokens message, usage_output_tokens message,
       obind (extractEvaluationJSON w (reply_text message)) (fun evaluationData =>
       obind (get_prop_strict brandSpec "metadata") (fun md =>
       obind (get_prop_strict md "brand_id") (fun brand_id =>
       let evaluation :=
         {| ev_brand_id := brand_id;
            overall_score := reply_overall_score evaluationData;
            quality_band := getQualityBand (reply_overall_score evaluationData);
            dimensions := reply_dimensions evaluationData;
            recommendations := reply_recommendations evaluationData;
            ev_tokens_used := usage_input_tokens message + usage_output_tokens message |} in
       obind (validateEvaluation w evaluation) (fun validation =>
       obind
         (if valid validation then Returned evaluation
          else
            let fixed := fixEvaluationIssues evaluation (errors validation) in
            obind (validateEvaluation w fixed) (fun _ => Returned fixed))
         (fun final =>
       obind (io w SaveEvaluation) (fun _ =>
       obind (io w SizeEvaluation) (fun size =>
       Returned (final, {| art_name := "evaluation.json";
                           art_path := "evaluations/evaluation.json";
                           art_size_bytes := size |})))))))))
  end.

Definition evaluateBrandSpec (brandSpec : jsval) : EvaluateResult :=
  let '(totalInputTokens, totalOutputTokens, completion) := evaluate_try brandSpec in
  let metrics := {| tokens_input := totalInputTokens;
                    tokens_output := totalOutputTokens;
                    api_calls := 1;
                    improvements_made := None |} in
  match completion with
  | Returned (evaluation, artifact) =>
      {| evr_status := Success;
         evr_duration_ms := elapsed_ms w Evaluate;
         evr_artifacts := [artifact];
         evr_errors := [];
         evr_metrics := metrics;
         evr_data := Some evaluation |}
  | Thrown m =>
      {| evr_status := Failed;
         evr_duration_ms := elapsed_ms w Evaluate;
         evr_artifacts := [];
         evr_errors := [{| err_code := "EVALUATION_ERROR"; err_message := m;
                           err_recoverable := false |}];
         evr_metrics := metrics;
         evr_data := None |}
  end.

End Evaluate.

(** ** Stage 5: refine.js *)

Section Refine.

Variable w : World.

Definition is_critical (r : Recommendation) : bool :=
  String.eqb (rec_priority r) "critical" || String.eqb (rec_priority r) "high".

(** [buildRefinementPrompt]: [filter] on a missing [recommendations], [map]
    on a missing [dimensions] and [toFixed] on a missing score are
    TypeErrors. *)
Definition buildRefinementPrompt (brandSpec : jsval) (evaluation : Evaluation)
  : Outcome RefinePrompt :=
  match recommendations evaluation with
  | None => Thrown "Cannot read properties of undefined (reading 'filter')"
  | Some recs =>
      match overall_score evaluation with
      | None => Thrown "Cannot read properties of undefined (reading 'toFixed')"
      | Some _ =>
          match dimensions evaluation with
          | None => Thrown "Cannot read properties of undefined (reading 'map')"
          | Some dims =>
              if forallb (fun d => match dim_score d with Some _ => true | None => false end) dims
              then Returned {| prompt_spec := brandSpec;
                               prompt_evaluation := evaluation;
                               prompt_issues := List.filter is_critical recs |}
              else Thrown "Cannot read properties of undefined (reading 'toFixed')"
          end
      end
  end.

(** [countImprovements]: the count itself is [improvement_count]; reading a
    property of a null or undefined document is a TypeError. *)
Definition countImprovements (original : jsval) (refined : json) : Outcome Z :=
  match original, refined with
  | None, _ => Thrown "Cannot read properties of undefined (reading 'components')"
  | Some JNull, _ => Thrown "Cannot read properties of null (reading 'components')"
  | Some _, JNull => Thrown "Cannot read properties of null (reading 'components')"
  | Some o, r => Returned (improvement_count w o r)
  end.

(** How the [try] block of [refineBrandSpec] ends. *)
Inductive RefineCompletion : Type :=
| RefinedOk (refinedSpec : json) (improvementsMade : Z) (artifact : Artifact)
| RefinedInvalid
| RefineThrew (message : string).

Definition refine_try (brandSpec : jsval) (evaluation : Evaluation)
  : Z * Z * RefineCompletion :=
  match obind (buildRefinementPrompt brandSpec evaluation) (refinement_call w) with
  | Thrown m => (0, 0, RefineThrew m)
  | Returned message =>
      (usage_input_tokens message, usage_output_tokens message,
       match extractRefinedJSON w (reply_text message) with
       | Thrown m => RefineThrew m
       | Returned refinedSpec =>
           match validateBrandSpec w refinedSpec with
           | Thrown m => RefineThrew m
           | Returned validation =>
               if negb (valid validation) then RefinedInvalid
               else
                 match
                   obind (countImprovements brandSpec refinedSpec) (fun improvementsMade =>
                   obind (io w SaveRefinedSpec) (fun _ =>
                   obind (io w SizeRefinedSpec) (fun size =>
                   Returned (improvementsMade, size))))
                 with
                 | Thrown m => RefineThrew m
                 | Returned (improvementsMade, size) =>
                     RefinedOk refinedSpec improvementsMade
                       {| art_name := "brand_spec.json (refined)";
                          art_path := "reports/brand_spec.json";
                          art_size_bytes := size |}
                 end
           end
       end)
  end.

Definition refineBrandSpec (brandSpec : jsval) (evaluation : Evaluation) : RefineResult :=
  if num_ge (to_number (overall_score evaluation)) 4.5%float
  then {| ref_status := Skipped;
          ref_duration_ms := elapsed_ms w Refine;
          ref_artifacts := [];
          ref_errors := [];
          ref_metrics := {| tokens_input := 0; tokens_output := 0; api_calls := 0;
                            improvements_made := Some 0 |};
          ref_data := brandSpec |}
  else
    let '(totalInputTokens, totalOutputTokens, completion) :=
      refine_try brandSpec evaluation in
    match completion with
    | RefinedOk refinedSpec improvementsMade artifact =>
        {| ref_status := Success;
           ref_duration_ms := elapsed_ms w Refine;
           ref_artifacts := [artifact];
           ref_errors := [];
           ref_metrics := {| tokens_input := totalInputTokens;
                             tokens_output := totalOutputTokens;
                             api_calls := 1;
                             improvements_made := Some improvementsMade |};
           ref_data := Some refinedSpec |}
    | RefinedInvalid =>
        {| ref_status := Failed;
           ref_duration_ms := elapsed_ms w Refine;
           ref_artifacts := [];
           ref_errors := [{| err_code := "VALIDATION_FAILED";
                             err_message := "Refined specification failed validation";
                             err_recoverable := true |}];
           ref_metrics := {| tokens_input := totalInputTokens;
                             tokens_output := totalOutputTokens;
                             api_calls := 1;
                             improvements_made := Some 0 |};
           ref_data := brandSpec |}
    | RefineThrew m =>
        {| ref_status := Failed;
           ref_duration_ms := elapsed_ms w Refine;
           ref_artifacts := [];
           ref_errors := [{| err_code := "REFINEMENT_ERROR"; err_message := m;
                             err_recoverable := true |}];
           ref_metrics := {| tokens_input := totalInputTokens;
                             tokens_output := totalOutputTokens;
                             api_calls := 1;
                             improvements_made := Some 0 |};
           ref_data := brandSpec |}
    end.

End Refine.

(** ** The orchestrator: orchestrator.js *)

(** What [extractBrand] does that can be observed while it runs: calls of
    [emit] and pushes onto [executionTrace.stages], in program order.

    The progress callback returns nothing, so the body learns nothing from
    it except that it threw.  The body is therefore written against a journal
    of its own actions, and [extractBrand] replays that journal against the
    callback: at the first call that throws the rest of the body is dropped
    and control passes to the [catch] block, as it does in the source. *)
Inductive Action : Type :=
| Emit (stage : Stage) (message : string)
| PushStage (entry : StageEntry).

Definition emitted (journal : list Action) : list (Stage * string) :=
  omap (fun a => match a with Emit s m => Some (s, m) | PushStage _ => None end) journal.

Definition stages_of (journal : list Action) : list StageEntry :=
  omap (fun a => match a with PushStage e => Some e | Emit _ _ => None end) journal.

(** The body of the [try] block threads the journal of what it has done so
    far and may end in an exception. *)
Definition Body (A : Type) : Type := list Action -> list Action * Outcome A.

Definition ret {A} (a : A) : Body A := fun j => (j, Returned a).

Definition bind {A B} (c : Body A) (k : A -> Body B) : Body B :=
  fun j =>
    match c j with
    | (j', Returned a) => k a j'
    | (j', Thrown m) => (j', Thrown m)
    end.

Definition throw {A} (message : string) : Body A := fun j => (j, Thrown message).

(** [await] of a call into the world. *)
Definition await {A} (o : Outcome A) : Body A := fun j => (j, o).

Definition emit (stage : Stage) (message : string) : Body unit :=
  fun j => ((j ++ [Emit stage message])%list, Returned tt).

Definition push_stage (entry : StageEntry) : Body unit :=
  fun j => ((j ++ [PushStage entry])%list, Returned tt).

Definition current_stages : Body (list StageEntry) :=
  fun j => (j, Returned (stages_of j)).

Notation "'let*' x ':=' c 'in' k" := (bind c (fun x => k))
  (at level 10, x name, c at level 100, k at level 200).
Notation "c ';;' k" := (bind c (fun _ => k))
  (at level 100, k at level 200, right associativity).

Record ExtractSuccess : Type := {
  brand_id : string;
  brand_name : string;
  brand_spec : jsval;
  evaluation : Evaluation;
  refinement : option RefineResult;
  execution_trace : ExecutionTrace;
  metadata : Metadata
}.

(** The object [extractBrand] resolves to: [success: true] with the
    results, or [success: false] with [error]. *)
Inductive ExtractResult : Type :=
| ExtractOk (r : ExtractSuccess)
| ExtractFailed (error : string).

Section Orchestrator.

Variable w : World.

Definition metrics_tokens (m : option Metrics) : Z * Z :=
  match m with
  | Some x => (tokens_input x, tokens_output x)
  | None => (0, 0)
  end.

(** [(inputTokens / 1000000 * 3) + (outputTokens / 1000000 * 15)]. *)
Definition estimatedCost (inputTokens outputTokens : Z) : float :=
  PrimFloat.add
    (PrimFloat.mul (PrimFloat.div (of_Z inputTokens) 1000000%float) 3%float)
    (PrimFloat.mul (PrimFloat.div (of_Z outputTokens) 1000000%float) 15%float).

Definition capture_entry (c : CaptureResult) : StageEntry :=
  {| st_name := Capture; st_status := cap_status c;
     st_duration_ms := cap_duration_ms c;
     st_artifacts := cap_artifacts c;
     st_errors := cap_errors c;
     st_metrics := None |}.

Definition analyze_entry (a : AnalyzeResult) : StageEntry :=
  {| st_name := Analyze; st_status := an_status a;
     st_duration_ms := an_duration_ms a;
     st_artifacts := an_artifacts a;
     st_errors := an_errors a;
     st_metrics := an_metrics a |}.

Definition synthesize_entry (r : SynthesizeResult) : StageEntry :=
  {| st_name := Synthesize; st_status := syn_status r;
     st_duration_ms := syn_duration_ms r;
     st_artifacts := syn_artifacts r;
     st_errors := syn_errors r;
     st_metrics := None |}.

Definition evaluate_entry (r : EvaluateResult) : StageEntry :=
  {| st_name := Evaluate; st_status := evr_status r;
     st_duration_ms := evr_duration_ms r;
     st_artifacts := evr_artifacts r;
     st_errors := evr_errors r;
     st_metrics := Some (evr_metrics r) |}.

Definition refine_entry (r : RefineResult) : StageEntry :=
  {| st_name := Refine; st_status := ref_status r;
     st_duration_ms := ref_duration_ms r;
     st_artifacts := ref_artifacts r;
     st_errors := ref_errors r;
     st_metrics := Some (ref_metrics r) |}.

(** The [metadata] argument of [synthesizeBrandSpec]. *)
Definition synthesis_metadata (url : string) (adjectives : list string) : SynthMeta :=
  {| meta_brand_id := extractBrandName w url ++ "_" ++ id_suffix w;
     meta_brand_name := extractBrandName w url;
     meta_source_url := url;
     meta_extracted_at := now_iso w;
     meta_adjectives := adjectives |}.

(** The entry pushed when the orchestrator itself skips stage 5. *)
Definition skipped_refine_entry : StageEntry :=
  {| st_name := Refine; st_status := Skipped; st_duration_ms := 0;
     st_artifacts := []; st_errors := [];
     st_metrics := Some {| tokens_input := 0; tokens_output := 0; api_calls := 0;
                           improvements_made := Some 0 |} |}.

(** Stage 5 of [extractBrand]: the refined specification replaces the
    synthesized one only when the stage reports [success]. *)
Definition refine_step (synthesized : jsval) (ev : Evaluation) (score : float)
  : Body (option RefineResult * jsval) :=
  if num_lt score 4.5%float then
    emit Refine ("Refining specification based on feedback (score: "
                 ++ toFixed (number_toString w) score 2 ++ ")...") ;;
    let refineResult := refineBrandSpec w synthesized ev in
    push_stage (refine_entry refineResult) ;;
    match ref_status refineResult with
    | Success =>
        emit Refine ("Refinement complete - Made "
                     ++ match improvements_made (ref_metrics refineResult) with
                        | Some n => show_Z n
                        | None => "undefined"
                        end ++ " improvements") ;;
        ret (Some refineResult, ref_data refineResult)
    | Skipped =>
        emit Refine "Refinement skipped - score is excellent" ;;
        ret (Some refineResult, synthesized)
    | _ =>
        emit Refine "Refinement failed - using original specification" ;;
        ret (Some refineResult, synthesized)
    end
  else
    emit Refine "Refinement skipped - score is excellent (≥4.5)" ;;
    push_stage skipped_refine_entry ;;
    ret (None, synthesized).

Definition extractBrand_body (url : string) (adjectives : list string)
  : Body ExtractSuccess :=
  let brandName := extractBrandName w url in
  let brandId := brandName ++ "_" ++ id_suffix w in
  emit Setup ("Creating brand directories for " ++ brandId) ;;
  await (io w CreateDirectories) ;;
  (* Stage 1: Capture *)
  emit Capture "Launching browser and capturing website..." ;;
  let* captureResult := await (captureWebsite w url) in
  push_stage (capture_entry captureResult) ;;
  (if status_eqb (cap_status captureResult) Failed
   then throw ("Capture stage failed: " ++ first_error_message (cap_errors captureResult))
   else ret tt) ;;
  emit Capture ("Captured " ++ show_nat (length (cap_artifacts captureResult))
                ++ " artifacts") ;;
  (* Stage 2: Analyze *)
  emit Analyze "Analyzing screenshots with Claude Vision API..." ;;
  let* analyzeResult := await (analyzeWithClaude w (cap_data captureResult) adjectives) in
  push_stage (analyze_entry analyzeResult) ;;
  (if status_eqb (an_status analyzeResult) Failed
   then throw ("Analysis stage failed: " ++ first_error_message (an_errors analyzeResult))
   else ret tt) ;;
  let* analyzeMetrics :=
    match an_metrics analyzeResult with
    | Some m => ret m
    | None => throw "Cannot read properties of undefined (reading 'tokens_input')"
    end in
  emit Analyze ("Analysis complete ("
                ++ show_Z (tokens_input analyzeMetrics + tokens_output analyzeMetrics)
                ++ " tokens)") ;;
  (* Stage 3: Synthesize *)
  emit Synthesize "Synthesizing brand specification..." ;;
  let synthesizeResult :=
    synthesizeBrandSpec w (an_data analyzeResult) (synthesis_metadata url adjectives)
      (cap_duration_ms captureResult + an_duration_ms analyzeResult) in
  push_stage (synthesize_entry synthesizeResult) ;;
  (if status_eqb (syn_status synthesizeResult) Failed
   then throw ("Synthesis stage failed: " ++ first_error_message (syn_errors synthesizeResult))
   else ret tt) ;;
  (match syn_warnings synthesizeResult with
   | [] => emit Synthesize "Brand specification synthesized and validated"
   | ws => emit Synthesize ("Synthesis complete with " ++ show_nat (length ws)
                            ++ " warnings")
   end) ;;
  (* Stage 4: Evaluate *)
  emit Evaluate "Evaluating brand specification quality..." ;;
  let evaluateResult := evaluateBrandSpec w (syn_data synthesizeResult) in
  push_stage (evaluate_entry evaluateResult) ;;
  (if status_eqb (evr_status evaluateResult) Failed
   then throw ("Evaluation stage failed: " ++ first_error_message (evr_errors evaluateResult))
   else ret tt) ;;
  let* ev :=
    match evr_data evaluateResult with
    | Some e => ret e
    | None => throw "Cannot read properties of undefined (reading 'overall_score')"
    end in
  let* score :=
    match overall_score ev with
    | Some x => ret x
    | None => throw "Cannot read properties of undefined (reading 'toFixed')"
    end in
  emit Evaluate ("Evaluation complete - Overall score: "
                 ++ toFixed (number_toString w) score 2 ++ "/5.0") ;;
  (* Stage 5: Refine (if score < 4.5) *)
  let* refined := refine_step (syn_data synthesizeResult) ev score in
  let refineResult := fst refined in
  let finalBrandSpec := snd refined in
  (* Finalize execution trace *)
  let refineMetrics := option_map ref_metrics refineResult in
  let totalTokens :=
    tokens_input analyzeMetrics + tokens_output analyzeMetrics
    + tokens_input (evr_metrics evaluateResult)
    + tokens_output (evr_metrics evaluateResult)
    + fst (metrics_tokens refineMetrics) + snd (metrics_tokens refineMetrics) in
  let inputTokens :=
    tokens_input analyzeMetrics + tokens_input (evr_metrics evaluateResult)
    + fst (metrics_tokens refineMetrics) in
  let outputTokens :=
    tokens_output analyzeMetrics + tokens_output (evr_metrics evaluateResult)
    + snd (metrics_tokens refineMetrics) in
  let cost := fixed4 (estimatedCost inputTokens outputTokens) in
  let* pushed := current_stages in
  let executionTrace :=
    {| trace_brand_id := brandId;
       stages := pushed;
       summary := Some {| total_duration_ms := total_elapsed_ms w;
                          summary_status := Success;
                          total_tokens := totalTokens;
                          estimated_cost_usd := cost;
                          summary_warnings := syn_warnings synthesizeResult |} |} in
  emit Finalize "Saving execution trace..." ;;
  await (io w SaveTrace) ;;
  await (validateExecutionTrace w executionTrace) ;;
  await (get_prop_strict finalBrandSpec "design_tokens") ;;
  let md := {| md_brand_id := brandId; md_brand_name := brandName;
               md_source_url := url;
               md_overall_score := overall_score ev;
               md_quality_band := quality_band ev;
               md_total_tokens := totalTokens;
               md_estimated_cost_usd := cost;
               md_adjectives := adjectives |} in
  await (io w SaveMetadata) ;;
  await (validateMetadata w md) ;;
  emit Finalize "Brand extraction complete!" ;;
  ret {| brand_id := brandId; brand_name := brandName;
         brand_spec := finalBrandSpec;
         evaluation := ev;
         refinement := refineResult;
         execution_trace := executionTrace;
         metadata := md |}.

(** The result of stage 3 in the run for [url], when stages 1 and 2
    return. *)
Definition stage3_result (url : string) (adjectives : list string)
  : Outcome SynthesizeResult :=
  obind (captureWebsite w url) (fun c =>
  obind (analyzeWithClaude w (cap_data c) adjectives) (fun a =>
  Returned (synthesizeBrandSpec w (an_data a) (synthesis_metadata url adjectives)
              (cap_duration_ms c + an_duration_ms a)))).

(** The result of stage 4 in that run. *)
Definition stage4_result (url : string) (adjectives : list string)
  : Outcome EvaluateResult :=
  obind (stage3_result url adjectives) (fun syn =>
  Returned (evaluateBrandSpec w (syn_data syn))).

(** *** Running the body against a progress callback *)

Context {S : Type}.

(** [onProgress(stage, message)] acting on the state [S] of whoever
    observes the run; it may throw. *)
Definition ProgressSink : Type := Stage -> string -> S -> Outcome unit * S.

Variable onProgress : option ProgressSink.

Record RunState : Type := {
  observer : S;
  trace_stages : list StageEntry
}.

Definition perform_one (a : Action) (st : RunState) : Outcome unit * RunState :=
  match a with
  | Emit stage message =>
      match onProgress with
      | Some callback =>
          let '(o, s') := callback stage message (observer st) in
          (o, {| observer := s'; trace_stages := trace_stages st |})
      | None => (Returned tt, st)
      end
  | PushStage entry =>
      (Returned tt,
       {| observer := observer st;
          trace_stages := (trace_stages st ++ [entry])%list |})
  end.

(** The journal in order, up to the first call of the sink that throws. *)
Fixpoint perform (journal : list Action) (st : RunState) : Outcome unit * RunState :=
  match journal with
  | [] => (Returned tt, st)
  | a :: rest =>
      match perform_one a st with
      | (Returned _, st') => perform rest st'
      | (Thrown m, st') => (Thrown m, st')
      end
  end.

(** The [catch] block: one more [emit], then the failure object. *)
Definition on_catch (message : string) (st : RunState)
  : Outcome ExtractResult * RunState :=
  match perform_one (Emit Error ("Extraction failed: " ++ message)) st with
  | (Returned _, st') => (Returned (ExtractFailed message), st')
  | (Thrown m, st') => (Thrown m, st')
  end.

(** [extractBrand]: [Returned] is the promise fulfilled, [Thrown] is the
    promise rejected. *)
Definition extractBrand (url : string) (adjectives : list string) (s0 : S)
  : Outcome ExtractResult * RunState :=
  let '(journal, completion) := extractBrand_body url adjectives [] in
  match perform journal {| observer := s0; trace_stages := [] |} with
  | (Thrown m, st) => on_catch m st
  | (Returned _, st) =>
      match completion with
      | Returned r => (Returned (ExtractOk r), st)
      | Thrown m => on_catch m st
      end
  end.

End Orchestrator.

(** ** The API server: POST /api/extract in server.js *)

Module Server.

Inductive SessionStatus : Type := Processing | Completed | SessionFailed.

Record ProgressEvent : Type := {
  pe_stage : Stage;
  pe_message : string;
  progress_percent : Z;
  pe_brand_id : option string
}.

Record Session : Type := {
  status : SessionStatus;
  progress : Z;
  stage : Stage;
  message : string;
  events : list ProgressEvent;
  result : option ExtractResult;
  error : option string
}.

(** The [stageProgress] table; 'refine' and 'complete' are not keys of it. *)
Definition stageProgress (s : Stage) : option Z :=
  match s with
  | Setup => Some 5
  | Capture => Some 25
  | Analyze => Some 50
  | Synthesize => Some 75
  | Evaluate => Some 90
  | Finalize => Some 100
  | Error => Some 0
  | Refine | Complete => None
  end.

(** [stageProgress[stage] || session.progress]. *)
Definition next_progress (s : Stage) (current : Z) : Z :=
  match stageProgress s with
  | Some p => if p =? 0 then current else p
  | None => current
  end.

Definition record_progress (s : Stage) (msg : string) (session : Session) : Session :=
  let p := next_progress s (progress session) in
  {| status := status session;
     progress := p;
     stage := s;
     message := msg;
     events := (events session ++
                [{| pe_stage := s; pe_message := msg; progress_percent := p;
                    pe_brand_id := None |}])%list;
     result := result session;
     error := error session |}.

(** The [onProgress] callback handed to [extractBrand]. *)
Definition onProgress (sessionId : string)
  : @ProgressSink (gmap string Session) :=
  fun s msg activeSessions =>
    match activeSessions !! sessionId with
    | Some session =>
        (Returned tt, <[sessionId := record_progress s msg session]> activeSessions)
    | None => (Returned tt, activeSessions)
    end.

(** The registry after the callback of one extraction has been called with
    each of [l] in turn. *)
Definition deliver (sessionId : string) (l : list (Stage * string))
    (activeSessions : gmap string Session) : gmap string Session :=
  fold_left (fun sessions '(s, msg) => snd (onProgress sessionId s msg sessions))
    l activeSessions.

Definition sessionData : Session :=
  {| status := Processing; progress := 0; stage := Setup;
     message := "Initializing extraction..."; events := [];
     result := None; error := None |}.

Inductive Response : Type :=
| BadRequest (error : string)
| Started (session_id : string).

(** The synchronous part of the handler; [now] is [Date.now()]. *)
Definition post_extract (w : World) (now : Z) (url : string)
    (activeSessions : gmap string Session) : Response * gmap string Session :=
  if String.eqb url EmptyString then (BadRequest "URL is required", activeSessions)
  else if negb (url_is_valid w url) then (BadRequest "Invalid URL format", activeSessions)
  else
    let sessionId := show_Z now in
    (Started sessionId, <[sessionId := sessionData]> activeSessions).

(** The [.then] handler. *)
Definition on_fulfilled (sessionId : string) (r : ExtractResult)
    (activeSessions : gmap string Session) : gmap string Session :=
  match activeSessions !! sessionId with
  | Some session =>
      let finalEvent :=
        {| pe_stage := Complete;
           pe_message :=
             match r with
             | ExtractOk ok => "Extraction complete! Brand ID: " ++ brand_id ok
             | ExtractFailed e => "Extraction failed: " ++ e
             end;
           progress_percent := 100;
           pe_brand_id :=
             match r with
             | ExtractOk ok => Some (brand_id ok)
             | ExtractFailed _ => None
             end |} in
      <[sessionId :=
          {| status := match r with
                       | ExtractOk _ => Completed
                       | ExtractFailed _ => SessionFailed
                       end;
             progress := 100;
             stage := stage session;
             message := message session;
             events := (events session ++ [finalEvent])%list;
             result := Some r;
             error := error session |}]> activeSessions
  | None => activeSessions
  end.

(** The [.catch] handler. *)
Definition on_rejected (sessionId : string) (msg : string)
    (activeSessions : gmap string Session) : gmap string Session :=
  match activeSessions !! sessionId with
  | Some session =>
      <[sessionId :=
          {| status := SessionFailed;
             progress := progress session;
             stage := stage session;
             message := message session;
             events := (events session ++
                        [{| pe_stage := Error; pe_message := "Error: " ++ msg;
                            progress_percent := progress session;
                            pe_brand_id := None |}])%list;
             result := result session;
             error := Some msg |}]> activeSessions
  | None => activeSessions
  end.

(** The extraction started by the handler, run until its promise and the
    handler attached to it have settled. *)
Definition run_extraction (w : World) (sessionId url : string)
    (adjectives : list string) (activeSessions : gmap string Session)
  : gmap string Session :=
  match extractBrand w (Some (onProgress sessionId)) url adjectives activeSessions with
  | (Returned r, st) => on_fulfilled sessionId r (observer st)
  | (Thrown m, st) => on_rejected sessionId m (observer st)
  end.

(** One request served to the end. *)
Definition serve (w : World) (now : Z) (url : string) (adjectives : list string)
    (activeSessions : gmap string Session) : Response * gmap string Session :=
  match post_extract w now url activeSessions with
  | (Started sessionId, sessions) =>
      (Started sessionId, run_extraction w sessionId url adjectives sessions)
  | refused => refused
  end.

End Server.

(** ** The server's handlers, one turn of the event loop at a time *)

Module EventLoop.

(** A turn that touches the registry: the synchronous part of the POST
    handler, one call of the [onProgress] closure of the extraction started
    for [sessionId], the [.then] or the [.catch] handler of its promise, or
    the timer set by the [.then] handler, which deletes the session five
    minutes later. *)
Inductive Turn : Type :=
| Post (w : World) (now : Z) (url : string)
| Progress (sessionId : string) (stage : Stage) (message : string)
| Fulfilled (sessionId : string) (result : ExtractResult)
| Rejected (sessionId : string) (message : string)
| CleanUp (sessionId : string).

Definition turn (t : Turn) (activeSessions : gmap string Server.Session)
  : gmap string Server.Session :=
  match t with
  | Post w now url => snd (Server.post_extract w now url activeSessions)
  | Progress sessionId stage message =>
      snd (Server.onProgress sessionId stage message activeSessions)
  | Fulfilled sessionId result => Server.on_fulfilled sessionId result activeSessions
  | Rejected sessionId message => Server.on_rejected sessionId message activeSessions
  | CleanUp sessionId => delete sessionId activeSessions
  end.

(** The registry after the turns of [schedule], in order. *)
Definition run (schedule : list Turn) (activeSessions : gmap string Server.Session)
  : gmap string Server.Session :=
  fold_left (fun sessions t => turn t sessions) schedule activeSessions.

(** The session id a turn works on; a POST that is refused works on none. *)
Definition session_id (t : Turn) : option string :=
  match t with
  | Post w now url =>
      match fst (Server.post_extract w now url ∅) with
      | Server.Started sessionId => Some sessionId
      | Server.BadRequest _ => None
      end
  | Progress sessionId _ _ | Fulfilled sessionId _ | Rejected sessionId _
  | CleanUp sessionId => Some sessionId
  end.

Definition concerns (sessionId : string) (t : Turn) : bool :=
  match session_id t with
  | Some id => String.eqb id sessionId
  | None => false
  end.

(** A callback that only notes that the closure of the extraction started
    for [sessionId] was called, and with what. *)
Definition noting (sessionId : string) : @ProgressSink (list Turn) :=
  fun stage message calls =>
    (Returned tt, (calls ++ [Progress sessionId stage message])%list).

(** The turns of one extraction: the calls of its callback, in the order
    [extractBrand] makes them, then the handler of its promise. *)
Definition extraction (w : World) (sessionId url : string) (adjectives : list string)
  : list Turn :=
  match extractBrand w (Some (noting sessionId)) url adjectives [] with
  | (Returned result, st) => (observer st ++ [Fulfilled sessionId result])%list
  | (Thrown message, st) => (observer st ++ [Rejected sessionId message])%list
  end.

(** The turns of one request, up to the handler of the promise. *)
Definition request (w : World) (now : Z) (url : string) (adjectives : list string)
  : list Turn :=
  Post w now url ::
  match fst (Server.post_extract w now url ∅) with
  | Server.Started sessionId => extraction w sessionId url adjectives
  | Server.BadRequest _ => []
  end.

End EventLoop.

(** ** Concrete worlds *)

Module Demo.

(** A fragment of a brand-spec schema: every item of [components] must
    have a [name], and a [description] must not be empty. *)
Definition check_component (i : nat) (c : json) : list ValidationError :=
  ((match get_prop c "name" with
    | Some _ => []
    | None => [{| instancePath := "/components/" ++ show_nat i;
                  keyword := "required";
                  v_message := "must have required property 'name'" |}]
    end) ++
   (match get_prop c "description" with
    | Some (JStr EmptyString) =>
        [{| instancePath := "/components/" ++ show_nat i ++ "/description";
            keyword := "minLength";
            v_message := "must NOT have fewer than 1 characters" |}]
    | _ => []
    end))%list.

Definition check_components (spec : json) : list ValidationError :=
  match get_prop spec "components" with
  | Some (JArr comps) => concat (imap check_component comps)
  | _ => []
  end.

Definition check (spec : json) : ValidationResult :=
  let errs := check_components spec in
  {| valid := match errs with [] => true | _ => false end; errors := errs |}.

Definition validate (spec : json) : Outcome ValidationResult := Returned (check spec).

Definition accept {A} (_ : A) : Outcome ValidationResult :=
  Returned {| valid := true; errors := [] |}.

(** Tokens with one well-described component. *)
Definition tokens_ok : json :=
  JObj [("components",
         JArr [JObj [("name", JStr "Button"); ("category", JStr "button");
                     ("description", JStr "Primary call to action");
                     ("example_html", JStr "<button>Buy</button>")]])].

(** Tokens whose only component has an [example_html] but neither a name
    nor a description. *)
Definition tokens_unnamed : json :=
  JObj [("components",
         JArr [JObj [("category", JStr "button");
                     ("example_html", JStr "<button>Buy</button>")]])].

Definition refined_doc : json :=
  JObj [("version", JStr "1.0.0");
        ("components",
         JArr [JObj [("name", JStr "Button"); ("category", JStr "button");
                     ("description", JStr "Primary call to action");
                     ("usage_rules", JStr "One per view")]])].

Definition token (value usage : string) : json :=
  JObj [("value", JStr value); ("usage", JStr usage)].

(** What [synthesizeDesignTokens] returns for tokens without [colors],
    [typography], [spacing] and [effects]: the defaults of synthesize.js. *)
Definition default_design_tokens : json :=
  JObj [("colors",
         JObj [("primary", token "#000000" "Primary brand color");
               ("secondary", token "#666666" "Secondary brand color");
               ("neutrals",
                JObj [("white", token "#ffffff" "White background");
                      ("black", token "#000000" "Black text");
                      ("gray", JObj [])])]);
        ("typography",
         JObj [("font_families",
                JObj [("primary",
                       JObj [("name", JStr "Arial"); ("fallback", JStr "sans-serif");
                             ("usage", JStr "All text")])]);
               ("scale", JObj []);
               ("weights", JArr [JNum 400%float; JNum 600%float; JNum 700%float]);
               ("line_height_ratio", JNum 1.5%float)]);
        ("spacing",
         JObj [("base_unit", JNum 8%float);
               ("scale", JArr (map (fun z => JNum (of_Z z)) [4; 8; 12; 16; 24; 32; 48; 64; 96]));
               ("density", JStr "comfortable")]);
        ("effects", JObj [])].

Definition dims : list Dimension :=
  [{| dim_name := "brand_fidelity"; dim_display_name := "Brand Fidelity";
      dim_score := Some 4%float; dim_weight := Some 0.4%float;
      dim_justification := "Colors match the source" |}].

Definition recs : list Recommendation :=
  [{| rec_priority := "high"; rec_dimension := "completeness";
      rec_issue := "Secondary color missing";
      rec_suggestion := "Extract the secondary color" |}].

(** A world in which every collaborator answers; the capture status, the
    analysed tokens and the evaluator's score are left open. *)
Definition world (capture_status : Status) (tokens : json) (score : float) : World :=
  {| number_toString := fun _ => "1e+21";
     url_is_valid := fun _ => true;
     extractBrandName := fun url =>
       if String.eqb url "https://linear.app" then "linear" else "stripe";
     id_suffix := "2025_12_29_1a2b3c4d";
     now_iso := "2025-12-29T10:00:00.000Z";
     elapsed_ms := fun _ => 1500;
     kebab_case := fun s => s;
     io := fun _ => Returned 2048;
     validateBrandSpec := validate;
     validateEvaluation := accept;
     validateExecutionTrace := accept;
     validateMetadata := accept;
     captureWebsite := fun _ =>
       Returned {| cap_status := capture_status;
                   cap_duration_ms := 4000;
                   cap_artifacts :=
                     match capture_status with
                     | Failed => []
                     | _ => [{| art_name := "hero.png";
                                art_path := "captures/screenshots/hero.png";
                                art_size_bytes := 350000 |}]
                     end;
                   cap_errors :=
                     match capture_status with
                     | Failed => [{| err_code := "CAPTURE_ERROR";
                                     err_message := "net::ERR_NAME_NOT_RESOLVED";
                                     err_recoverable := false |}]
                     | _ => []
                     end;
                   cap_data := match capture_status with
                               | Failed => None
                               | _ => Some (JObj [])
                               end |};
     analyzeWithClaude := fun _ _ =>
       Returned {| an_status := Success;
                   an_duration_ms := 9000;
                   an_artifacts := [];
                   an_errors := [];
                   an_metrics := Some {| tokens_input := 12345; tokens_output := 678;
                                         api_calls := 1; improvements_made := None |};
                   an_data := Some tokens |};
     synthesizeDesignTokens := fun _ =>
       (["No color data available in brand tokens";
         "No typography data available in brand tokens"], Returned default_design_tokens);
     synthesizePatterns := fun _ => Returned (JArr []);
     synthesizeAccessibility := fun _ => Returned (JObj []);
     synthesizeNotes := fun _ => Returned (JObj []);
     evaluation_call := fun _ =>
       Returned {| usage_input_tokens := 2345; usage_output_tokens := 321;
                   reply_text := "{...}" |};
     extractEvaluationJSON := fun _ =>
       Returned {| reply_overall_score := Some score;
                   reply_quality_band := Some "excellent";
                   reply_dimensions := Some dims;
                   reply_recommendations := Some recs |};
     refinement_call := fun _ =>
       Returned {| usage_input_tokens := 4000; usage_output_tokens := 3500;
                   reply_text := "{...}" |};
     extractRefinedJSON := fun _ => Returned refined_doc;
     improvement_count := fun _ _ => 1;
     total_elapsed_ms := 20000 |}.

Definition url : string := "https://stripe.com".


(** The trace entry of a capture that could not resolve the host. *)
Definition failed_capture : StageEntry :=
  {| st_name := Capture; st_status := Failed; st_duration_ms := 4000;
     st_artifacts := [];
     st_errors := [{| err_code := "CAPTURE_ERROR";
                      err_message := "net::ERR_NAME_NOT_RESOLVED";
                      err_recoverable := false |}];
     st_metrics := None |}.

(** What [buildBrandSpec] makes of [tokens_unnamed] in [world]. *)
Definition mapped_unnamed : json :=
  JObj [("version", JStr "1.0.0");
        ("metadata",
         JObj [("brand_id", JStr "stripe_2025_12_29_1a2b3c4d");
               ("brand_name", JStr "stripe");
               ("source_url", JStr "https://stripe.com");
               ("extracted_at", JStr "2025-12-29T10:00:00.000Z");
               ("extraction_duration_ms", JNum 13000%float);
               ("adjectives", JArr []);
               ("pipeline_version", JStr "1.0.0")]);
        ("brand_essence",
         JObj [("description", JStr "Brand identity extracted from website");
               ("adjectives", JArr []);
               ("tone", JStr "professional")]);
        ("design_tokens", default_design_tokens);
        ("components",
         JArr [JObj [("category", JStr "button");
                     ("description", JStr EmptyString);
                     ("visual_properties", JObj []);
                     ("states", JObj []);
                     ("usage_rules", JStr EmptyString);
                     ("example_html", JStr "<button>Buy</button>")]]);
        ("patterns", JArr []);
        ("accessibility", JObj []);
        ("notes", JObj [])].

(** A progress callback that throws on every call. *)
Definition throwing_sink : @ProgressSink unit :=
  fun _ _ s => (Thrown "sink failure", s).

End Demo.

(** ** Vocabulary of the properties *)

(** The position of a stage in the fixed order of the pipeline. *)
Definition rank (s : Stage) : Z :=
  match s with
  | Setup => 0 | Capture => 1 | Analyze => 2 | Synthesize => 3 | Evaluate => 4
  | Refine => 5 | Finalize => 6 | Error => 7 | Complete => 8
  end.

Fixpoint ascending (l : list Stage) : Prop :=
  match l with
  | a :: (b :: _) as rest => rank a <= rank b /\ ascending rest
  | _ => True
  end.

(** The message of the [Error] thrown by [extractBrand] when a stage
    reports [failed]. *)
Definition stage_label (s : Stage) : string :=
  match s with
  | Capture => "Capture"
  | Analyze => "Analysis"
  | Synthesize => "Synthesis"
  | Evaluate => "Evaluation"
  | _ => EmptyString
  end.

Definition failure_message (e : StageEntry) : string :=
  stage_label (st_name e) ++ " stage failed: " ++ first_error_message (st_errors e).

Definition entry_tokens (e : StageEntry) : Z :=
  fst (metrics_tokens (st_metrics e)) + snd (metrics_tokens (st_metrics e)).

Definition sum_Z (l : list Z) : Z := fold_right Z.add 0 l.

(** Successive elements of a list of percentages never decrease. *)
Definition nondecreasing (l : list Z) : Prop :=
  forall (i : nat) (a b : Z), l !! i = Some a -> l !! S i = Some b -> a <= b.

(** A progress callback that returns normally on every call. *)
Definition never_throws {S : Type} (onProgress : option (@ProgressSink S)) : Prop :=
  forall callback, onProgress = Some callback ->
    forall stage message s, fst (callback stage message s) = Returned tt.


(** The session after the sink has been called with each of [l] in turn. *)
Definition observe (l : list (Stage * string)) (s : Server.Session) : Server.Session :=
  fold_left (fun acc '(st, msg) => Server.record_progress st msg acc) l s.

(** The largest percentage a session can show when [s] is about to be
    emitted. *)
Definition stage_cap (s : Stage) : Z :=
  match s with
  | Setup => 5 | Capture => 25 | Analyze => 50 | Synthesize => 75
  | Evaluate => 90 | Refine => 90 | _ => 100
  end.

Definition entry_input (e : StageEntry) : Z := fst (metrics_tokens (st_metrics e)).
Definition entry_output (e : StageEntry) : Z := snd (metrics_tokens (st_metrics e)).

(** The trace accounting as the specification words it: [estimated_cost] is
    the two rates applied to the summed token counts, with no rounding. *)
Definition C8_as_stated (w : World) (url : string) (adjectives : list string) : Prop :=
  forall r,
    fst (extractBrand w (S := unit) None url adjectives tt) = Returned (ExtractOk r) ->
    exists sm,
      summary (execution_trace r) = Some sm /\
      total_tokens sm = sum_Z (map entry_tokens (stages (execution_trace r))) /\
      estimated_cost_usd sm =
        estimatedCost (sum_Z (map entry_input (stages (execution_trace r))))
                      (sum_Z (map entry_output (stages (execution_trace r)))).

(** The entry point as the specification words it: a result object for
    every progress sink. *)
Definition C10_as_stated (w : World) (url : string) (adjectives : list string) : Prop :=
  forall (S : Type) (onProgress : option (@ProgressSink S)) (s0 : S),
  exists result, fst (extractBrand w onProgress url adjectives s0) = Returned result.

(** The failure path as the specification words it: the last event of the
    log is the one with stage 'error'. *)
Definition C2_as_stated (w : World) (now : Z) (url : string) (adjectives : list string)
  : Prop :=
  forall sid sessions entry session,
    Server.post_extract w now url ∅ = (Server.Started sid, sessions) ->
    In entry (trace_stages
                (snd (extractBrand w (Some (Server.onProgress sid)) url adjectives sessions))) ->
    st_status entry = Failed -> st_name entry <> Refine ->
    Server.run_extraction w sid url adjectives sessions !! sid = Some session ->
    Server.status session = Server.SessionFailed /\
    exists e, last (Server.events session) = Some e /\ Server.pe_stage e = Error.

(** [brandSpec.components[i]] when [components] is an array. *)
Definition component_at (brandSpec : json) (i : N) : jsval :=
  match get_prop brandSpec "components" with
  | Some (JArr comps) => comps !! N.to_nat i
  | _ => None
  end.




(** The [.then] handler applied to one session. *)
Definition finish (r : ExtractResult) (session : Server.Session) : Server.Session :=
  {| Server.status := match r with
                      | ExtractOk _ => Server.Completed
                      | ExtractFailed _ => Server.SessionFailed
                      end;
     Server.progress := 100;
     Server.stage := Server.stage session;
     Server.message := Server.message session;
     Server.events :=
       (Server.events session ++
        [{| Server.pe_stage := Complete;
            Server.pe_message :=
              match r with
              | ExtractOk ok => "Extraction complete! Brand ID: " ++ brand_id ok
              | ExtractFailed e => "Extraction failed: " ++ e
              end;
            Server.progress_percent := 100;
            Server.pe_brand_id := match r with
                                  | ExtractOk ok => Some (brand_id ok)
                                  | ExtractFailed _ => None
                                  end |}])%list;
     Server.result := Some r;
     Server.error := Server.error session |}.

(** The session of a request once its extraction has settled. *)
Definition settle (w : World) (url : string) (adjectives : list string)
    (s : Server.Session) : Server.Session :=
  match extractBrand_body w url adjectives [] with
  | (j, Returned r) => finish (ExtractOk r) (observe (emitted j) s)
  | (j, Thrown m) =>
      finish (ExtractFailed m)
        (Server.record_progress Error ("Extraction failed: " ++ m) (observe (emitted j) s))
  end.

(** Every logged percentage is at most the session's current one. *)
Definition log_ok (s : Server.Session) : Prop :=
  nondecreasing (map Server.progress_percent (Server.events s)) /\
  Forall (fun e => Server.progress_percent e <= Server.progress s) (Server.events s).

(** What a run that resolves with [success: true] has gone through. *)
Definition successful_run (w : World) (url : string) (adjectives : list string)
    (r : ExtractSuccess) : Prop :=
  exists c a am x,
    let syn := synthesizeBrandSpec w (an_data a) (synthesis_metadata w url adjectives)
                 (cap_duration_ms c + an_duration_ms a) in
    let evr := evaluateBrandSpec w (syn_data syn) in
    let res := refineBrandSpec w (syn_data syn) (evaluation r) in
    let rtok := metrics_tokens (option_map ref_metrics (refinement r)) in
    captureWebsite w url = Returned c /\
    analyzeWithClaude w (cap_data c) adjectives = Returned a /\
    an_metrics a = Some am /\
    evr_data evr = Some (evaluation r) /\
    overall_score (evaluation r) = Some x /\
    (if num_lt x 4.5%float
     then refinement r = Some res /\
          brand_spec r = match ref_status res with
                         | Success => ref_data res
                         | _ => syn_data syn
                         end /\
          stages (execution_trace r) =
            [capture_entry c; analyze_entry a; synthesize_entry syn; evaluate_entry evr;
             refine_entry res]
     else refinement r = None /\
          brand_spec r = syn_data syn /\
          stages (execution_trace r) =
            [capture_entry c; analyze_entry a; synthesize_entry syn; evaluate_entry evr;
             skipped_refine_entry]) /\
    summary (execution_trace r) =
      Some {| total_duration_ms := total_elapsed_ms w;
              summary_status := Success;
              total_tokens :=
                tokens_input am + tokens_output am
                + tokens_input (evr_metrics evr) + tokens_output (evr_metrics evr)
                + fst rtok + snd rtok;
              estimated_cost_usd :=
                fixed4 (estimatedCost
                          (tokens_input am + tokens_input (evr_metrics evr) + fst rtok)
                          (tokens_output am + tokens_output (evr_metrics evr) + snd rtok));
              summary_warnings := syn_warnings syn |}.

(** ** Vocabulary: sessions and schedules *)

(** The [.catch] handler applied to one session. *)
Definition reject (message : string) (session : Server.Session) : Server.Session :=
  {| Server.status := Server.SessionFailed;
     Server.progress := Server.progress session;
     Server.stage := Server.stage session;
     Server.message := Server.message session;
     Server.events :=
       (Server.events session ++
        [{| Server.pe_stage := Error; Server.pe_message := "Error: " ++ message;
            Server.progress_percent := Server.progress session;
            Server.pe_brand_id := None |}])%list;
     Server.result := Server.result session;
     Server.error := Some message |}.

(** What a turn does to the session under the id it works on. *)
Definition on_session (t : EventLoop.Turn) (session : option Server.Session)
  : option Server.Session :=
  match t with
  | EventLoop.Post _ _ _ => Some Server.sessionData
  | EventLoop.Progress _ stage message =>
      option_map (Server.record_progress stage message) session
  | EventLoop.Fulfilled _ result => option_map (finish result) session
  | EventLoop.Rejected _ message => option_map (reject message) session
  | EventLoop.CleanUp _ => None
  end.

(** The turns of [schedule] that work on [sessionId] are those of the
    request made at [now], from its POST to the handler of its promise: the
    request was accepted and given that id, no other request of the schedule
    was given it, and the timer that deletes the session has not fired. *)
Definition sole_request (schedule : list EventLoop.Turn) (sessionId : string)
    (w : World) (now : Z) (url : string) (adjectives : list string) : Prop :=
  fst (Server.post_extract w now url ∅) = Server.Started sessionId /\
  List.filter (EventLoop.concerns sessionId) schedule
  = EventLoop.request w now url adjectives.

(** The registry as it is after each batch of turns, one after the other. *)
Fixpoint snapshots (batches : list (list EventLoop.Turn))
    (activeSessions : gmap string Server.Session) : list (gmap string Server.Session) :=
  match batches with
  | [] => []
  | batch :: rest =>
      let next := EventLoop.run batch activeSessions in
      next :: snapshots rest next
  end.

(** Two requests whose extractions take turns. *)
Module Concurrent.

Definition now : Z := 1767000000000.

Definition sid : string := "1767000000000".

(** The POST of [a] with the call its extraction makes of the callback
    before it first waits, then the same for [b]; after that three turns
    of [a], one of [b], what is left of [a] and what is left of [b]. *)
Definition interleaved (a b : list EventLoop.Turn) : list EventLoop.Turn :=
  (take 2 a ++ take 2 b ++ take 3 (drop 2 a) ++ take 1 (drop 2 b)
   ++ drop 5 a ++ drop 3 b)%list.

(** A request for stripe.com and one for linear.app, a millisecond later. *)
Definition apart (w1 w2 : World) : list EventLoop.Turn :=
  interleaved (EventLoop.request w1 now "https://stripe.com" [])
              (EventLoop.request w2 (now + 1) "https://linear.app" []).

(** The same two requests, handled in one millisecond. *)
Definition collision (w1 w2 : World) : list EventLoop.Turn :=
  interleaved (EventLoop.request w1 now "https://stripe.com" [])
              (EventLoop.request w2 now "https://linear.app" []).

End Concurrent.

(** An evaluator whose reply has all six dimensions at 5 and no
    [overall_score], and an evaluation schema that requires the score. *)
Module Unscored.

Definition dimensions : list Dimension :=
  map (fun '(name, display_name, weight) =>
         {| dim_name := name; dim_display_name := display_name;
            dim_score := Some 5%float; dim_weight := Some weight;
            dim_justification := "Matches the source" |})
      requiredDimensions.

Definition requires_score (evaluation : Evaluation) : Outcome ValidationResult :=
  Returned
    match overall_score evaluation with
    | Some _ => {| valid := true; errors := [] |}
    | None =>
        {| valid := false;
           errors := [{| instancePath := EmptyString; keyword := "required";
                         v_message := "must have required property 'overall_score'" |}] |}
    end.

Definition world : World :=
  let base := Demo.world Success Demo.tokens_ok 0%float in
  {| number_toString := number_toString base;
     url_is_valid := url_is_valid base;
     extractBrandName := extractBrandName base;
     id_suffix := id_suffix base;
     now_iso := now_iso base;
     elapsed_ms := elapsed_ms base;
     kebab_case := kebab_case base;
     io := io base;
     validateBrandSpec := validateBrandSpec base;
     validateEvaluation := requires_score;
     validateExecutionTrace := validateExecutionTrace base;
     validateMetadata := validateMetadata base;
     captureWebsite := captureWebsite base;
     analyzeWithClaude := analyzeWithClaude base;
     synthesizeDesignTokens := synthesizeDesignTokens base;
     synthesizePatterns := synthesizePatterns base;
     synthesizeAccessibility := synthesizeAccessibility base;
     synthesizeNotes := synthesizeNotes base;
     evaluation_call := evaluation_call base;
     extractEvaluationJSON := fun _ =>
       Returned {| reply_overall_score := None;
                   reply_quality_band := None;
                   reply_dimensions := Some dimensions;
                   reply_recommendations := Some Demo.recs |};
     refinement_call := refinement_call base;
     extractRefinedJSON := extractRefinedJSON base;
     improvement_count := improvement_count base;
     total_elapsed_ms := total_elapsed_ms base |}.

Definition brandSpec : jsval :=
  Some (JObj [("metadata", JObj [("brand_id", JStr "stripe_2025_12_29_1a2b3c4d")])]).

End Unscored.

(** ** The logger: utils/logger.js *)

Module Logger.

Inductive Level : Type := info | warn | error | debug | success.

(** An element of [this.logs]; [data] is absent unless a truthy value was
    passed. *)
Record LogEntry : Type := {
  timestamp : string;
  level : Level;
  context : string;
  message : string;
  data : jsval
}.

(** An instance of the class. *)
Record Logger : Type := {
  this_context : string;
  logs : list LogEntry
}.

Definition new (context : string) : Logger :=
  {| this_context := context; logs := [] |}.

(** [now] is [new Date().toISOString()] at the time of the call. *)
Definition _formatMessage (this : Logger) (now : string) (lvl : Level) (msg : string)
  : LogEntry :=
  {| timestamp := now; level := lvl; context := this_context this; message := msg;
     data := None |}.

(** [_log]: the entry pushed onto [this.logs]; the console line is not
    kept. *)
Definition _log (this : Logger) (now : string) (lvl : Level) (msg : string)
    (payload : jsval) : Logger :=
  let logEntry := _formatMessage this now lvl msg in
  let logEntry :=
    if truthy payload
    then {| timestamp := timestamp logEntry; level := level logEntry;
            context := context logEntry; message := message logEntry;
            data := payload |}
    else logEntry in
  {| this_context := this_context this; logs := (logs this ++ [logEntry])%list |}.

Definition getLogs (this : Logger) : list LogEntry := logs this.

(** An element of a stage's [logs] in the execution trace. *)
Record StageLog : Type := {
  sl_timestamp : string;
  sl_level : Level;
  sl_message : string
}.

Definition getLogsForStage (this : Logger) : list StageLog :=
  map (fun log => {| sl_timestamp := timestamp log;
                     sl_level := match level log with
                                 | success => info
                                 | other => other
                                 end;
                     sl_message := message log |})
      (logs this).

(** One call of [info], [warn], [error], [debug] or [success]: the clock
    reading, the method, the message and the optional data. *)
Record Call : Type := {
  call_now : string;
  call_level : Level;
  call_message : string;
  call_data : jsval
}.

Definition call (this : Logger) (c : Call) : Logger :=
  _log this (call_now c) (call_level c) (call_message c) (call_data c).

End Logger.

(** ** The progress stream: GET /api/brands/:id/status in server.js *)

Module StatusStream.

(** One open response: the frames written so far, the cursor [eventIndex],
    whether the 500 ms poll timer is set, whether the 2 s timer that ends
    the response is set, and whether the response has ended. *)
Record Connection : Type := {
  written : list Server.ProgressEvent;
  eventIndex : nat;
  polling : bool;
  closing : bool;
  ended : bool
}.

Definition session_not_found : Server.ProgressEvent :=
  {| Server.pe_stage := Error; Server.pe_message := "Session not found";
     Server.progress_percent := 0; Server.pe_brand_id := None |}.

(** The request handler up to [setInterval]. *)
Definition open (id : string) (activeSessions : gmap string Server.Session) : Connection :=
  match activeSessions !! id with
  | None =>
      {| written := [session_not_found]; eventIndex := 0; polling := false;
         closing := false; ended := true |}
  | Some session =>
      {| written := Server.events session;
         eventIndex := length (Server.events session);
         polling := true; closing := false; ended := false |}
  end.

Definition finished (s : Server.Session) : bool :=
  match Server.status s with
  | Server.Completed | Server.SessionFailed => true
  | Server.Processing => false
  end.

(** One firing of the poll timer. *)
Definition poll (id : string) (activeSessions : gmap string Server.Session)
    (c : Connection) : Connection :=
  if polling c then
    match activeSessions !! id with
    | None =>
        {| written := written c; eventIndex := eventIndex c; polling := false;
           closing := closing c; ended := true |}
    | Some currentSession =>
        let fresh := drop (eventIndex c) (Server.events currentSession) in
        {| written := (written c ++ fresh)%list;
           eventIndex := (eventIndex c + length fresh)%nat;
           polling := negb (finished currentSession);
           closing := closing c || finished currentSession;
           ended := ended c |}
    end
  else c.

(** The 2 s timer set by the poll that saw the session finished. *)
Definition close_timer (c : Connection) : Connection :=
  if closing c
  then {| written := written c; eventIndex := eventIndex c; polling := polling c;
          closing := false; ended := true |}
  else c.

(** [req.on('close')]: the client went away. *)
Definition on_close (c : Connection) : Connection :=
  {| written := written c; eventIndex := eventIndex c; polling := false;
     closing := closing c; ended := ended c |}.

(** The registry as each firing of the poll timer finds it. *)
Definition polls (id : string) (snapshots : list (gmap string Server.Session))
    (c : Connection) : Connection :=
  fold_left (fun c activeSessions => poll id activeSessions c) snapshots c.

(** The session under [id] only gains events from one firing of the timer
    to the next, and no firing but the last finds it finished. *)
Fixpoint growing (id : string) (log : list Server.ProgressEvent)
    (snapshots : list (gmap string Server.Session)) : Prop :=
  match snapshots with
  | [] => True
  | activeSessions :: rest =>
      exists s, activeSessions !! id = Some s /\
                log `prefix_of` Server.events s /\
                (rest <> [] -> finished s = false) /\
                growing id (Server.events s) rest
  end.

(** The log of the session under [id] at the last firing, [log] if there
    was none. *)
Definition last_log (id : string) (log : list Server.ProgressEvent)
    (snapshots : list (gmap string Server.Session)) : list Server.ProgressEvent :=
  match last snapshots with
  | Some activeSessions =>
      match activeSessions !! id with
      | Some s => Server.events s
      | None => log
      end
  | None => log
  end.

End StatusStream.

(** ** Strings as the runtime compares them *)

(** [s.endsWith(suffix)]. *)
Definition ends_with (suffix s : string) : bool :=
  (String.length suffix <=? String.length s)%nat &&
  String.eqb (substring (String.length s - String.length suffix)
                (String.length suffix) s) suffix.

(** The order of [Array.prototype.sort] without a comparator, on strings:
    lexicographic by character code, a proper prefix first. *)
Definition str_le (a b : string) : Prop := String.leb a b = true.

#[global] Instance str_le_dec : RelDecision str_le.
Proof. intros a b. unfold str_le. apply _. Defined.

(** ** Stage 2: analyze.js *)

Module Analyze.

Record Screenshot : Type := {
  name : string;
  mediaType : string;
  data : string
}.

(** The [data] object of a successful capture. *)
Record CaptureData : Type := {
  dom : json;
  styles : json;
  screenshots : list string
}.

(** The two places where the prompt depends on its arguments: the sentence
    about the adjectives and the number of screenshots announced. *)
Record AnalysisPrompt : Type := {
  adjectivesText : string;
  announced : nat
}.

(** What [analyzeWithClaude] reaches outside: the screenshots directory,
    the model API, the JSON extraction from its reply, and the file the
    tokens are saved to.  [adjectives] is whatever the body of the request
    carried under that name, which nothing checks on the way here; when the
    body carried none, the defaults of the handler and of [extractBrand]
    have made it the empty array. *)
Record Env : Type := {
  readdir : Outcome (list string);
  readFile : string -> Outcome string;
  messages_create : list Screenshot -> AnalysisPrompt -> Outcome ApiReply;
  extractJSONFromResponse : string -> Outcome json;
  saveJSON : json -> Outcome unit;
  getFileSize : Outcome Z;
  elapsed : Z;
  (** the runtime's conversions between numbers and strings *)
  Number_toString : float -> string;
  String_toNumber : string -> float
}.

Section Stage.

Variable env : Env.

(** [loadScreenshots]: any failure, of the listing or of a read, leaves
    nothing. *)
Definition loadScreenshots : list Screenshot :=
  match readdir env with
  | Thrown _ => []
  | Returned files =>
      let pngFiles :=
        merge_sort str_le
          (filter (fun f => ends_with ".png" f && negb (String.eqb f "full_page.png")) files) in
      match
        map_outcome
          (fun file =>
             obind (readFile env file) (fun base64 =>
             Returned {| name := file; mediaType := "image/png"; data := base64 |}))
          (take 5 pngFiles)
      with
      | Returned screenshots => screenshots
      | Thrown _ => []
      end
  end.

(** The text an element contributes to [Array.prototype.join]: nothing
    for null, the string itself, the numeral of a number, the elements of a
    nested array joined by commas, "[object Object]" for an object.  An
    object with a property named [toString] of its own has nothing callable
    to convert it, and the conversion throws. *)
Fixpoint element_text (v : json) : Outcome string :=
  match v with
  | JNull => Returned EmptyString
  | JBool b => Returned (if b then "true" else "false")
  | JNum x => Returned (Number_toString env x)
  | JStr s => Returned s
  | JArr items =>
      obind (map_outcome element_text items) (fun texts =>
      Returned (String.concat "," texts))
  | JObj fields =>
      match assoc_get "toString" fields with
      | Some _ => Thrown "Cannot convert object to primitive value"
      | None => Returned "[object Object]"
      end
  end.

(** [items.join(separator)]. *)
Definition join (separator : string) (items : list json) : Outcome string :=
  obind (map_outcome element_text items) (fun texts =>
  Returned (String.concat separator texts)).

(** [v > 0] for the value of a property: undefined and null are not, a
    string is converted to a number, an array through its text, and an
    object is NaN when it can be converted at all. *)
Definition greater_than_zero (v : jsval) : Outcome bool :=
  match v with
  | None | Some JNull => Returned false
  | Some (JBool b) => Returned b
  | Some (JNum x) => Returned (PrimFloat.ltb 0%float x)
  | Some (JStr s) => Returned (PrimFloat.ltb 0%float (String_toNumber env s))
  | Some (JArr items) =>
      obind (join "," items) (fun text =>
      Returned (PrimFloat.ltb 0%float (String_toNumber env text)))
  | Some (JObj fields) =>
      match assoc_get "toString" fields with
      | Some _ => Thrown "Cannot convert object to primitive value"
      | None => Returned false
      end
  end.

(** [adjectives.length > 0 ? `...${adjectives.join(', ')}` : ''] for
    whatever the request carried as [adjectives]: only an array has a
    [join] to call. *)
Definition adjectives_text (adjectives : json) : Outcome string :=
  let introduced (joined : string) :=
    String (ascii_of_nat 10) (String (ascii_of_nat 10)
      "User-provided brand adjectives: ") ++ joined in
  match adjectives with
  | JNull => Thrown "Cannot read properties of null (reading 'length')"
  | JBool _ | JNum _ => Returned EmptyString
  | JStr s =>
      if String.eqb s EmptyString then Returned EmptyString
      else Thrown "adjectives.join is not a function"
  | JArr [] => Returned EmptyString
  | JArr items => obind (join ", " items) (fun joined => Returned (introduced joined))
  | JObj fields =>
      obind (greater_than_zero (assoc_get "length" fields)) (fun positive =>
      if positive then Thrown "adjectives.join is not a function"
      else Returned EmptyString)
  end.

Definition buildAnalysisPrompt (captureData : CaptureData) (adjectives : json)
  : Outcome AnalysisPrompt :=
  obind (adjectives_text adjectives) (fun text =>
  Returned {| adjectivesText := text;
              announced := length (screenshots captureData) |}).

(** [brandTokens.cross_reference = {...}] in strict mode.  An array takes
    the property too, but it is not one of its elements: no stage reads it
    back and [JSON.stringify] leaves it out. *)
Definition add_cross_reference (brandTokens : json) (captureData : CaptureData)
  : Outcome json :=
  let cross_reference :=
    JObj [("dom_data", dom captureData); ("css_data", styles captureData)] in
  match brandTokens with
  | JNull => Thrown "Cannot set properties of null (setting 'cross_reference')"
  | JObj fields => Returned (set_prop (JObj fields) "cross_reference" cross_reference)
  | JArr items => Returned (JArr items)
  | _ => Thrown "Cannot create property 'cross_reference' on a primitive"
  end.

(** What the [try] block leaves behind: the requests sent to the model, the
    token counters and its completion. *)
Record AnalyzeRun : Type := {
  requests : list (list Screenshot * AnalysisPrompt);
  totalInputTokens : Z;
  totalOutputTokens : Z;
  completion : Outcome (json * Artifact)
}.

Definition analyze_try (captureData : CaptureData) (adjectives : json)
  : AnalyzeRun :=
  let shots := loadScreenshots in
  match shots with
  | [] =>
      {| requests := []; totalInputTokens := 0; totalOutputTokens := 0;
         completion := Thrown "No screenshots available for analysis" |}
  | _ =>
      match buildAnalysisPrompt captureData adjectives with
      | Thrown m =>
          {| requests := []; totalInputTokens := 0; totalOutputTokens := 0;
             completion := Thrown m |}
      | Returned prompt =>
          match messages_create env shots prompt with
          | Thrown m =>
              {| requests := [(shots, prompt)]; totalInputTokens := 0;
                 totalOutputTokens := 0; completion := Thrown m |}
          | Returned message =>
              {| requests := [(shots, prompt)];
                 totalInputTokens := usage_input_tokens message;
                 totalOutputTokens := usage_output_tokens message;
                 completion :=
                   obind (extractJSONFromResponse env (reply_text message)) (fun parsed =>
                   obind (add_cross_reference parsed captureData) (fun brandTokens =>
                   obind (saveJSON env brandTokens) (fun _ =>
                   obind (getFileSize env) (fun size =>
                   Returned (brandTokens,
                             {| art_name := "brand_tokens.json";
                                art_path := "analysis/brand_tokens.json";
                                art_size_bytes := size |}))))) |}
          end
      end
  end.

Definition analyzeWithClaude (captureData : CaptureData) (adjectives : json)
  : AnalyzeResult :=
  let run := analyze_try captureData adjectives in
  let metrics := {| tokens_input := totalInputTokens run;
                    tokens_output := totalOutputTokens run;
                    api_calls := 1;
                    improvements_made := None |} in
  match completion run with
  | Returned (brandTokens, artifact) =>
      {| an_status := Success;
         an_duration_ms := elapsed env;
         an_artifacts := [artifact];
         an_errors := [];
         an_metrics := Some metrics;
         an_data := Some brandTokens |}
  | Thrown m =>
      {| an_status := Failed;
         an_duration_ms := elapsed env;
         an_artifacts := [];
         an_errors := [{| err_code := "ANALYSIS_ERROR"; err_message := m;
                          err_recoverable := false |}];
         an_metrics := Some metrics;
         an_data := None |}
  end.

End Stage.

End Analyze.

(** A screenshots directory after a capture of three sections, and a model
    that answers; [unreadable] names a file that cannot be read. *)
Module AnalyzeDemo.

Definition files : list string :=
  ["section_2.png"; "hero.png"; "full_page.png"; "notes.txt"; "section_1.png"].

Definition env (unreadable : string) : Analyze.Env :=
  {| Analyze.readdir := Returned files;
     Analyze.readFile := fun f =>
       if String.eqb f unreadable then Thrown "EACCES: permission denied"
       else Returned ("iVBORw0KGgo" ++ f);
     Analyze.messages_create := fun _ _ =>
       Returned {| usage_input_tokens := 12345; usage_output_tokens := 678;
                   reply_text := "{}" |};
     Analyze.extractJSONFromResponse := fun _ => Returned Demo.tokens_ok;
     Analyze.saveJSON := fun _ => Returned tt;
     Analyze.getFileSize := Returned 4096;
     Analyze.elapsed := 9000;
     Analyze.Number_toString := fun _ => "3";
     Analyze.String_toNumber := fun _ => 3%float |}.

Definition captureData : Analyze.CaptureData :=
  {| Analyze.dom := JObj [("title", JStr "Stripe")];
     Analyze.styles := JObj [];
     Analyze.screenshots :=
       ["captures/screenshots/hero.png"; "captures/screenshots/full_page.png";
        "captures/screenshots/section_1.png"; "captures/screenshots/section_2.png"] |}.

End AnalyzeDemo.

(** ** Math.ceil and Math.min *)

(** [Math.ceil(x)], computed exactly from the mantissa and exponent of [x];
    a negative [x] above -1 gives -0. *)
Definition Math_ceil (x : float) : float :=
  match Prim2SF x with
  | S754_finite s m e =>
      if 0 <=? e then x
      else
        let q := Z.pos m / 2 ^ (- e) in
        let r := Z.pos m mod 2 ^ (- e) in
        if s then PrimFloat.opp (of_Z q)
        else of_Z (if r =? 0 then q else q + 1)
  | _ => x
  end.

(** [Math.min(a, b)]: NaN if either is, and -0 below +0. *)
Definition Math_min (a b : float) : float :=
  if PrimFloat.is_nan a || PrimFloat.is_nan b then nan
  else if PrimFloat.ltb a b then a
  else if PrimFloat.ltb b a then b
  else if PrimFloat.is_zero a && PrimFloat.get_sign a then a
  else b.

(** ** Stage 1: capture.js *)

Module Capture.

(** What the stage asks of the browser, the page and the file system, in
    the order it asks. *)
Inductive Op : Type :=
| Launch | NewContext | NewPage
| Goto (waitUntil : string)
| WaitForTimeout (ms : Z) (section : Z)
| Screenshot (file : string) (fullPage : bool)
| GetFileSize (file : string)
| ViewportSize
| ScrollHeight
| ScrollTo (section : Z)
| ExtractDOM | ExtractStyles
| SaveJSON (file : string)
| Close (attempt : nat).

(** How each request ends.  [section] tells the waits and scrolls of the
    screenshot loop apart (0 is the scroll back to the top, and the wait for
    the page to stabilize); [attempt] tells the [browser.close()] of the
    [try] block from the one of the [catch] block that may follow it. *)
Record Browser : Type := {
  perform : Op -> Outcome unit;
  getFileSize : string -> Outcome Z;
  viewportSize : option float;
  scrollHeight : Outcome float;
  extractDOM : Outcome json;
  extractStyles : Outcome json;
  elapsed : Z
}.

(** A computation that keeps the journal of the requests made. *)
Definition Run (A : Type) : Type := list Op -> list Op * Outcome A.

Definition ret {A} (a : A) : Run A := fun j => (j, Returned a).

Definition bind {A B} (c : Run A) (k : A -> Run B) : Run B :=
  fun j =>
    match c j with
    | (j', Returned a) => k a j'
    | (j', Thrown m) => (j', Thrown m)
    end.

(** [try { c; k } catch (error) { handler }], for a [k] that has its own
    handlers. *)
Definition guarded {A B} (c : Run A) (handler : string -> Run B) (k : A -> Run B)
  : Run B :=
  fun j =>
    match c j with
    | (j', Returned a) => k a j'
    | (j', Thrown m) => handler m j'
    end.

Section Stage.

Variable b : Browser.

Definition call (op : Op) : Run unit := fun j => ((j ++ [op])%list, perform b op).

Definition stat (file : string) : Run Z :=
  fun j => ((j ++ [GetFileSize file])%list, getFileSize b file).

(** [page.viewportSize().height]: a TypeError when there is no viewport. *)
Definition viewport_height : Run float :=
  fun j =>
    ((j ++ [ViewportSize])%list,
     match viewportSize b with
     | Some h => Returned h
     | None => Thrown "Cannot read properties of null (reading 'height')"
     end).

Definition page_height : Run float :=
  fun j => ((j ++ [ScrollHeight])%list, scrollHeight b).

Definition screenshot_artifact (file : string) (size : Z) : Artifact :=
  {| art_name := file;
     art_path := "captures/screenshots/" ++ file;
     art_size_bytes := size |}.

(** One screenshot and the push that follows it. *)
Definition shoot (file : string) (fullPage : bool) (screenshots : list Artifact)
  : Run (list Artifact) :=
  bind (call (Screenshot file fullPage)) (fun _ =>
  bind (stat file) (fun size =>
  ret (screenshots ++ [screenshot_artifact file size])%list)).

(** In [captureScreenshots] every exception ends the function with the
    screenshots pushed so far. *)
Definition or_so_far {A} (c : Run A) (screenshots : list Artifact)
    (k : A -> Run (list Artifact)) : Run (list Artifact) :=
  guarded c (fun _ => ret screenshots) k.

(** The [for] loop, from [i] on.  [fuel] bounds the iterations left;
    [numSections] is at most 5, so 5 is never used up. *)
Fixpoint sections (fuel : nat) (i : Z) (numSections : float)
    (screenshots : list Artifact) (k : list Artifact -> Run (list Artifact))
  : Run (list Artifact) :=
  match fuel with
  | O => k screenshots
  | S fuel' =>
      if PrimFloat.ltb (of_Z i) numSections then
        or_so_far (call (ScrollTo i)) screenshots (fun _ =>
        or_so_far (call (WaitForTimeout 500 i)) screenshots (fun _ =>
        or_so_far (shoot ("section_" ++ show_Z i ++ ".png") false screenshots) screenshots
          (fun screenshots' =>
        sections fuel' (i + 1) numSections screenshots' k)))
      else k screenshots
  end.

Definition captureScreenshots : Run (list Artifact) :=
  or_so_far (shoot "hero.png" false []) [] (fun s1 =>
  or_so_far (shoot "full_page.png" true s1) s1 (fun s2 =>
  or_so_far viewport_height s2 (fun viewportHeight =>
  or_so_far page_height s2 (fun pageHeight =>
  let numSections :=
    Math_min 5%float (Math_ceil (PrimFloat.div pageHeight viewportHeight)) in
  sections 5 1 numSections s2 (fun s3 =>
  or_so_far (call (ScrollTo 0)) s3 (fun _ =>
  or_so_far (call (WaitForTimeout 500 0)) s3 (fun _ =>
  ret s3))))))).

Definition json_artifact (file : string) (size : Z) : Artifact :=
  {| art_name := file; art_path := "captures/" ++ file; art_size_bytes := size |}.

(** The [catch] block of [captureWebsite]; an exception of [browser.close()]
    in it rejects the promise. *)
Definition on_error (launched : bool) (attempt : nat) (artifacts : list Artifact)
    (message : string) : Run CaptureResult :=
  bind (if launched then call (Close attempt) else ret tt) (fun _ =>
  ret {| cap_status := Failed;
         cap_duration_ms := elapsed b;
         cap_artifacts := artifacts;
         cap_errors := [{| err_code := "CAPTURE_ERROR"; err_message := message;
                           err_recoverable := false |}];
         cap_data := None |}).

(** Navigation, with its retry. *)
Definition navigate : Run unit :=
  guarded (call (Goto "domcontentloaded")) (fun _ => call (Goto "load")) ret.

(** [captureWebsite] from the wait for the page to stabilize on. *)
Definition capture_page : Run CaptureResult :=
  guarded (call (WaitForTimeout 3000 0)) (on_error true 1 []) (fun _ =>
  bind captureScreenshots (fun screenshots =>
  guarded (fun j => ((j ++ [ExtractDOM])%list, extractDOM b))
          (on_error true 1 screenshots) (fun domData =>
  guarded (call (SaveJSON "dom.json")) (on_error true 1 screenshots) (fun _ =>
  guarded (stat "dom.json") (on_error true 1 screenshots) (fun domSize =>
  let artifacts1 := (screenshots ++ [json_artifact "dom.json" domSize])%list in
  guarded (fun j => ((j ++ [ExtractStyles])%list, extractStyles b))
          (on_error true 1 artifacts1) (fun stylesData =>
  guarded (call (SaveJSON "styles.json")) (on_error true 1 artifacts1) (fun _ =>
  guarded (stat "styles.json") (on_error true 1 artifacts1) (fun stylesSize =>
  let artifacts2 := (artifacts1 ++ [json_artifact "styles.json" stylesSize])%list in
  guarded (call (Close 1)) (on_error true 2 artifacts2) (fun _ =>
  ret {| cap_status := Success;
         cap_duration_ms := elapsed b;
         cap_artifacts := artifacts2;
         cap_errors := [];
         cap_data :=
           Some (JObj [("dom", domData); ("styles", stylesData);
                       ("screenshots", JArr (map (fun s => JStr (art_path s)) screenshots))])
      |}))))))))).

Definition captureWebsite : Run CaptureResult :=
  guarded (call Launch) (on_error false 1 []) (fun _ =>
  guarded (call NewContext) (on_error true 1 []) (fun _ =>
  guarded (call NewPage) (on_error true 1 []) (fun _ =>
  guarded navigate (on_error true 1 []) (fun _ =>
  capture_page)))).

End Stage.

(** The names [captureScreenshots] can give its files, in the order it
    takes them. *)
Definition screenshot_names : list string :=
  ["hero.png"; "full_page.png"; "section_1.png"; "section_2.png"; "section_3.png";
   "section_4.png"].

End Capture.

(** The artifacts are the first [n] files of [Capture.screenshot_names],
    each under "captures/screenshots/". *)
Definition first_screenshots (n : nat) (shots : list Artifact) : Prop :=
  map art_name shots = take n Capture.screenshot_names /\
  Forall (fun a => art_path a = "captures/screenshots/" ++ art_name a) shots.

(** The journal ends with a [browser.close()] that returned. *)
Definition closed_last (b : Capture.Browser) (journal : list Capture.Op) : Prop :=
  exists earlier attempt,
    journal = (earlier ++ [Capture.Close attempt])%list /\
    Capture.perform b (Capture.Close attempt) = Returned tt.

(** How a capture that launched the browser leaves it: closed by the last
    request when the promise is fulfilled; when it is rejected, it is the
    last request, a [browser.close()], that threw. *)
Definition browser_released (b : Capture.Browser)
    (r : list Capture.Op * Outcome CaptureResult) : Prop :=
  match snd r with
  | Returned _ => closed_last b (fst r)
  | Thrown m =>
      exists earlier attempt,
        fst r = (earlier ++ [Capture.Close attempt])%list /\
        Capture.perform b (Capture.Close attempt) = Thrown m
  end.

Definition is_goto (op : Capture.Op) : bool :=
  match op with
  | Capture.Goto _ => true
  | _ => false
  end.

Definition is_close (op : Capture.Op) : bool :=
  match op with
  | Capture.Close _ => true
  | _ => false
  end.

(** The journal of [r] is [journal] followed by requests that all satisfy
    [allowed]. *)
Definition extends_with {A} (allowed : Capture.Op -> bool) (journal : list Capture.Op)
    (r : list Capture.Op * Outcome A) : Prop :=
  exists ops, fst r = (journal ++ ops)%list /\ forallb allowed ops = true.

(** A browser and a page for which everything works; the page is a little
    over two viewports high.  [failing] names requests that throw. *)
Module CaptureDemo.

Definition op_eqb (x y : Capture.Op) : bool :=
  match x, y with
  | Capture.Launch, Capture.Launch
  | Capture.NewContext, Capture.NewContext
  | Capture.NewPage, Capture.NewPage
  | Capture.ViewportSize, Capture.ViewportSize
  | Capture.ScrollHeight, Capture.ScrollHeight
  | Capture.ExtractDOM, Capture.ExtractDOM
  | Capture.ExtractStyles, Capture.ExtractStyles => true
  | Capture.Goto a, Capture.Goto a' => String.eqb a a'
  | Capture.WaitForTimeout ms i, Capture.WaitForTimeout ms' i' => (ms =? ms') && (i =? i')
  | Capture.Screenshot f p, Capture.Screenshot f' p' => String.eqb f f' && Bool.eqb p p'
  | Capture.GetFileSize f, Capture.GetFileSize f' => String.eqb f f'
  | Capture.ScrollTo i, Capture.ScrollTo i' => i =? i'
  | Capture.SaveJSON f, Capture.SaveJSON f' => String.eqb f f'
  | Capture.Close n, Capture.Close n' => Nat.eqb n n'
  | _, _ => false
  end.

Definition browser (failing : list Capture.Op) : Capture.Browser :=
  {| Capture.perform := fun op =>
       if existsb (op_eqb op) failing then Thrown "Target page, context or browser has been closed"
       else Returned tt;
     Capture.getFileSize := fun _ => Returned 350000;
     Capture.viewportSize := Some 1080%float;
     Capture.scrollHeight := Returned 2400%float;
     Capture.extractDOM := Returned (JObj [("title", JStr "Stripe")]);
     Capture.extractStyles := Returned (JObj [("colors", JArr [JStr "#635bff"])]);
     Capture.elapsed := 4000 |}.

End CaptureDemo.

(** The two shapes of a capture result.  A successful one lists the
    screenshots, then dom.json, then styles.json, and its data names the
    same screenshots.  A failed one has a single error and no data; its
    artifacts are what had been pushed when the exception was thrown. *)
Definition capture_result_shape (result : CaptureResult) : Prop :=
  exists (n : nat) shots,
    first_screenshots n shots /\
    ((cap_status result = Success /\ cap_errors result = [] /\
      exists domSize stylesSize domData stylesData,
        cap_artifacts result
        = (shots ++ [Capture.json_artifact "dom.json" domSize;
                     Capture.json_artifact "styles.json" stylesSize])%list /\
        cap_data result
        = Some (JObj [("dom", domData); ("styles", stylesData);
                      ("screenshots", JArr (map (fun s => JStr (art_path s)) shots))])) \/
     (cap_status result = Failed /\ cap_data result = None /\
      (exists m, cap_errors result = [{| err_code := "CAPTURE_ERROR"; err_message := m;
                                         err_recoverable := false |}]) /\
      exists rest,
        cap_artifacts result = (shots ++ rest)%list /\
        map art_name rest `prefix_of` ["dom.json"; "styles.json"])).

(** ** Helpers of orchestrator.js *)

Module OrchestratorHelpers.

(** [s.replace(pattern, replacement)] for a string pattern: the first
    occurrence only. *)
Fixpoint replace_first (pattern replacement s : string) : string :=
  if String.prefix pattern s
  then replacement ++ substring (String.length pattern)
                        (String.length s - String.length pattern) s
  else match s with
       | EmptyString => EmptyString
       | String c rest => String c (replace_first pattern replacement rest)
       end.

(** [s.split(separator)[0]] for a one-character separator. *)
Fixpoint before_first (separator : ascii) (s : string) : string :=
  match s with
  | EmptyString => EmptyString
  | String c rest =>
      if Ascii.eqb c separator then EmptyString
      else String c (before_first separator rest)
  end.

(** The class [a-zA-Z0-9]. *)
Definition alphanumeric (c : ascii) : bool :=
  let n := N_of_ascii c in
  (((97 <=? n) && (n <=? 122)) || ((65 <=? n) && (n <=? 90))
   || ((48 <=? n) && (n <=? 57)))%N.

(** [s.replace(/[^a-zA-Z0-9]/g, '_')]. *)
Fixpoint underscore_others (s : string) : string :=
  match s with
  | EmptyString => EmptyString
  | String c rest =>
      String (if alphanumeric c then c else "_"%char) (underscore_others rest)
  end.

(** [extractBrandName]; [hostname] is [new URL(url).hostname], which throws
    for a string that is not a URL. *)
Definition extractBrandName (hostname : string -> Outcome string) (url : string) : string :=
  match hostname url with
  | Returned host =>
      let host := replace_first "www." EmptyString host in
      let name := before_first "."%char host in
      underscore_others name
  | Thrown _ => "brand"
  end.

(** *** generateTags *)

(** The strings of one character each that spreading a string yields. *)
Fixpoint characters (s : string) : list json :=
  match s with
  | EmptyString => []
  | String c rest => JStr (String c EmptyString) :: characters rest
  end.

(** [o?.k]. *)
Definition get_optional (o : jsval) (k : string) : jsval :=
  match o with
  | None | Some JNull => None
  | Some d => get_prop d k
  end.

(** [...adjectives.slice(0, 3)]: an array gives its first three elements, a
    string its first three characters; any other value has no [slice] to
    call. *)
Definition first_three (adjectives : json) : Outcome (list json) :=
  match adjectives with
  | JArr items => Returned (take 3 items)
  | JStr s => Returned (characters (substring 0 3 s))
  | _ => Thrown "brandSpec.brand_essence.adjectives.slice is not a function"
  end.

(** The [try] block of [generateTags]. *)
Definition generateTags_try (brandSpec : jsval) : Outcome (list json) :=
  obind (get_prop_strict brandSpec "brand_essence") (fun essence =>
  let tags :=
    if truthy (get_optional essence "tone")
    then match get_optional essence "tone" with Some tone => [tone] | None => [] end
    else [] in
  if truthy (get_optional essence "adjectives")
  then match get_optional essence "adjectives" with
       | Some adjectives =>
           obind (first_three adjectives) (fun some => Returned (tags ++ some)%list)
       | None => Returned tags
       end
  else Returned tags).

Definition generateTags (brandSpec : jsval) : list json :=
  match generateTags_try brandSpec with
  | Returned tags => tags
  | Thrown _ => []
  end.

(** *** extractDominantColors *)

(** The number a property key stands for when it is an array index: the
    decimal numeral, without leading zeros, of an integer below 2^32 - 1. *)
Definition array_index (k : string) : option N :=
  match k with
  | EmptyString => None
  | _ =>
      match
        (fix digits (s : string) (acc : N) : option N :=
           match s with
           | EmptyString => Some acc
           | String c rest =>
               match digit_of c with
               | Some d => digits rest (10 * acc + d)%N
               | None => None
               end
           end) k 0%N
      with
      | Some n =>
          if (n <? 4294967295)%N && String.eqb (show_Z (Z.of_N n)) k then Some n else None
      | None => None
      end
  end.

(** Insertion into a list of indexed values kept in ascending order. *)
Fixpoint insert_indexed (n : N) (v : json) (l : list (N * json)) : list (N * json) :=
  match l with
  | [] => [(n, v)]
  | (m, u) :: rest =>
      if (n <? m)%N then (n, v) :: l else (m, u) :: insert_indexed n v rest
  end.

(** [Object.values(o)] for a truthy [o]: the properties that are array
    indices come first, in ascending order, then the others as written; a
    string gives its characters, a number or a boolean nothing. *)
Definition Object_values (o : json) : list json :=
  match o with
  | JObj fields =>
      let indexed :=
        fold_left
          (fun acc '(k, v) =>
             match array_index k with
             | Some n => insert_indexed n v acc
             | None => acc
             end)
          fields [] in
      let named :=
        List.filter (fun '(k, _) => match array_index k with Some _ => false | None => true end)
          fields in
      (map snd indexed ++ map snd named)%list
  | JArr items => items
  | JStr s => characters s
  | _ => []
  end.

Definition default_colors : list json := [JStr "#000000"; JStr "#666666"; JStr "#ffffff"].

(** [if (tokens.k?.value) colors.push(tokens.k.value)]. *)
Definition push_value (tokens : json) (k : string) (colors : list json) : list json :=
  let value := get_optional (get_prop tokens k) "value" in
  if truthy value
  then match value with Some v => (colors ++ [v])%list | None => colors end
  else colors.

(** The [while] loop: [random n] is the colour drawn when [n] colours are in
    the list. *)
Fixpoint fill (random : nat -> string) (missing : nat) (colors : list json) : list json :=
  match missing with
  | O => colors
  | S missing' => fill random missing' (colors ++ [JStr (random (length colors))])%list
  end.

(** The [try] block of [extractDominantColors]. *)
Definition extractDominantColors_try (random : nat -> string) (brandSpec : jsval)
  : Outcome (list json) :=
  obind (get_prop_strict brandSpec "design_tokens") (fun design_tokens =>
  let tokens := get_optional design_tokens "colors" in
  if negb (truthy tokens) then Returned default_colors
  else
    match tokens with
    | None => Returned default_colors
    | Some tokens =>
        let colors := push_value tokens "primary" [] in
        let colors := push_value tokens "secondary" colors in
        let colors := push_value tokens "accent" colors in
        let gray := get_optional (get_prop tokens "neutrals") "gray" in
        obind
          (if (length colors <? 3)%nat && truthy gray
           then match gray with
                | Some gray =>
                    match Object_values gray with
                    | [] => Returned colors
                    | first :: _ =>
                        obind (get_prop_strict (Some first) "value") (fun value =>
                        if truthy value
                        then match value with
                             | Some v => Returned (colors ++ [v])%list
                             | None => Returned colors
                             end
                        else Returned colors)
                    end
                | None => Returned colors
                end
           else Returned colors)
          (fun colors =>
        Returned (take 5 (fill random (3 - length colors) colors)))
    end).

Definition extractDominantColors (random : nat -> string) (brandSpec : jsval)
  : list json :=
  match extractDominantColors_try random brandSpec with
  | Returned colors => colors
  | Thrown _ => default_colors
  end.

End OrchestratorHelpers.

(** ** The schema validator: utils/schema-validator.js *)

Module SchemaValidator.

(** The schemas the exported validators ask for. *)
Inductive SchemaName : Type := brand_spec | evaluation | execution_trace | metadata.

Definition schema_key (schemaName : SchemaName) : string :=
  match schemaName with
  | brand_spec => "brand_spec"
  | evaluation => "evaluation"
  | execution_trace => "execution_trace"
  | metadata => "metadata"
  end.

Section Validator.

(** The kind of document validated. *)
Variable D : Type.

(** The schemas directory, [JSON.parse], and Ajv: [ajv.compile(schema)]
    gives the function whose call yields [valid] and leaves
    [validate.errors], null or an array. *)
Record Env : Type := {
  readFile : SchemaName -> Outcome string;
  JSON_parse : string -> Outcome json;
  compile : json -> Outcome (D -> bool * option (list ValidationError))
}.

(** [schemaCache], by its own properties. *)
Definition Cache : Type := gmap string json.

Variable env : Env.

(** The body of [loadSchema] past the cache test. *)
Definition read_schema (schemaName : SchemaName) (schemaCache : Cache)
  : Outcome json * Cache :=
  match obind (readFile env schemaName) (JSON_parse env) with
  | Returned schema => (Returned schema, <[schema_key schemaName := schema]> schemaCache)
  | Thrown m => (Thrown m, schemaCache)
  end.

Definition loadSchema (schemaName : SchemaName) (schemaCache : Cache)
  : Outcome json * Cache :=
  if truthy (schemaCache !! schema_key schemaName)
  then match schemaCache !! schema_key schemaName with
       | Some schema => (Returned schema, schemaCache)
       | None => read_schema schemaName schemaCache
       end
  else read_schema schemaName schemaCache.

Definition validateAgainstSchema (schemaName : SchemaName) (data : D)
    (schemaCache : Cache) : Outcome ValidationResult * Cache :=
  match loadSchema schemaName schemaCache with
  | (Returned schema, schemaCache') =>
      (obind (compile env schema) (fun validate =>
       let '(is_valid, validate_errors) := validate data in
       Returned {| valid := is_valid; errors := default [] validate_errors |}),
       schemaCache')
  | (Thrown m, schemaCache') => (Thrown m, schemaCache')
  end.

End Validator.

End SchemaValidator.

Arguments SchemaValidator.readFile {D} _ _.
Arguments SchemaValidator.JSON_parse {D} _ _.
Arguments SchemaValidator.compile {D} _ _.
Arguments SchemaValidator.loadSchema {D} _ _ _.
Arguments SchemaValidator.read_schema {D} _ _ _.
Arguments SchemaValidator.validateAgainstSchema {D} _ _ _ _.

(** A schemas directory holding one small schema, a validator that wants
    an object, and the same directory after the files were removed. *)
Module SchemaDemo.

Definition schema : json := JObj [("type", JStr "object")].

Definition env (present : bool) : SchemaValidator.Env json :=
  {| SchemaValidator.readFile := fun _ =>
       if present then Returned "{ type: object }"
       else Thrown "ENOENT: no such file or directory";
     SchemaValidator.JSON_parse := fun _ => Returned schema;
     SchemaValidator.compile := fun _ =>
       Returned (fun data => match data with
                             | JObj _ => (true, None)
                             | _ => (false, Some [])
                             end) |}.

End SchemaDemo.

(** ** The client: createProgressStream in utils/api.js and the Processing page *)

Module Client.

(** The state of the Processing page, the redirect it has scheduled, and
    whether [createProgressStream] has scheduled the close of the stream. *)
Record Page : Type := {
  events : list Server.ProgressEvent;
  progress : Z;
  currentStage : Stage;
  brandId : option string;
  error : option string;
  redirect : option string;
  closing : bool
}.

Definition initial : Page :=
  {| events := []; progress := 0; currentStage := Setup; brandId := None;
     error := None; redirect := None; closing := false |}.

(** A string property that is present and not empty. *)
Definition present (s : option string) : bool :=
  match s with
  | Some v => negb (String.eqb v EmptyString)
  | None => false
  end.

(** The callback the page hands to [createProgressStream]. *)
Definition onProgress (event : Server.ProgressEvent) (page : Page) : Page :=
  {| events := (events page ++ [event])%list;
     progress := Server.progress_percent event;
     currentStage := Server.pe_stage event;
     brandId := if present (Server.pe_brand_id event) then Server.pe_brand_id event
                else brandId page;
     error := match Server.pe_stage event with
              | Error => Some (Server.pe_message event)
              | _ => error page
              end;
     redirect := match Server.pe_stage event, Server.pe_brand_id event with
                 | Complete, Some id =>
                     if present (Some id) then Some ("/brand/" ++ id) else redirect page
                 | _, _ => redirect page
                 end;
     closing := closing page |}.

(** [eventSource.onmessage] for the frame that carries [data]: a frame
    without a message is dropped; a 'complete' or 'error' frame schedules
    the close. *)
Definition onmessage (data : Server.ProgressEvent) (page : Page) : Page :=
  if String.eqb (Server.pe_message data) EmptyString then page
  else
    let page' := onProgress data page in
    match Server.pe_stage data with
    | Complete | Error =>
        {| events := events page'; progress := progress page';
           currentStage := currentStage page'; brandId := brandId page';
           error := error page'; redirect := redirect page'; closing := true |}
    | _ => page'
    end.

(** The page after the frames, in order. *)
Definition receive (frames : list Server.ProgressEvent) (page : Page) : Page :=
  fold_left (fun page data => onmessage data page) frames page.

(** The green box: [brandId && currentStage === 'complete']. *)
Definition shows_success (page : Page) : bool :=
  present (brandId page) &&
  match currentStage page with Complete => true | _ => false end.

(** The red box: [error]. *)
Definition shows_error (page : Page) : bool := present (error page).

End Client.

(** ** Vocabulary: repairs *)

(** A dimension as [fixEvaluationIssues] writes it for a required name the
    evaluation lacks. *)
Definition placeholder_dimension (d : Dimension) : Prop :=
  dim_score d = Some 3%float /\
  dim_justification d = "Dimension not evaluated" /\
  exists weight, dim_weight d = Some weight /\
                 In (dim_name d, dim_display_name d, weight) requiredDimensions.

Definition required_names : list string :=
  map (fun r => fst (fst r)) requiredDimensions.

(** The error that makes [fixEvaluationIssues] add dimensions. *)
Definition too_few_dimensions (e : ValidationError) : bool :=
  String.eqb (instancePath e) "/dimensions" && String.eqb (keyword e) "minItems".

(** The properties [fixValidationIssues] supplies on a component. *)
Definition repair_keys : list string := ["visual_properties"; "category"; "description"].

(** [c'] has every property of [c] except, at most, values for repair keys
    where [c] had none (or a falsy one). *)
Definition fills_gaps (c c' : json) : Prop :=
  forall k, truthy (get_prop c k) = true \/ ~ In k repair_keys ->
            get_prop c' k = get_prop c k.

(** A 'required' error under "/components/". *)
Definition component_required (e : ValidationError) : bool :=
  includes "/components/" (instancePath e) && String.eqb (keyword e) "required".

(** What a repair pass keeps of a document: every top-level property but
    [components], the number of components, and of each component all but
    the gaps it fills; objects stay objects. *)
Definition repair_of (brandSpec repaired : json) : Prop :=
  (forall k, k <> "components" -> get_prop repaired k = get_prop brandSpec k) /\
  forall comps, get_prop brandSpec "components" = Some (JArr comps) ->
    exists comps',
      get_prop repaired "components" = Some (JArr comps') /\
      length comps' = length comps /\
      forall (i : nat) c, comps !! i = Some c ->
        exists c', comps' !! i = Some c' /\ fills_gaps c c' /\
                   (forall fields, c = JObj fields -> exists fields', c' = JObj fields').

Arguments synthesizeBrandSpec : simpl never.
Arguments evaluateBrandSpec : simpl never.
Arguments refineBrandSpec : simpl never.
Arguments toFixed : simpl never.
Arguments show_Z : simpl never.
Arguments show_nat : simpl never.
Arguments fixed4 : simpl never.
Arguments estimatedCost : simpl never.
Arguments String.append : simpl never.
Arguments get_prop_strict : simpl never.
Arguments synthesis_metadata : simpl never.
Arguments num_lt : simpl never.
Arguments num_ge : simpl never.

(** * Properties *)

(** ** Comparisons of binary64 numbers *)

Lemma SFcompare_swap (x y : spec_float) :
  SFcompare y x = option_map CompOpp (SFcompare x y).
Proof.
  destruct x as [sx|sx| |sx mx ex], y as [sy|sy| |sy my ey]; simpl; try reflexivity;
    try (destruct sx; reflexivity); try (destruct sy; reflexivity);
    try (destruct sx, sy; reflexivity).
  destruct sx, sy; simpl; try reflexivity;
    rewrite (Z.compare_antisym ex ey);
    destruct (ex ?= ey) eqn:E; simpl; try reflexivity;
    rewrite !Pos.compare_cont_spec; simpl;
    rewrite (Pos.compare_antisym mx my);
    destruct (mx ?= my)%positive; reflexivity.
Qed.

Lemma SFcompare_None (x y : spec_float) :
  SFcompare x y = None -> x = S754_nan \/ y = S754_nan.
Proof. destruct x, y; simpl; try discriminate; auto. Qed.

Lemma num_lt_not_ge (s t : float) : num_lt s t = true -> num_ge s t = false.
Proof.
  unfold num_lt, num_ge. rewrite ltb_spec, leb_spec. unfold SFltb, SFleb.
  rewrite (SFcompare_swap (Prim2SF s) (Prim2SF t)).
  destruct (SFcompare (Prim2SF s) (Prim2SF t)) as [[]|]; simpl; congruence.
Qed.

Lemma num_ge_not_lt (s t : float) : num_ge s t = true -> num_lt s t = false.
Proof.
  intros H. destruct (num_lt s t) eqn:E; [|reflexivity].
  apply num_lt_not_ge in E. congruence.
Qed.

(** A number that compares at all is below whatever it does not reach. *)
Lemma num_ge_total (s a t : float) :
  num_ge s a = true -> num_ge t t = true -> num_ge s t = false -> num_lt s t = true.
Proof.
  unfold num_lt, num_ge. rewrite !ltb_spec, !leb_spec. unfold SFltb, SFleb.
  intros Ha Ht Hs.
  rewrite (SFcompare_swap (Prim2SF t) (Prim2SF s)).
  destruct (SFcompare (Prim2SF t) (Prim2SF s)) as [[]|] eqn:E; simpl; try congruence.
  apply SFcompare_None in E. destruct E as [E|E]; rewrite E in *; simpl in *.
  - discriminate.
  - destruct (Prim2SF a); discriminate.
Qed.

(** [<=] is transitive from a positive finite number upwards. *)
Lemma SFleb_above (ma mb : positive) (ea eb : Z) (x : spec_float) :
  SFleb (S754_finite false ma ea) (S754_finite false mb eb) = true ->
  SFleb (S754_finite false mb eb) x = true ->
  SFleb (S754_finite false ma ea) x = true.
Proof.
  destruct x as [sx|sx| |sx mx ex]; unfold SFleb; simpl; try congruence.
  destruct sx; [congruence|].
  rewrite !Pos.compare_cont_spec. simpl.
  destruct (Z.compare_spec ea eb), (Z.compare_spec eb ex), (Z.compare_spec ea ex);
    try lia; try congruence; subst;
    destruct (Pos.compare_spec ma mb), (Pos.compare_spec mb mx), (Pos.compare_spec ma mx);
    simpl; try lia; congruence.
Qed.

Lemma num_ge_above (a b s : float) ma ea mb eb :
  Prim2SF a = S754_finite false ma ea -> Prim2SF b = S754_finite false mb eb ->
  num_ge b a = true -> num_ge s b = true -> num_ge s a = true.
Proof.
  unfold num_ge. rewrite !leb_spec. intros -> ->. apply SFleb_above.
Qed.

Lemma ge_45_ge_35 s : num_ge s 4.5%float = true -> num_ge s 3.5%float = true.
Proof. apply (num_ge_above 3.5%float 4.5%float s _ _ _ _ eq_refl eq_refl eq_refl). Qed.

(** ** Walking the body of [extractBrand] path by path *)

Ltac split_match_in H :=
  match type of H with
  | context [match ?x with _ => _ end] =>
      lazymatch x with
      | context [match _ with _ => _ end] => fail
      | _ => destruct x eqn:?
      end
  end.

Lemma status_eqb_eq a b : status_eqb a b = true <-> a = b.
Proof. destruct a, b; simpl; split; congruence. Qed.

Ltac use_statuses :=
  repeat match goal with
    | H : _ \/ _ |- _ => destruct H
    | H : False |- _ => destruct H
    | H : status_eqb _ _ = true |- _ => apply status_eqb_eq in H
    | H : status_eqb ?a ?b = false |- _ =>
        assert (a <> b) by (intros Hx; apply status_eqb_eq in Hx; congruence); clear H
    end.

(** Every path through the body at once: the stages named in the calls of
    [emit] follow the pipeline order, start with [Setup] and never include
    [Error] or [Complete]; a stage other than [Refine] that reports [failed]
    ends the body with the exception built from its first error; once
    [Capture] or [Analyze] has reported [failed] nothing but these two stages
    is on the trace; and a [Refine] entry pushed after an evaluation of 4.5
    or more is the orchestrator's own skipped entry. *)
Lemma body_paths w url adjectives :
  let run := extractBrand_body w url adjectives [] in
  let l := map fst (emitted (fst run)) in
  (ascending l /\ Forall (fun s => rank s <= 6) l /\ exists rest, l = Setup :: rest) /\
  (forall e, In e (stages_of (fst run)) -> st_status e = Failed -> st_name e <> Refine ->
     snd run = Thrown (failure_message e)) /\
  (forall e, In e (stages_of (fst run)) ->
     st_name e = Capture \/ st_name e = Analyze -> st_status e = Failed ->
     Forall (fun e' => st_name e' = Capture \/ st_name e' = Analyze) (stages_of (fst run))) /\
  (forall e, In e (stages_of (fst run)) -> st_name e = Refine ->
     forall evr ev x,
       stage4_result w url adjectives = Returned evr -> evr_data evr = Some ev ->
       overall_score ev = Some x -> num_ge x 4.5%float = true ->
       e = skipped_refine_entry).
Proof.
  destruct (extractBrand_body w url adjectives []) as [j c] eqn:H.
  unfold extractBrand_body, refine_step in H. cbn in H.
  repeat (split_match_in H; cbn in H).
  all: injection H as <- <-; cbn.
  all: split; [split; [repeat split; lia|split; [repeat constructor; cbn; lia|eauto]]|].
  all: split; [intros entry Hin Hst Hne|
               split; [intros entry Hin Hname Hst|
                       intros entry Hin Hname evr ev x H4 Hdata Hx Hge]].
  all: use_statuses; subst; cbn in *; try congruence; try reflexivity.
  all: try (repeat (apply Forall_cons || apply Forall_nil); cbn; auto; fail).
  all: exfalso; apply num_ge_not_lt in Hge; unfold stage4_result, stage3_result in H4.
  all: repeat match goal with
         | Hc : captureWebsite _ _ = Returned _ |- _ =>
             rewrite Hc in H4; cbn in H4; clear Hc
         | Ha : analyzeWithClaude _ _ _ = Returned _ |- _ =>
             rewrite Ha in H4; cbn in H4; clear Ha
         end.
  all: congruence.
Qed.

Lemma body_emits_in_order w url adjectives :
  let l := map fst (emitted (fst (extractBrand_body w url adjectives []))) in
  ascending l /\ Forall (fun s => rank s <= 6) l /\ exists rest, l = Setup :: rest.
Proof. apply (body_paths w url adjectives). Qed.

Lemma body_failed_stage w url adjectives e :
  In e (stages_of (fst (extractBrand_body w url adjectives []))) ->
  st_status e = Failed -> st_name e <> Refine ->
  snd (extractBrand_body w url adjectives []) = Thrown (failure_message e).
Proof. apply (body_paths w url adjectives). Qed.

Lemma body_short_circuit w url adjectives e :
  In e (stages_of (fst (extractBrand_body w url adjectives []))) ->
  st_name e = Capture \/ st_name e = Analyze -> st_status e = Failed ->
  Forall (fun e' => st_name e' = Capture \/ st_name e' = Analyze)
    (stages_of (fst (extractBrand_body w url adjectives []))).
Proof. apply (body_paths w url adjectives). Qed.

Lemma body_refine_entry w url adjectives e evr ev x :
  In e (stages_of (fst (extractBrand_body w url adjectives []))) -> st_name e = Refine ->
  stage4_result w url adjectives = Returned evr -> evr_data evr = Some ev ->
  overall_score ev = Some x -> num_ge x 4.5%float = true ->
  e = skipped_refine_entry.
Proof. intros Hin Hname. apply (body_paths w url adjectives); assumption. Qed.

Lemma body_ok_inv w url adjectives j r :
  extractBrand_body w url adjectives [] = (j, Returned r) ->
  successful_run w url adjectives r.
Proof.
  intros H. unfold extractBrand_body, refine_step in H. cbn in H.
  repeat (split_match_in H; cbn in H; try discriminate H).
  all: injection H as <- <-; unfold successful_run; cbn.
  all: do 4 eexists; repeat split; try eassumption; try reflexivity.
  all: try match goal with
       | H : num_lt _ _ = _ |- _ => rewrite H
       end; cbn.
  all: repeat split; try reflexivity.
  all: try match goal with
       | H : ref_status _ = _ |- _ => rewrite H
       end; try reflexivity.
  all: match goal with
       | H : syn_warnings _ = _ |- _ => rewrite H
       end; reflexivity.
Qed.

(** ** Replaying the journal *)

Section Replay.
Context {S : Type}.
Variable sink : option (@ProgressSink S).
Hypothesis sink_total : never_throws sink.

Lemma perform_one_returns a st : fst (perform_one sink a st) = Returned tt.
Proof.
  destruct a as [stage msg|entry]; simpl; [|reflexivity].
  destruct sink as [callback|] eqn:E; [|reflexivity].
  specialize (sink_total callback eq_refl stage msg (observer st)).
  destruct (callback stage msg (observer st)) as [o s']. simpl in *. assumption.
Qed.

Lemma perform_returns j : forall st, fst (perform sink j st) = Returned tt.
Proof.
  induction j as [|a j IH]; intros st; simpl; [reflexivity|].
  pose proof (perform_one_returns a st) as H.
  destruct (perform_one sink a st) as [[[]|m] st']; simpl in H; [apply IH|discriminate].
Qed.

Lemma extractBrand_settles w url adjectives s0 :
  fst (extractBrand w sink url adjectives s0) =
  match snd (extractBrand_body w url adjectives []) with
  | Returned r => Returned (ExtractOk r)
  | Thrown m => Returned (ExtractFailed m)
  end.
Proof.
  unfold extractBrand.
  destruct (extractBrand_body w url adjectives []) as [j completion]. simpl.
  pose proof (perform_returns j {| observer := s0; trace_stages := [] |}) as H.
  destruct (perform sink j _) as [[[]|m] st]; simpl in H; [|discriminate].
  destruct completion as [r|m]; [reflexivity|].
  unfold on_catch.
  pose proof (perform_one_returns (Emit Error ("Extraction failed: " ++ m)) st) as H1.
  destruct (perform_one sink _ st) as [[[]|m'] st']; simpl in H1; [reflexivity|discriminate].
Qed.
End Replay.

Lemma extractBrand_ok_inv {S} w (sink : option (@ProgressSink S)) url adjectives s0 r :
  fst (extractBrand w sink url adjectives s0) = Returned (ExtractOk r) ->
  exists j, extractBrand_body w url adjectives [] = (j, Returned r).
Proof.
  unfold extractBrand.
  destruct (extractBrand_body w url adjectives []) as [j completion].
  destruct (perform sink j _) as [[[]|m] st]; unfold on_catch.
  - destruct completion as [r'|m].
    + simpl. intros [= ->]. eauto.
    + destruct (perform_one sink _ st) as [[[]|m'] st']; simpl; discriminate.
  - destruct (perform_one sink _ st) as [[[]|m'] st']; simpl; discriminate.
Qed.

(** Whatever the sink does, the trace of the run holds only entries the
    body pushed. *)
Lemma perform_trace_incl {S} (sink : option (@ProgressSink S)) j : forall st e,
  In e (trace_stages (snd (perform sink j st))) ->
  In e (trace_stages st) \/ In e (stages_of j).
Proof.
  induction j as [|a j IH]; intros st e Hin; simpl in Hin; [auto|].
  destruct (perform_one sink a st) as [[[]|m] st'] eqn:Hone.
  - destruct (IH _ _ Hin) as [H|H].
    + destruct a as [stage msg|entry]; simpl in Hone.
      * destruct sink as [callback|].
        -- destruct (callback stage msg (observer st)) as [o s']. injection Hone as _ <-.
           simpl in H. auto.
        -- injection Hone as <-. auto.
      * injection Hone as <-. simpl in H. apply in_app_or in H.
        destruct H as [H|[<-|[]]]; [auto|]. right. simpl. auto.
    + right. destruct a; simpl; auto.
  - simpl in Hin. destruct a as [stage msg|entry]; simpl in Hone.
    + destruct sink as [callback|].
      * destruct (callback stage msg (observer st)) as [o s']. injection Hone as _ <-.
        simpl in Hin. auto.
      * discriminate Hone.
    + discriminate Hone.
Qed.

Lemma on_catch_trace {S} (sink : option (@ProgressSink S)) m st :
  trace_stages (snd (on_catch sink m st)) = trace_stages st.
Proof.
  unfold on_catch, perform_one.
  destruct sink as [callback|]; [|reflexivity].
  destruct (callback Error _ (observer st)) as [[[]|m'] s']; reflexivity.
Qed.

Lemma extractBrand_trace_incl {S} w (sink : option (@ProgressSink S)) url adjectives s0 e :
  In e (trace_stages (snd (extractBrand w sink url adjectives s0))) ->
  In e (stages_of (fst (extractBrand_body w url adjectives []))).
Proof.
  unfold extractBrand.
  destruct (extractBrand_body w url adjectives []) as [j completion]. simpl.
  pose proof (perform_trace_incl sink j {| observer := s0; trace_stages := [] |} e) as Hincl.
  destruct (perform sink j _) as [[[]|m] st]; simpl in Hincl.
  - destruct completion as [r|m]; [|rewrite on_catch_trace]; simpl; intros Hin;
      destruct (Hincl Hin) as [[]|H]; exact H.
  - rewrite on_catch_trace. intros Hin. destruct (Hincl Hin) as [[]|H]; exact H.
Qed.

(** ** The server's sink *)

Lemma onProgress_never_throws sid : never_throws (Some (Server.onProgress sid)).
Proof.
  intros callback [= <-] stage msg m. unfold Server.onProgress.
  destruct (m !! sid); reflexivity.
Qed.

Lemma server_perform sid j :
  forall (sessions : gmap string Server.Session) s t,
    sessions !! sid = Some s ->
    perform (Some (Server.onProgress sid)) j {| observer := sessions; trace_stages := t |} =
    (Returned tt,
     {| observer := <[sid := observe (emitted j) s]> sessions;
        trace_stages := (t ++ stages_of j)%list |}).
Proof.
  induction j as [|a j IH]; intros sessions s t Hs; simpl.
  - rewrite insert_id by assumption. rewrite app_nil_r. reflexivity.
  - destruct a as [stage msg|entry]; simpl.
    + unfold Server.onProgress at 1. rewrite Hs.
      rewrite (IH _ (Server.record_progress stage msg s) t) by apply lookup_insert_eq.
      rewrite insert_insert_eq. reflexivity.
    + rewrite (IH sessions s (t ++ [entry])%list Hs).
      rewrite <- app_assoc. reflexivity.
Qed.

Lemma extractBrand_server w sid url adjectives (sessions : gmap string Server.Session) s :
  sessions !! sid = Some s ->
  extractBrand w (Some (Server.onProgress sid)) url adjectives sessions =
  match extractBrand_body w url adjectives [] with
  | (j, Returned r) =>
      (Returned (ExtractOk r),
       {| observer := <[sid := observe (emitted j) s]> sessions;
          trace_stages := stages_of j |})
  | (j, Thrown m) =>
      (Returned (ExtractFailed m),
       {| observer := <[sid := Server.record_progress Error ("Extraction failed: " ++ m)
                                 (observe (emitted j) s)]> sessions;
          trace_stages := stages_of j |})
  end.
Proof.
  intros Hs. unfold extractBrand.
  destruct (extractBrand_body w url adjectives []) as [j completion].
  rewrite (server_perform sid j sessions s [] Hs). simpl.
  destruct completion as [r|m]; [reflexivity|].
  unfold on_catch, perform_one, Server.onProgress. simpl.
  rewrite lookup_insert_eq, insert_insert_eq. reflexivity.
Qed.

Lemma run_extraction_settles w sid url adjectives (sessions : gmap string Server.Session) s :
  sessions !! sid = Some s ->
  Server.run_extraction w sid url adjectives sessions = <[sid := settle w url adjectives s]> sessions.
Proof.
  intros Hs. unfold Server.run_extraction, settle.
  rewrite (extractBrand_server w sid url adjectives sessions s Hs).
  destruct (extractBrand_body w url adjectives []) as [j [r|m]]; simpl;
    unfold Server.on_fulfilled; rewrite lookup_insert_eq, insert_insert_eq; reflexivity.
Qed.

Lemma post_extract_started w now url (sessions sessions1 : gmap string Server.Session) sid :
  Server.post_extract w now url sessions = (Server.Started sid, sessions1) ->
  sid = show_Z now /\ sessions1 = <[sid := Server.sessionData]> sessions.
Proof.
  unfold Server.post_extract.
  destruct (String.eqb url EmptyString); [discriminate|].
  destruct (negb (url_is_valid w url)); [discriminate|].
  intros [= <- <-]. split; reflexivity.
Qed.


(** ** Percentages along the log *)

Lemma nondecreasing_nil : nondecreasing [].
Proof. intros i a b H. rewrite lookup_nil in H. discriminate. Qed.

Lemma nondecreasing_snoc l x :
  nondecreasing l -> Forall (fun y => y <= x) l -> nondecreasing (l ++ [x]).
Proof.
  intros Hl Hx i a b Ha Hb.
  destruct (decide (S i < length l)%nat) as [Hlt|Hge].
  - rewrite lookup_app_l in Ha by lia. rewrite lookup_app_l in Hb by lia. eauto.
  - assert (i < length l)%nat as Hi.
    { apply lookup_lt_Some in Hb. rewrite length_app in Hb. simpl in Hb. lia. }
    rewrite lookup_app_l in Ha by lia.
    rewrite lookup_app_r in Hb by lia.
    replace (S i - length l)%nat with 0%nat in Hb by lia. simpl in Hb.
    injection Hb as <-.
    rewrite Forall_forall in Hx. apply Hx.
    eapply list_elem_of_lookup_2. exact Ha.
Qed.

Lemma log_ok_record st msg s :
  log_ok s -> Server.progress s <= Server.next_progress st (Server.progress s) ->
  log_ok (Server.record_progress st msg s).
Proof.
  intros [Hnd Hall] Hle. unfold log_ok, Server.record_progress. simpl. split.
  - rewrite map_app. simpl. apply nondecreasing_snoc; [assumption|].
    rewrite Forall_map. eapply Forall_impl; [exact Hall|]. simpl. intros; lia.
  - apply Forall_app. split.
    + eapply Forall_impl; [exact Hall|]. simpl. intros; lia.
    + constructor; [simpl; lia|constructor].
Qed.

Lemma next_progress_cap st p :
  rank st <= 6 -> p <= stage_cap st ->
  p <= Server.next_progress st p /\ Server.next_progress st p <= stage_cap st.
Proof. destruct st; unfold Server.next_progress; simpl; lia. Qed.

Lemma stage_cap_mono a b : rank a <= rank b -> rank b <= 6 -> stage_cap a <= stage_cap b.
Proof. destruct a, b; simpl; lia. Qed.

Lemma stage_cap_100 st : stage_cap st <= 100.
Proof. destruct st; simpl; lia. Qed.

Lemma observe_log_ok l :
  forall s,
    ascending (map fst l) -> Forall (fun st => rank st <= 6) (map fst l) ->
    log_ok s -> Server.progress s <= 100 ->
    match l with
    | (st, _) :: _ => Server.progress s <= stage_cap st
    | [] => True
    end ->
    log_ok (observe l s) /\ Server.progress (observe l s) <= 100.
Proof.
  induction l as [|[st msg] l IH]; intros s Hasc Hrank Hok H100 Hcap; simpl.
  - split; assumption.
  - inversion Hrank as [|? ? Hst Hrest]; subst.
    destruct (next_progress_cap st (Server.progress s) Hst Hcap) as [Hlo Hhi].
    apply IH.
    + destruct l as [|[st' msg'] l]; [exact I|]. simpl in Hasc. apply Hasc.
    + assumption.
    + apply log_ok_record; assumption.
    + simpl. pose proof (stage_cap_100 st). lia.
    + destruct l as [|[st' msg'] l]; [exact I|]. simpl in *.
      inversion Hrest; subst.
      pose proof (stage_cap_mono st st' (proj1 Hasc) ltac:(assumption)). lia.
Qed.

Lemma log_ok_finish r s :
  log_ok s -> Server.progress s <= 100 ->
  nondecreasing (map Server.progress_percent (Server.events (finish r s))).
Proof.
  intros [Hnd Hall] H100. unfold finish. simpl. rewrite map_app. simpl.
  apply nondecreasing_snoc; [assumption|].
  rewrite Forall_map. eapply Forall_impl; [exact Hall|]. simpl. intros; lia.
Qed.

Lemma log_ok_sessionData : log_ok Server.sessionData.
Proof. split; [apply nondecreasing_nil|constructor]. Qed.

Lemma log_ok_error msg s : log_ok s -> log_ok (Server.record_progress Error msg s).
Proof. intros H. apply log_ok_record; [assumption|]. unfold Server.next_progress. simpl. lia. Qed.

Lemma observe_stages l : forall s,
  map Server.pe_stage (Server.events (observe l s)) = (map Server.pe_stage (Server.events s) ++ map fst l)%list.
Proof.
  induction l as [|[st msg] l IH]; intros s; simpl.
  - rewrite app_nil_r. reflexivity.
  - rewrite IH. simpl. rewrite map_app, <- app_assoc. reflexivity.
Qed.

(** ** Stage 4 *)

Lemma fixEvaluationIssues_band errs : forall ev,
  quality_band (fixEvaluationIssues ev errs) = quality_band ev.
Proof.
  unfold fixEvaluationIssues.
  induction errs as [|e errs IH]; intros ev; simpl; [reflexivity|].
  rewrite IH. unfold fix_evaluation_one.
  destruct (String.eqb (instancePath e) "/dimensions" && String.eqb (keyword e) "minItems");
    simpl.
  - destruct (score_falsy (overall_score ev)); reflexivity.
  - destruct (dimensions ev); [destruct (score_falsy (overall_score ev))|]; reflexivity.
Qed.

(** [getQualityBand] is the fixed thresholds: 4.5 and above is excellent,
    from 3.5 up to 4.5 good, from 2.5 up to 3.5 acceptable, anything else
    (NaN included) poor; and the band of every evaluation produced by
    [evaluateBrandSpec] is [getQualityBand] of the [overall_score] in the
    model's reply, whatever band the reply itself may carry. *)
Lemma quality_band_of_reply :
  (forall s : float,
      (num_ge s 4.5%float = true -> getQualityBand (Some s) = excellent) /\
      (num_lt s 4.5%float = true -> num_ge s 3.5%float = true ->
       getQualityBand (Some s) = good) /\
      (num_lt s 3.5%float = true -> num_ge s 2.5%float = true ->
       getQualityBand (Some s) = acceptable) /\
      (num_ge s 4.5%float = false ->
       ~ (num_lt s 4.5%float = true /\ num_ge s 3.5%float = true) ->
       ~ (num_lt s 3.5%float = true /\ num_ge s 2.5%float = true) ->
       getQualityBand (Some s) = poor)) /\
  (forall (w : World) (brandSpec : jsval) (ev : Evaluation),
      evr_data (evaluateBrandSpec w brandSpec) = Some ev ->
      exists message reply,
        evaluation_call w brandSpec = Returned message /\
        extractEvaluationJSON w (reply_text message) = Returned reply /\
        quality_band ev = getQualityBand (reply_overall_score reply)).
Proof.
  split.
  - intros s. unfold getQualityBand. simpl. repeat split.
    + intros ->. reflexivity.
    + intros H1 ->. rewrite (num_lt_not_ge _ _ H1). reflexivity.
    + intros H1 ->. rewrite (num_lt_not_ge _ _ H1).
      destruct (num_ge s 4.5) eqn:E; [|reflexivity].
      apply ge_45_ge_35 in E. apply num_lt_not_ge in H1. congruence.
    + intros H1 H2 H3. rewrite H1.
      destruct (num_ge s 3.5) eqn:E35.
      { exfalso. apply H2. split; [|reflexivity].
        apply (num_ge_total s 3.5%float 4.5%float); auto. }
      destruct (num_ge s 2.5) eqn:E25; [|reflexivity].
      exfalso. apply H3. split; [|reflexivity].
      apply (num_ge_total s 2.5%float 3.5%float); auto.
  - intros w brandSpec ev. unfold evaluateBrandSpec, evaluate_try.
    destruct (evaluation_call w brandSpec) as [message|m] eqn:Hcall; [|simpl; discriminate].
    destruct (extractEvaluationJSON w (reply_text message)) as [reply|m] eqn:Hreply;
      [|simpl; discriminate].
    simpl.
    destruct (get_prop_strict brandSpec "metadata") as [md|m]; [|simpl; discriminate].
    simpl.
    destruct (get_prop_strict md "brand_id") as [bid|m]; [|simpl; discriminate].
    simpl.
    match goal with |- context [validateEvaluation w ?e] => set (ev0 := e) end.
    destruct (validateEvaluation w ev0) as [v|m]; [|simpl; discriminate].
    simpl. destruct (valid v); simpl.
    + destruct (io w SaveEvaluation); [|simpl; discriminate]. simpl.
      destruct (io w SizeEvaluation); [|simpl; discriminate]. simpl.
      intros [= <-]. exists message, reply. auto.
    + destruct (validateEvaluation w (fixEvaluationIssues ev0 (errors v)));
        [|simpl; discriminate]. simpl.
      destruct (io w SaveEvaluation); [|simpl; discriminate]. simpl.
      destruct (io w SizeEvaluation); [|simpl; discriminate]. simpl.
      intros [= <-]. exists message, reply. rewrite fixEvaluationIssues_band. auto.
Qed.

(** C7. A reply without [overall_score] but with the six dimensions, all
    at 5, fails the validation of the evaluation; [fixEvaluationIssues]
    fills the score in with the weighted sum, 5, and [evaluateBrandSpec]
    returns the evaluation with that score and with the band computed
    before the repair from the missing score: 'poor', where the thresholds
    give 'excellent' for 5. *)
Theorem C7_repaired_score_stale_band :
  let result := evaluateBrandSpec Unscored.world Unscored.brandSpec in
  extractEvaluationJSON Unscored.world "{...}"
  = Returned {| reply_overall_score := None; reply_quality_band := None;
                reply_dimensions := Some Unscored.dimensions;
                reply_recommendations := Some Demo.recs |} /\
  evr_status result = Success /\
  exists ev,
    evr_data result = Some ev /\
    overall_score ev = Some 5%float /\
    quality_band ev = poor /\
    getQualityBand (overall_score ev) = excellent.
Proof.
  intros result.
  split; [reflexivity|]. split; [reflexivity|].
  eexists. split; [vm_compute; reflexivity|].
  split; [reflexivity|]. split; reflexivity.
Qed.

(** ** Stage 5 *)

Lemma refine_try_ok w brandSpec ev refined n artifact :
  snd (refine_try w brandSpec ev) = RefinedOk refined n artifact ->
  exists message v,
    extractRefinedJSON w (reply_text message) = Returned refined /\
    validateBrandSpec w refined = Returned v /\ valid v = true.
Proof.
  unfold refine_try.
  destruct (obind (buildRefinementPrompt brandSpec ev) (refinement_call w)) as [message|m];
    [|simpl; discriminate].
  simpl.
  destruct (extractRefinedJSON w (reply_text message)) as [doc|m] eqn:Hdoc; [|discriminate].
  destruct (validateBrandSpec w doc) as [v|m] eqn:Hv; [|discriminate].
  destruct (valid v) eqn:Hvalid; simpl; [|discriminate].
  destruct (obind (countImprovements w brandSpec doc) _) as [[k size]|m]; [|discriminate].
  intros [= <- <- <-]. exists message, v. auto.
Qed.

(** Below the gate the stage reports [success] exactly when the [try] block
    produced a validated document, and otherwise hands back its input. *)
Lemma refine_below_gate w brandSpec ev x :
  overall_score ev = Some x -> num_lt x 4.5%float = true ->
  let res := refineBrandSpec w brandSpec ev in
  match snd (refine_try w brandSpec ev) with
  | RefinedOk refined _ _ => ref_status res = Success /\ ref_data res = Some refined
  | RefinedInvalid => ref_status res = Failed /\ ref_data res = brandSpec
  | RefineThrew _ => ref_status res = Failed /\ ref_data res = brandSpec
  end.
Proof.
  intros Hx Hlt. unfold refineBrandSpec. rewrite Hx. simpl to_number.
  rewrite (num_lt_not_ge _ _ Hlt).
  destruct (refine_try w brandSpec ev) as [[i o] [refined n artifact| |m]]; simpl; auto.
Qed.

Lemma successful_run_stage3 w url adjectives r :
  successful_run w url adjectives r ->
  exists syn, stage3_result w url adjectives = Returned syn /\
    exists x, overall_score (evaluation r) = Some x /\
    if num_lt x 4.5%float
    then refinement r = Some (refineBrandSpec w (syn_data syn) (evaluation r)) /\
         brand_spec r = match ref_status (refineBrandSpec w (syn_data syn) (evaluation r)) with
                        | Success => ref_data (refineBrandSpec w (syn_data syn) (evaluation r))
                        | _ => syn_data syn
                        end
    else refinement r = None /\ brand_spec r = syn_data syn.
Proof.
  intros (c & a & am & x & Hc & Ha & Ham & Hev & Hx & Href & Hsum).
  eexists. split.
  - unfold stage3_result. rewrite Hc. simpl. rewrite Ha. simpl. reflexivity.
  - exists x. split; [assumption|].
    destruct (num_lt x 4.5); [destruct Href as (? & ? & ?)|destruct Href as (? & ? & ?)]; auto.
Qed.

(** C1. Refinement non-regression: when the run succeeds with an
    [overall_score] below 4.5, stage 5 ran on the synthesized specification
    [S], and the [brand_spec] of the result is the refined document when that
    document passed [validateBrandSpec], and exactly [S] when the refined
    document failed validation or anything in the refinement threw. *)
Theorem C1_refinement_non_regression {S : Type} (w : World)
    (onProgress : option (@ProgressSink S)) (url : string) (adjectives : list string)
    (s0 : S) (r : ExtractSuccess) (x : float) :
  fst (extractBrand w onProgress url adjectives s0) = Returned (ExtractOk r) ->
  overall_score (evaluation r) = Some x ->
  num_lt x 4.5%float = true ->
  exists syn,
    stage3_result w url adjectives = Returned syn /\
    refinement r = Some (refineBrandSpec w (syn_data syn) (evaluation r)) /\
    match snd (refine_try w (syn_data syn) (evaluation r)) with
    | RefinedOk refined _ _ =>
        brand_spec r = Some refined /\
        exists v, validateBrandSpec w refined = Returned v /\ valid v = true
    | RefinedInvalid => brand_spec r = syn_data syn
    | RefineThrew _ => brand_spec r = syn_data syn
    end.
Proof.
  intros Hrun Hx Hlt.
  destruct (extractBrand_ok_inv _ _ _ _ _ _ Hrun) as [j Hbody].
  destruct (successful_run_stage3 _ _ _ _ (body_ok_inv _ _ _ _ _ Hbody))
    as (syn & Hsyn & x' & Hx' & Href).
  assert (x' = x) as -> by congruence.
  rewrite Hlt in Href. destruct Href as [Href Hspec].
  exists syn. split; [assumption|]. split; [assumption|].
  pose proof (refine_below_gate w (syn_data syn) (evaluation r) x Hx Hlt) as Hgate.
  simpl in Hgate.
  destruct (snd (refine_try w (syn_data syn) (evaluation r)))
    as [refined n artifact| |m] eqn:Htry.
  - destruct Hgate as [Hst Hdata]. rewrite Hst, Hdata in Hspec. split; [assumption|].
    destruct (refine_try_ok _ _ _ _ _ _ Htry) as (message & v & _ & Hv & Hvalid).
    eauto.
  - destruct Hgate as [Hst _]. rewrite Hst in Hspec. assumption.
  - destruct Hgate as [Hst _]. rewrite Hst in Hspec. assumption.
Qed.

Lemma C1_witness :
  exists r,
    fst (extractBrand (Demo.world Success Demo.tokens_ok 3.8%float) (S := unit) None
           Demo.url [] tt) = Returned (ExtractOk r) /\
    overall_score (evaluation r) = Some 3.8%float /\
    num_lt 3.8%float 4.5%float = true /\
    brand_spec r = Some Demo.refined_doc.
Proof.
  eexists. split; [vm_compute; reflexivity|].
  split; [reflexivity|]. split; [reflexivity|].
  destruct (C1_refinement_non_regression
              (Demo.world Success Demo.tokens_ok 3.8%float) (S := unit) None Demo.url [] tt
              _ 3.8%float eq_refl eq_refl eq_refl) as (syn & Hsyn & Href & Hspec).
  vm_compute in Hsyn. injection Hsyn as <-.
  vm_compute in Hspec. destruct Hspec as [Hspec _]. exact Hspec.
Defined.

(** C6. Skip-refine gate: in a run whose evaluation has an [overall_score]
    of 4.5 or more, whatever the sink does and however the run ends, every
    [Refine] entry on the trace has status [skipped] and zero input and
    output tokens; and when the run returns its result, [refineBrandSpec] was
    not called, that entry is the last of the returned trace and the only
    one named [Refine], and the [brand_spec] of the result is the synthesized
    specification. *)
Theorem C6_skip_refine_gate {S : Type} (w : World)
    (onProgress : option (@ProgressSink S)) (url : string) (adjectives : list string)
    (s0 : S) (evr : EvaluateResult) (ev : Evaluation) (x : float) :
  stage4_result w url adjectives = Returned evr ->
  evr_data evr = Some ev ->
  overall_score ev = Some x ->
  num_ge x 4.5%float = true ->
  (forall e,
      In e (trace_stages (snd (extractBrand w onProgress url adjectives s0))) ->
      st_name e = Refine ->
      st_status e = Skipped /\
      exists m, st_metrics e = Some m /\ tokens_input m = 0 /\ tokens_output m = 0) /\
  (forall r,
      fst (extractBrand w onProgress url adjectives s0) = Returned (ExtractOk r) ->
      exists syn earlier entry,
        stage3_result w url adjectives = Returned syn /\
        evaluation r = ev /\
        brand_spec r = syn_data syn /\
        refinement r = None /\
        stages (execution_trace r) = (earlier ++ [entry])%list /\
        Forall (fun e => st_name e <> Refine) earlier /\
        st_name entry = Refine /\ st_status entry = Skipped).
Proof.
  intros H4 Hdata Hx Hge. split.
  - intros e Hin Hname. apply extractBrand_trace_incl in Hin.
    rewrite (body_refine_entry _ _ _ _ _ _ _ Hin Hname H4 Hdata Hx Hge).
    split; [reflexivity|]. eexists. repeat split; reflexivity.
  - intros r Hrun.
    destruct (extractBrand_ok_inv _ _ _ _ _ _ Hrun) as [j Hbody].
    destruct (body_ok_inv _ _ _ _ _ Hbody)
      as (c & a & am & x' & Hc & Ha & Ham & Hev & Hx' & Href & Hsum).
    assert (Hsame : evaluation r = ev).
    { unfold stage4_result, stage3_result in H4. rewrite Hc in H4. simpl in H4.
      rewrite Ha in H4. simpl in H4. injection H4 as <-. congruence. }
    assert (x' = x) as -> by congruence.
    rewrite (num_ge_not_lt _ _ Hge) in Href. destruct Href as (Hnone & Hspec & Hstages).
    eexists. eexists. exists skipped_refine_entry.
    split.
    { unfold stage3_result. rewrite Hc. simpl. rewrite Ha. simpl. reflexivity. }
    split; [exact Hsame|]. split; [exact Hspec|]. split; [exact Hnone|].
    split.
    { rewrite Hstages.
      change [capture_entry c; analyze_entry a; ?e3; ?e4; skipped_refine_entry]
        with ([capture_entry c; analyze_entry a; e3; e4] ++ [skipped_refine_entry])%list.
      reflexivity. }
    split; [repeat constructor; discriminate|].
    split; reflexivity.
Qed.

Lemma C6_witness :
  exists evr ev r,
    stage4_result (Demo.world Success Demo.tokens_ok 4.7%float) Demo.url [] = Returned evr /\
    evr_data evr = Some ev /\
    overall_score ev = Some 4.7%float /\
    num_ge 4.7%float 4.5%float = true /\
    fst (extractBrand (Demo.world Success Demo.tokens_ok 4.7%float) (S := unit) None
           Demo.url [] tt) = Returned (ExtractOk r) /\
    refinement r = None /\
    exists earlier entry,
      stages (execution_trace r) = (earlier ++ [entry])%list /\ st_status entry = Skipped.
Proof.
  eexists. eexists. eexists.
  split; [vm_compute; reflexivity|]. split; [reflexivity|].
  split; [reflexivity|]. split; [reflexivity|].
  split; [vm_compute; reflexivity|].
  destruct (proj2 (C6_skip_refine_gate
                     (Demo.world Success Demo.tokens_ok 4.7%float) (S := unit) None
                     Demo.url [] tt _ _ 4.7%float eq_refl eq_refl eq_refl eq_refl)
              _ eq_refl)
    as (syn & earlier & entry & _ & _ & _ & Hnone & Hstages & _ & _ & Hskip).
  split; [exact Hnone|]. exists earlier, entry. split; assumption.
Defined.

(** ** Trace accounting *)

(** C8. For every successful run the summary's [total_tokens] is
    the sum of input plus output tokens over the entries of the trace, where
    the [Capture] and [Synthesize] entries carry no metrics and a skipped
    [Refine] entry carries zeros, and [estimated_cost_usd] is the summed
    input tokens at 3 per million plus the summed output tokens at 15 per
    million, rounded to four decimals. *)
Theorem C8_trace_accounting {S : Type} (w : World)
    (onProgress : option (@ProgressSink S)) (url : string) (adjectives : list string)
    (s0 : S) (r : ExtractSuccess) :
  fst (extractBrand w onProgress url adjectives s0) = Returned (ExtractOk r) ->
  exists sm,
    summary (execution_trace r) = Some sm /\
    total_tokens sm = sum_Z (map entry_tokens (stages (execution_trace r))) /\
    estimated_cost_usd sm =
      fixed4 (estimatedCost (sum_Z (map entry_input (stages (execution_trace r))))
                            (sum_Z (map entry_output (stages (execution_trace r))))) /\
    Forall (fun e => st_name e = Capture \/ st_name e = Synthesize \/
                     (st_name e = Refine /\ st_status e = Skipped) ->
                     entry_tokens e = 0)
      (stages (execution_trace r)).
Proof.
  intros Hrun.
  destruct (extractBrand_ok_inv _ _ _ _ _ _ Hrun) as [j Hbody].
  destruct (body_ok_inv _ _ _ _ _ Hbody)
    as (c & a & am & x & Hc & Ha & Ham & Hev & Hx & Href & Hsum).
  eexists. split; [exact Hsum|].
  set (syn := synthesizeBrandSpec w (an_data a) (synthesis_metadata w url adjectives)
                (cap_duration_ms c + an_duration_ms a)) in *.
  set (evm := evr_metrics (evaluateBrandSpec w (syn_data syn))) in *.
  set (evr := evaluateBrandSpec w (syn_data syn)) in *.
  destruct (num_lt x 4.5) eqn:Hlt; destruct Href as (Hr & Hspec & Hstages);
    rewrite Hstages, Hr; unfold entry_tokens, entry_input, entry_output;
    cbn; rewrite Ham; cbn; fold evm.
  - set (res := refineBrandSpec w (syn_data syn) (evaluation r)) in *.
    set (rm := ref_metrics res).
    split; [lia|]. split.
    + f_equal. f_equal; lia.
    + repeat (apply List.Forall_cons || apply List.Forall_nil); cbn; try reflexivity.
      * intros [H|[H|[H _]]]; discriminate.
      * intros [H|[H|[H _]]]; discriminate.
      * intros [H|[H|[_ H]]]; try discriminate.
        pose proof (refine_below_gate w (syn_data syn) (evaluation r) x Hx Hlt) as Hgate.
        cbn in Hgate. fold res in Hgate.
        destruct (snd (refine_try w (syn_data syn) (evaluation r)));
          destruct Hgate as [Hst _]; congruence.
  - split; [lia|]. split.
    + f_equal. f_equal; lia.
    + repeat (apply List.Forall_cons || apply List.Forall_nil); cbn; try reflexivity.
      all: intros [H|[H|[H _]]]; discriminate.
Qed.

Lemma C8_witness :
  exists r sm,
    fst (extractBrand (Demo.world Success Demo.tokens_ok 4.7%float) (S := unit) None
           Demo.url [] tt) = Returned (ExtractOk r) /\
    summary (execution_trace r) = Some sm /\
    total_tokens sm = 15689 /\
    estimated_cost_usd sm = 0.0591%float.
Proof.
  eexists. eexists. split; [vm_compute; reflexivity|].
  destruct (C8_trace_accounting
              (Demo.world Success Demo.tokens_ok 4.7%float) (S := unit) None Demo.url [] tt
              _ eq_refl) as (sm & Hsm & Htok & Hcost & _).
  vm_compute in Hsm. injection Hsm as <-.
  split; [reflexivity|]. split; [exact Htok|exact Hcost].
Defined.

(** The summary of that run shows 0.0591 where the unrounded formula gives
    0.059055. *)
Lemma C8_counterexample :
  ~ C8_as_stated (Demo.world Success Demo.tokens_ok 4.7%float) Demo.url [].
Proof.
  intros H.
  destruct (H _ eq_refl) as (sm & Hsm & _ & Hcost).
  vm_compute in Hsm. injection Hsm as <-.
  apply (f_equal Prim2SF) in Hcost. vm_compute in Hcost. discriminate Hcost.
Qed.

(** ** The entry point *)

(** C10. With a progress sink that does not throw (or with none),
    [extractBrand] never rejects: it resolves to the success object, holding
    the specification, the evaluation and the trace with its summary, when
    the body completes, and to the failure object holding the message of the
    exception otherwise. *)
Theorem C10_extractBrand_resolves {S : Type} (w : World)
    (onProgress : option (@ProgressSink S)) (url : string) (adjectives : list string)
    (s0 : S) :
  never_throws onProgress ->
  exists result,
    fst (extractBrand w onProgress url adjectives s0) = Returned result /\
    match result with
    | ExtractOk r =>
        successful_run w url adjectives r /\
        exists sm, summary (execution_trace r) = Some sm
    | ExtractFailed e => snd (extractBrand_body w url adjectives []) = Thrown e
    end.
Proof.
  intros Htotal. rewrite (extractBrand_settles onProgress Htotal).
  destruct (extractBrand_body w url adjectives []) as [j [r|m]] eqn:Hbody; simpl.
  - exists (ExtractOk r). split; [reflexivity|].
    pose proof (body_ok_inv _ _ _ _ _ Hbody) as Hrun. split; [exact Hrun|].
    destruct Hrun as (c & a & am & x & _ & _ & _ & _ & _ & _ & Hsum). eauto.
  - exists (ExtractFailed m). split; reflexivity.
Qed.

Lemma C10_witness :
  never_throws (Some (Server.onProgress "1767000000000")) /\
  fst (extractBrand (Demo.world Failed Demo.tokens_ok 3.8%float)
         (Some (Server.onProgress "1767000000000")) Demo.url []
         (<["1767000000000" := Server.sessionData]> ∅))
  = Returned (ExtractFailed "Capture stage failed: net::ERR_NAME_NOT_RESOLVED").
Proof.
  split; [apply onProgress_never_throws|].
  destruct (C10_extractBrand_resolves
              (Demo.world Failed Demo.tokens_ok 3.8%float)
              (Some (Server.onProgress "1767000000000")) Demo.url []
              (<["1767000000000" := Server.sessionData]> ∅)
              (onProgress_never_throws "1767000000000")) as (result & Hres & Hshape).
  rewrite Hres. destruct result as [r|e].
  - vm_compute in Hres. discriminate Hres.
  - vm_compute in Hshape. injection Hshape as <-. reflexivity.
Defined.

(** A sink that throws on every call makes the promise reject. *)
Lemma C10_counterexample :
  ~ C10_as_stated (Demo.world Success Demo.tokens_ok 3.8%float) Demo.url [].
Proof.
  intros H. destruct (H unit (Some Demo.throwing_sink) tt) as [result Hres].
  vm_compute in Hres. discriminate Hres.
Qed.

(** ** The session log *)

Section Session.

Variables (w : World) (now : Z) (url : string) (adjectives : list string).
Variables (activeSessions sessions : gmap string Server.Session) (sid : string).
Hypothesis started : Server.post_extract w now url activeSessions = (Server.Started sid, sessions).

Lemma started_lookup : sessions !! sid = Some Server.sessionData.
Proof.
  destruct (post_extract_started _ _ _ _ _ _ started) as [_ ->].
  apply lookup_insert_eq.
Qed.

Lemma settled_lookup :
  Server.run_extraction w sid url adjectives sessions !! sid
  = Some (settle w url adjectives Server.sessionData).
Proof.
  rewrite (run_extraction_settles _ _ _ _ _ _ started_lookup).
  apply lookup_insert_eq.
Qed.

Lemma server_trace :
  trace_stages (snd (extractBrand w (Some (Server.onProgress sid)) url adjectives sessions))
  = stages_of (fst (extractBrand_body w url adjectives [])).
Proof.
  rewrite (extractBrand_server _ _ _ _ _ _ started_lookup).
  destruct (extractBrand_body w url adjectives []) as [j [r|m]]; reflexivity.
Qed.

Lemma observed_log_ok :
  let s := observe (emitted (fst (extractBrand_body w url adjectives []))) Server.sessionData in
  log_ok s /\ Server.progress s <= 100.
Proof.
  destruct (body_emits_in_order w url adjectives) as (Hasc & Hrank & rest & Hfirst).
  set (l := emitted (fst (extractBrand_body w url adjectives []))) in *.
  apply observe_log_ok; try assumption.
  - apply log_ok_sessionData.
  - simpl. lia.
  - destruct l as [|[st msg] l']; [exact I|]. simpl in Hfirst.
    injection Hfirst as -> _. simpl. lia.
Qed.

End Session.

Lemma settle_failed w url adjectives m s :
  snd (extractBrand_body w url adjectives []) = Thrown m ->
  settle w url adjectives s =
  finish (ExtractFailed m)
    (Server.record_progress Error ("Extraction failed: " ++ m)
       (observe (emitted (fst (extractBrand_body w url adjectives []))) s)).
Proof.
  unfold settle. destruct (extractBrand_body w url adjectives []) as [j [r|m']]; simpl.
  - discriminate.
  - intros [= ->]. reflexivity.
Qed.

(** ** Turns of the event loop *)

Lemma concerns_id sid t :
  EventLoop.concerns sid t = true <-> EventLoop.session_id t = Some sid.
Proof.
  unfold EventLoop.concerns. destruct (EventLoop.session_id t) as [id|].
  - rewrite String.eqb_eq. split; congruence.
  - split; discriminate.
Qed.

(** A turn changes the session under the id it works on, and no other. *)
Lemma turn_lookup t sid (activeSessions : gmap string Server.Session) :
  EventLoop.turn t activeSessions !! sid
  = if EventLoop.concerns sid t then on_session t (activeSessions !! sid)
    else activeSessions !! sid.
Proof.
  destruct (EventLoop.concerns sid t) eqn:Hc.
  - apply concerns_id in Hc. destruct t as [w now url|id st msg|id r|id m|id]; simpl in *.
    + unfold Server.post_extract in *.
      destruct (String.eqb url EmptyString); [discriminate|].
      destruct (negb (url_is_valid w url)); [discriminate|].
      simpl in *. injection Hc as <-. apply lookup_insert_eq.
    + injection Hc as ->. unfold Server.onProgress.
      destruct (activeSessions !! sid) eqn:E; simpl; [apply lookup_insert_eq|exact E].
    + injection Hc as ->. unfold Server.on_fulfilled.
      destruct (activeSessions !! sid) eqn:E; simpl; [apply lookup_insert_eq|exact E].
    + injection Hc as ->. unfold Server.on_rejected.
      destruct (activeSessions !! sid) eqn:E; simpl; [apply lookup_insert_eq|exact E].
    + injection Hc as ->. apply lookup_delete_eq.
  - assert (EventLoop.session_id t <> Some sid) as Hne.
    { intros H. apply concerns_id in H. congruence. }
    destruct t as [w now url|id st msg|id r|id m|id]; simpl in *.
    + unfold Server.post_extract in *.
      destruct (String.eqb url EmptyString); [reflexivity|].
      destruct (negb (url_is_valid w url)); [reflexivity|].
      simpl in *. apply lookup_insert_ne. congruence.
    + unfold Server.onProgress.
      destruct (activeSessions !! id); simpl; [|reflexivity].
      apply lookup_insert_ne. congruence.
    + unfold Server.on_fulfilled.
      destruct (activeSessions !! id); simpl; [|reflexivity].
      apply lookup_insert_ne. congruence.
    + unfold Server.on_rejected.
      destruct (activeSessions !! id); simpl; [|reflexivity].
      apply lookup_insert_ne. congruence.
    + apply lookup_delete_ne. congruence.
Qed.

(** The session under an id is decided by the turns that work on it. *)
Lemma run_lookup schedule sid : forall activeSessions : gmap string Server.Session,
  EventLoop.run schedule activeSessions !! sid
  = fold_left (fun s t => on_session t s)
      (List.filter (EventLoop.concerns sid) schedule) (activeSessions !! sid).
Proof.
  induction schedule as [|t schedule IH]; intros activeSessions; [reflexivity|].
  unfold EventLoop.run in *. simpl. rewrite IH, turn_lookup.
  destruct (EventLoop.concerns sid t); reflexivity.
Qed.

Lemma run_app a b (activeSessions : gmap string Server.Session) :
  EventLoop.run (a ++ b) activeSessions = EventLoop.run b (EventLoop.run a activeSessions).
Proof. apply fold_left_app. Qed.

Lemma noting_perform sid j : forall calls t,
  perform (Some (EventLoop.noting sid)) j {| observer := calls; trace_stages := t |} =
  (Returned tt,
   {| observer := (calls ++ map (fun '(stage, message) => EventLoop.Progress sid stage message)
                              (emitted j))%list;
      trace_stages := (t ++ stages_of j)%list |}).
Proof.
  induction j as [|a j IH]; intros calls t; simpl.
  - rewrite !app_nil_r. reflexivity.
  - destruct a as [stage msg|entry]; simpl.
    + rewrite IH. simpl. rewrite <- app_assoc. reflexivity.
    + rewrite IH. rewrite <- app_assoc. reflexivity.
Qed.

(** The turns of an extraction, read off the body of [extractBrand]. *)
Lemma extraction_turns w sid url adjectives :
  EventLoop.extraction w sid url adjectives =
  match extractBrand_body w url adjectives [] with
  | (j, Returned r) =>
      (map (fun '(stage, message) => EventLoop.Progress sid stage message) (emitted j)
       ++ [EventLoop.Fulfilled sid (ExtractOk r)])%list
  | (j, Thrown m) =>
      (map (fun '(stage, message) => EventLoop.Progress sid stage message) (emitted j)
       ++ [EventLoop.Progress sid Error ("Extraction failed: " ++ m);
           EventLoop.Fulfilled sid (ExtractFailed m)])%list
  end.
Proof.
  unfold EventLoop.extraction, extractBrand.
  destruct (extractBrand_body w url adjectives []) as [j completion].
  rewrite noting_perform. simpl.
  destruct completion as [r|m]; simpl; [reflexivity|].
  rewrite <- app_assoc. reflexivity.
Qed.

Lemma extraction_trace w sid url adjectives :
  trace_stages (snd (extractBrand w (Some (EventLoop.noting sid)) url adjectives []))
  = stages_of (fst (extractBrand_body w url adjectives [])).
Proof.
  unfold extractBrand.
  destruct (extractBrand_body w url adjectives []) as [j completion].
  rewrite noting_perform. simpl.
  destruct completion as [r|m]; reflexivity.
Qed.

Lemma on_session_progress sid l : forall s,
  fold_left (fun s t => on_session t s)
    (map (fun '(stage, message) => EventLoop.Progress sid stage message) l) (Some s)
  = Some (observe l s).
Proof.
  induction l as [|[stage msg] l IH]; intros s; simpl; [reflexivity|apply IH].
Qed.

Lemma filter_concerning sid l :
  Forall (fun t => EventLoop.concerns sid t = true) l ->
  List.filter (EventLoop.concerns sid) l = l.
Proof.
  induction l as [|t l IH]; intros H; [reflexivity|].
  inversion H as [|? ? Ht Hl]; subst. simpl. rewrite Ht, (IH Hl). reflexivity.
Qed.

Lemma extraction_concerns w sid url adjectives :
  Forall (fun t => EventLoop.concerns sid t = true)
         (EventLoop.extraction w sid url adjectives).
Proof.
  rewrite extraction_turns.
  destruct (extractBrand_body w url adjectives []) as [j [r|m]];
    (apply Forall_app; split;
     [apply Forall_map, Forall_forall; intros [stage msg] _|repeat constructor]);
    apply concerns_id; reflexivity.
Qed.

(** The session a request leaves under its id when no other request works
    on that id: its own log, settled. *)
Lemma own_session_settled schedule sid w now url adjectives
    (activeSessions : gmap string Server.Session) :
  sole_request schedule sid w now url adjectives ->
  EventLoop.run schedule activeSessions !! sid
  = Some (settle w url adjectives Server.sessionData).
Proof.
  intros [Hid Hturns]. rewrite run_lookup, Hturns.
  unfold EventLoop.request. rewrite Hid. simpl.
  rewrite extraction_turns. unfold settle.
  destruct (extractBrand_body w url adjectives []) as [j [r|m]].
  - rewrite fold_left_app, on_session_progress. reflexivity.
  - rewrite fold_left_app, on_session_progress. reflexivity.
Qed.

(** Served alone, a request is its own schedule. *)
Lemma request_alone w now url adjectives sid :
  fst (Server.post_extract w now url ∅) = Server.Started sid ->
  sole_request (EventLoop.request w now url adjectives) sid w now url adjectives.
Proof.
  intros Hid. split; [exact Hid|].
  apply filter_concerning. unfold EventLoop.request. rewrite Hid.
  constructor.
  - apply concerns_id. simpl. rewrite Hid. reflexivity.
  - apply extraction_concerns.
Qed.

(** The turns of an extraction do to the registry what the extraction run
    in one go does. *)
Lemma run_extraction_turns w sid url adjectives
    (activeSessions : gmap string Server.Session) s :
  activeSessions !! sid = Some s ->
  EventLoop.run (EventLoop.extraction w sid url adjectives) activeSessions !! sid
  = Server.run_extraction w sid url adjectives activeSessions !! sid.
Proof.
  intros Hs. rewrite (run_extraction_settles _ _ _ _ _ _ Hs), lookup_insert_eq.
  rewrite run_lookup, Hs, (filter_concerning _ _ (extraction_concerns w sid url adjectives)).
  rewrite extraction_turns. unfold settle.
  destruct (extractBrand_body w url adjectives []) as [j [r|m]];
    rewrite fold_left_app, on_session_progress; reflexivity.
Qed.

(** ** The session of a request that has its id to itself *)

(** Its progress never goes down, on any path of the run and whatever the
    other requests on the server do. *)
Lemma sole_request_progress (w : World) (now : Z) (url : string)
    (adjectives : list string) (sid : string) (schedule : list EventLoop.Turn)
    (activeSessions : gmap string Server.Session) (session : Server.Session) :
  sole_request schedule sid w now url adjectives ->
  EventLoop.run schedule activeSessions !! sid = Some session ->
  nondecreasing (map Server.progress_percent (Server.events session)).
Proof.
  intros Hsole Hsession.
  rewrite (own_session_settled _ _ _ _ _ _ _ Hsole) in Hsession. injection Hsession as <-.
  pose proof (observed_log_ok w url adjectives) as [Hok H100]. unfold settle.
  destruct (extractBrand_body w url adjectives []) as [j [r|m]]; cbn [fst] in Hok, H100.
  - exact (log_ok_finish _ _ Hok H100).
  - apply log_ok_finish; [apply log_ok_error; exact Hok|exact H100].
Qed.

(** After a failed Capture or Analyze the trace has no later stage and the
    session ends as 'failed'. *)
Lemma sole_request_short_circuit (w : World) (now : Z) (url : string)
    (adjectives : list string) (sid : string) (schedule : list EventLoop.Turn)
    (activeSessions : gmap string Server.Session) (entry : StageEntry) :
  sole_request schedule sid w now url adjectives ->
  In entry (trace_stages
              (snd (extractBrand w (Some (EventLoop.noting sid)) url adjectives []))) ->
  st_name entry = Capture \/ st_name entry = Analyze ->
  st_status entry = Failed ->
  Forall (fun e => st_name e <> Synthesize /\ st_name e <> Evaluate /\ st_name e <> Refine)
    (trace_stages
       (snd (extractBrand w (Some (EventLoop.noting sid)) url adjectives []))) /\
  exists session,
    EventLoop.run schedule activeSessions !! sid = Some session /\
    Server.status session = Server.SessionFailed.
Proof.
  intros Hsole Hin Hname Hfailed. rewrite extraction_trace in *. split.
  - eapply Forall_impl; [exact (body_short_circuit _ _ _ _ Hin Hname Hfailed)|].
    intros e [He|He]; simpl; rewrite He; repeat split; discriminate.
  - assert (st_name entry <> Refine) as Hne by (destruct Hname as [-> | ->]; discriminate).
    pose proof (body_failed_stage _ _ _ _ Hin Hfailed Hne) as Hthrown.
    exists (settle w url adjectives Server.sessionData).
    split; [apply (own_session_settled _ _ _ _ _ _ _ Hsole)|].
    rewrite (settle_failed _ _ _ _ _ Hthrown). reflexivity.
Qed.

(** C2. For a request that has its session id to itself, whatever else the
    server is doing: when a stage other than Refine reports [failed], the
    session ends with status 'failed'; one event with stage 'error' carrying
    "Extraction failed: " and the stage's error message is appended, and the
    last event of the log is the 'complete' event of the [.then] handler,
    with the same text and 100 percent. No earlier event has stage 'error'
    or 'complete'. *)
Theorem C2_failed_stage_events (w : World) (now : Z) (url : string)
    (adjectives : list string) (sid : string) (schedule : list EventLoop.Turn)
    (activeSessions : gmap string Server.Session) (entry : StageEntry) :
  sole_request schedule sid w now url adjectives ->
  In entry (trace_stages
              (snd (extractBrand w (Some (EventLoop.noting sid)) url adjectives []))) ->
  st_status entry = Failed -> st_name entry <> Refine ->
  exists session earlier p,
    EventLoop.run schedule activeSessions !! sid = Some session /\
    Server.status session = Server.SessionFailed /\
    Server.events session =
      (earlier ++
       [{| Server.pe_stage := Error;
           Server.pe_message := "Extraction failed: " ++ failure_message entry;
           Server.progress_percent := p;
           Server.pe_brand_id := None |};
        {| Server.pe_stage := Complete;
           Server.pe_message := "Extraction failed: " ++ failure_message entry;
           Server.progress_percent := 100;
           Server.pe_brand_id := None |}])%list /\
    Forall (fun e => Server.pe_stage e <> Error /\ Server.pe_stage e <> Complete) earlier.
Proof.
  intros Hsole Hin Hfailed Hname.
  rewrite extraction_trace in Hin.
  pose proof (body_failed_stage _ _ _ _ Hin Hfailed Hname) as Hthrown.
  destruct (body_emits_in_order w url adjectives) as (_ & Hrank & _).
  set (l := emitted (fst (extractBrand_body w url adjectives []))) in *.
  exists (settle w url adjectives Server.sessionData),
         (Server.events (observe l Server.sessionData)),
         (Server.progress (observe l Server.sessionData)).
  split; [apply (own_session_settled _ _ _ _ _ _ _ Hsole)|].
  rewrite (settle_failed _ _ _ _ _ Hthrown). fold l.
  split; [reflexivity|]. split.
  - unfold finish, Server.record_progress. simpl. rewrite <- app_assoc. reflexivity.
  - assert (Forall (fun st => st <> Error /\ st <> Complete)
              (map Server.pe_stage (Server.events (observe l Server.sessionData)))) as H.
    { rewrite observe_stages. simpl.
      eapply Forall_impl; [exact Hrank|]. intros st Hst. simpl in Hst.
      split; intros ->; simpl in Hst; lia. }
    rewrite Forall_map in H. exact H.
Qed.

Lemma C2_witness :
  let failing := Demo.world Failed Demo.tokens_ok 3.8%float in
  let schedule := Concurrent.apart failing (Demo.world Success Demo.tokens_ok 3.8%float) in
  sole_request schedule Concurrent.sid failing Concurrent.now "https://stripe.com" [] /\
  In Demo.failed_capture
     (trace_stages
        (snd (extractBrand failing (Some (EventLoop.noting Concurrent.sid))
                "https://stripe.com" [] []))) /\
  st_status Demo.failed_capture = Failed /\ st_name Demo.failed_capture <> Refine /\
  exists session,
    EventLoop.run schedule ∅ !! Concurrent.sid = Some session /\
    Server.status session = Server.SessionFailed /\
    map Server.pe_stage (Server.events session) = [Setup; Capture; Error; Complete].
Proof.
  intros failing schedule.
  assert (sole_request schedule Concurrent.sid failing Concurrent.now
            "https://stripe.com" []) as Hsole
    by (split; vm_compute; reflexivity).
  assert (In Demo.failed_capture
            (trace_stages
               (snd (extractBrand failing (Some (EventLoop.noting Concurrent.sid))
                       "https://stripe.com" [] [])))) as Hin
    by (vm_compute; left; reflexivity).
  assert (st_name Demo.failed_capture <> Refine) as Hname by (vm_compute; discriminate).
  destruct (C2_failed_stage_events failing Concurrent.now "https://stripe.com" []
              Concurrent.sid schedule ∅ Demo.failed_capture Hsole Hin eq_refl Hname)
    as (session & earlier & p & Hsession & Hstatus & Hevents & _).
  split; [exact Hsole|]. split; [exact Hin|]. split; [reflexivity|].
  split; [exact Hname|]. exists session.
  split; [exact Hsession|]. split; [exact Hstatus|].
  vm_compute in Hsession. injection Hsession as <-. reflexivity.
Defined.

(** In that run the last event of the log has stage 'complete'. *)
Lemma C2_counterexample :
  ~ C2_as_stated (Demo.world Failed Demo.tokens_ok 3.8%float) 1767000000000 Demo.url [].
Proof.
  intros H.
  destruct (H "1767000000000" (<["1767000000000" := Server.sessionData]> ∅)
              Demo.failed_capture
              (settle (Demo.world Failed Demo.tokens_ok 3.8%float) Demo.url []
                 Server.sessionData))
    as (_ & e & Hlast & Hstage).
  - reflexivity.
  - vm_compute. left. reflexivity.
  - reflexivity.
  - vm_compute. discriminate.
  - apply (settled_lookup _ 1767000000000 _ _ ∅). reflexivity.
  - vm_compute in Hlast. injection Hlast as <-. discriminate Hstage.
Qed.

(** C3. Two requests handled in one millisecond are given one session id,
    and the callbacks of both extractions write to the session the second
    request put under it: while the first extraction is analysing, the
    second reports its capture, and the logged percentage goes from 50 back
    to 25. *)
Theorem C3_shared_id_progress_decreases :
  let w := Demo.world Success Demo.tokens_ok 3.8%float in
  let schedule := Concurrent.collision w w in
  fst (Server.post_extract w Concurrent.now "https://stripe.com" ∅)
    = Server.Started Concurrent.sid /\
  fst (Server.post_extract w Concurrent.now "https://linear.app" ∅)
    = Server.Started Concurrent.sid /\
  schedule = Concurrent.interleaved
               (EventLoop.request w Concurrent.now "https://stripe.com" [])
               (EventLoop.request w Concurrent.now "https://linear.app" []) /\
  exists session,
    EventLoop.run schedule ∅ !! Concurrent.sid = Some session /\
    take 5 (map Server.progress_percent (Server.events session)) = [5; 25; 25; 50; 25] /\
    ~ nondecreasing (map Server.progress_percent (Server.events session)).
Proof.
  intros w schedule.
  split; [reflexivity|]. split; [reflexivity|]. split; [reflexivity|].
  eexists. split; [vm_compute; reflexivity|]. split; [reflexivity|].
  intros Hmono. specialize (Hmono 3%nat 50 25 eq_refl eq_refl). lia.
Qed.

(** C4. Two requests handled in one millisecond, the first for a site whose
    capture fails: the trace of the first run stops at the failed Capture
    entry, its [.then] handler marks the session under the shared id
    'failed', and the [.then] handler of the second run then marks that same
    session 'completed'. *)
Theorem C4_shared_id_failed_run_completed :
  let failing := Demo.world Failed Demo.tokens_ok 3.8%float in
  let schedule := Concurrent.collision failing (Demo.world Success Demo.tokens_ok 3.8%float) in
  fst (Server.post_extract failing Concurrent.now "https://stripe.com" ∅)
    = Server.Started Concurrent.sid /\
  trace_stages
    (snd (extractBrand failing (Some (EventLoop.noting Concurrent.sid))
            "https://stripe.com" [] []))
  = [Demo.failed_capture] /\
  st_name Demo.failed_capture = Capture /\ st_status Demo.failed_capture = Failed /\
  (exists session,
     EventLoop.run (take 7 schedule) ∅ !! Concurrent.sid = Some session /\
     Server.result session
     = Some (ExtractFailed "Capture stage failed: net::ERR_NAME_NOT_RESOLVED") /\
     Server.status session = Server.SessionFailed) /\
  exists session,
    EventLoop.run schedule ∅ !! Concurrent.sid = Some session /\
    Server.status session = Server.Completed.
Proof.
  intros failing schedule.
  split; [reflexivity|]. split; [vm_compute; reflexivity|].
  split; [reflexivity|]. split; [reflexivity|]. split.
  - eexists. split; [vm_compute; reflexivity|]. split; reflexivity.
  - eexists. split; [vm_compute; reflexivity|]. reflexivity.
Qed.

(** C9. Two requests that read the same value from the clock are given the
    same session id, whatever the registry holds when each arrives, and the
    second puts a fresh session under that id in place of the session of the
    first. *)
Theorem C9_same_clock_same_session_id (w : World) (now : Z) (url1 url2 : string)
    (sessions1 sessions2 : gmap string Server.Session) :
  String.eqb url1 EmptyString = false -> url_is_valid w url1 = true ->
  String.eqb url2 EmptyString = false -> url_is_valid w url2 = true ->
  exists sid,
    fst (Server.post_extract w now url1 sessions1) = Server.Started sid /\
    fst (Server.post_extract w now url2 sessions2) = Server.Started sid /\
    snd (Server.post_extract w now url2 sessions2) !! sid = Some Server.sessionData.
Proof.
  intros H1 V1 H2 V2. exists (show_Z now). unfold Server.post_extract.
  rewrite H1, V1, H2, V2. simpl. rewrite lookup_insert_eq. repeat split; reflexivity.
Qed.

Lemma C9_witness :
  String.eqb "https://stripe.com" EmptyString = false /\
  String.eqb "https://linear.app" EmptyString = false /\
  let w := Demo.world Success Demo.tokens_ok 3.8%float in
  let served := snd (Server.serve w 1767000000000 "https://stripe.com" [] ∅) in
  fst (Server.post_extract w 1767000000000 "https://stripe.com" ∅)
    = Server.Started "1767000000000" /\
  fst (Server.post_extract w 1767000000000 "https://linear.app" served)
    = Server.Started "1767000000000" /\
  snd (Server.post_extract w 1767000000000 "https://linear.app" served) !! "1767000000000"
    = Some Server.sessionData.
Proof.
  split; [reflexivity|]. split; [reflexivity|]. intros w served.
  destruct (C9_same_clock_same_session_id w 1767000000000
              "https://stripe.com" "https://linear.app" ∅ served
              eq_refl eq_refl eq_refl eq_refl) as (sid & Hfirst & Hsecond & Hfresh).
  assert (sid = "1767000000000") as ->.
  { vm_compute in Hfirst. injection Hfirst as Hsid. symmetry. exact Hsid. }
  repeat split; assumption.
Defined.

(** Once two requests hold the same id, the callbacks of both extractions
    find the second request's session under it, and the events of both runs
    land in that one log.  Here the first run has reached Analyze when the
    second, started in the same millisecond, reports Capture: the logged
    percentages go 5, 25, 25, 50, 25. *)
Lemma same_id_runs_share_one_log :
  let w := Demo.world Success Demo.tokens_ok 3.8%float in
  let now := 1767000000000 in
  let sid := "1767000000000" in
  let run1 := emitted (fst (extractBrand_body w "https://stripe.com" [] [])) in
  let run2 := emitted (fst (extractBrand_body w "https://linear.app" [] [])) in
  let s1 := Server.deliver sid (take 1 run1)
              (snd (Server.post_extract w now "https://stripe.com" ∅)) in
  let s2 := Server.deliver sid (take 1 run2)
              (snd (Server.post_extract w now "https://linear.app" s1)) in
  let s3 := Server.deliver sid (take 3 (drop 1 run1)) s2 in
  let s4 := Server.deliver sid (take 1 (drop 1 run2)) s3 in
  exists session,
    s4 !! sid = Some session /\
    map Server.pe_stage (Server.events session)
      = [Setup; Capture; Capture; Analyze; Capture] /\
    map Server.progress_percent (Server.events session) = [5; 25; 25; 50; 25] /\
    ~ nondecreasing (map Server.progress_percent (Server.events session)).
Proof.
  eexists. split; [vm_compute; reflexivity|].
  split; [reflexivity|]. split; [reflexivity|].
  intros Hmono. specialize (Hmono 3%nat 50 25 eq_refl eq_refl). lia.
Qed.

(** ** Stage 3 *)

Lemma assoc_get_set k v fields : assoc_get k (assoc_set k v fields) = Some v.
Proof.
  induction fields as [|[k' v'] fields IH]; simpl.
  - rewrite String.eqb_refl. reflexivity.
  - destruct (String.eqb k k') eqn:E; simpl; rewrite ?String.eqb_refl, ?E; auto.
Qed.








(** ** Calls in sequence *)

Lemma map_outcome_Returned {A B} (f : A -> Outcome B) (l : list A) (r : list B) :
  map_outcome f l = Returned r -> Forall2 (fun x y => f x = Returned y) l r.
Proof.
  revert r. induction l as [|x l IH]; intros r; simpl.
  - intros [= <-]. constructor.
  - destruct (f x) as [y|] eqn:Hx; [|discriminate]. simpl.
    destruct (map_outcome f l) as [ys|]; [|discriminate]. simpl.
    intros [= <-]. constructor; [exact Hx|apply IH; reflexivity].
Qed.

Lemma map_outcome_all {A B} (f : A -> Outcome B) (l : list A) :
  Forall (fun x => exists y, f x = Returned y) l -> exists r, map_outcome f l = Returned r.
Proof.
  induction 1 as [|x l [y Hy] _ [r Hr]]; simpl; [eauto|].
  rewrite Hy, Hr. simpl. eauto.
Qed.

Lemma map_outcome_Thrown {A B} (f : A -> Outcome B) (l : list A) :
  Exists (fun x => exists m, f x = Thrown m) l -> exists m, map_outcome f l = Thrown m.
Proof.
  induction 1 as [x l [m Hm]|x l _ [m Hm]]; simpl.
  - rewrite Hm. simpl. eauto.
  - destruct (f x); simpl; [|eauto]. rewrite Hm. simpl. eauto.
Qed.

Lemma map_outcome_cases {A B} (f : A -> Outcome B) (l : list A) :
  (exists r, map_outcome f l = Returned r /\ Forall (fun x => exists y, f x = Returned y) l) \/
  (exists m, map_outcome f l = Thrown m /\ ~ Forall (fun x => exists y, f x = Returned y) l).
Proof.
  induction l as [|x l IH]; simpl.
  - left. eexists. split; [reflexivity|constructor].
  - destruct (f x) as [y|m] eqn:Hx; simpl.
    + destruct IH as [(r & -> & Hall)|(m & -> & Hnot)]; simpl.
      * left. eexists. split; [reflexivity|]. constructor; eauto.
      * right. eexists. split; [reflexivity|]. intros H. apply Hnot.
        apply Forall_inv_tail in H. exact H.
    + right. eexists. split; [reflexivity|]. intros H.
      apply Forall_inv in H. destruct H as [y Hy]. congruence.
Qed.

Lemma map_outcome_length {A B} (f : A -> Outcome B) (l : list A) r :
  map_outcome f l = Returned r -> length r = length l.
Proof.
  intros H. apply map_outcome_Returned in H.
  induction H; simpl; congruence.
Qed.

(** ** The logger *)

Lemma logs_calls ctx calls :
  Logger.logs (fold_left Logger.call calls (Logger.new ctx))
  = map (fun c => {| Logger.timestamp := Logger.call_now c;
                     Logger.level := Logger.call_level c;
                     Logger.context := ctx;
                     Logger.message := Logger.call_message c;
                     Logger.data := if truthy (Logger.call_data c)
                                    then Logger.call_data c else None |}) calls.
Proof.
  assert (forall l,
    Logger.this_context (fold_left Logger.call calls l) = Logger.this_context l /\
    Logger.logs (fold_left Logger.call calls l)
    = (Logger.logs l ++
       map (fun c => {| Logger.timestamp := Logger.call_now c;
                        Logger.level := Logger.call_level c;
                        Logger.context := Logger.this_context l;
                        Logger.message := Logger.call_message c;
                        Logger.data := if truthy (Logger.call_data c)
                                       then Logger.call_data c else None |}) calls)%list)
    as H.
  { induction calls as [|c calls IH]; intros l; simpl.
    - rewrite app_nil_r. split; reflexivity.
    - destruct (IH (Logger.call l c)) as [Hctx Hlogs]. rewrite Hctx, Hlogs.
      split; [reflexivity|].
      unfold Logger.call, Logger._log, Logger._formatMessage. simpl.
      rewrite <- app_assoc. simpl. destruct (truthy (Logger.call_data c)); reflexivity. }
  destruct (H (Logger.new ctx)) as [_ ->]. reflexivity.
Qed.

(** X1. Whatever is logged through an instance (any sequence of calls of
    [info], [warn], [error], [debug], [success], with or without data),
    [getLogsForStage] returns one line per call, in call order, carrying the
    call's timestamp and message, with level [success] reported as [info]
    and every other level unchanged; no line has level [success]. *)
Theorem getLogsForStage_lines (ctx : string) (calls : list Logger.Call) :
  let lines := Logger.getLogsForStage (fold_left Logger.call calls (Logger.new ctx)) in
  lines = map (fun c => {| Logger.sl_timestamp := Logger.call_now c;
                           Logger.sl_level := match Logger.call_level c with
                                              | Logger.success => Logger.info
                                              | other => other
                                              end;
                           Logger.sl_message := Logger.call_message c |}) calls /\
  Forall (fun line => Logger.sl_level line <> Logger.success) lines.
Proof.
  cbv zeta. unfold Logger.getLogsForStage. rewrite logs_calls, map_map. simpl.
  split; [reflexivity|].
  apply Forall_forall. intros line Hin. apply list_elem_of_fmap in Hin.
  destruct Hin as (c & -> & _). simpl. destruct (Logger.call_level c); discriminate.
Qed.

(** ** The progress stream *)

Lemma poll_step id reg c s fresh :
  StatusStream.polling c = true ->
  reg !! id = Some s ->
  Server.events s = (StatusStream.written c ++ fresh)%list ->
  StatusStream.eventIndex c = length (StatusStream.written c) ->
  StatusStream.poll id reg c =
  {| StatusStream.written := Server.events s;
     StatusStream.eventIndex := length (Server.events s);
     StatusStream.polling := negb (StatusStream.finished s);
     StatusStream.closing := StatusStream.closing c || StatusStream.finished s;
     StatusStream.ended := StatusStream.ended c |}.
Proof.
  intros Hpoll Hs Hfresh Hi. unfold StatusStream.poll.
  rewrite Hpoll, Hs, Hi, Hfresh, drop_app_length, length_app. reflexivity.
Qed.

Lemma growing_last id snapshots : forall log r,
  StatusStream.growing id log snapshots -> last snapshots = Some r ->
  exists s, r !! id = Some s.
Proof.
  induction snapshots as [|reg rest IH]; intros log r Hgrow Hlast; [discriminate|].
  simpl in Hgrow. destruct Hgrow as (s & Hs & _ & _ & Hrest).
  destruct rest as [|reg' rest'].
  - injection Hlast as <-. eauto.
  - rewrite last_cons in Hlast.
    destruct (last (reg' :: rest')) as [r'|] eqn:Hl.
    + injection Hlast as <-. eapply IH; eauto.
    + rewrite last_cons in Hl. destruct (last rest'); discriminate.
Qed.

Lemma polls_delivers id snapshots : forall c,
  StatusStream.polling c = true ->
  StatusStream.eventIndex c = length (StatusStream.written c) ->
  StatusStream.growing id (StatusStream.written c) snapshots ->
  StatusStream.written (StatusStream.polls id snapshots c)
  = StatusStream.last_log id (StatusStream.written c) snapshots /\
  StatusStream.ended (StatusStream.polls id snapshots c) = StatusStream.ended c /\
  forall reg s, last snapshots = Some reg -> reg !! id = Some s ->
    StatusStream.polling (StatusStream.polls id snapshots c)
    = negb (StatusStream.finished s) /\
    StatusStream.closing (StatusStream.polls id snapshots c)
    = StatusStream.closing c || StatusStream.finished s.
Proof.
  induction snapshots as [|reg rest IH]; intros c Hpoll Hi Hgrow.
  - split; [reflexivity|]. split; [reflexivity|]. discriminate.
  - simpl in Hgrow. destruct Hgrow as (s & Hs & [fresh Hfresh] & Hfin & Hrest).
    unfold StatusStream.polls. simpl.
    rewrite (poll_step _ _ _ _ _ Hpoll Hs Hfresh Hi).
    destruct rest as [|reg' rest'].
    + simpl. unfold StatusStream.last_log. simpl. rewrite Hs.
      split; [reflexivity|]. split; [reflexivity|].
      intros reg0 s0 [= <-] Hs0. rewrite Hs in Hs0. injection Hs0 as <-. auto.
    + rewrite (Hfin ltac:(discriminate)). cbn [negb].
      match goal with
      | |- context [fold_left _ _ ?c1] =>
          destruct (IH c1 eq_refl eq_refl Hrest) as (Hw & He & Hlast)
      end.
      unfold StatusStream.polls in Hw, He, Hlast. rewrite Hw, He.
      split; [|split; [reflexivity|]].
      * unfold StatusStream.last_log. rewrite !last_cons. cbn [StatusStream.written].
        destruct (last rest') as [r|] eqn:Hl.
        -- destruct (growing_last id (reg' :: rest') _ r Hrest) as [s' Hs'].
           { rewrite last_cons, Hl. reflexivity. }
           rewrite Hs'. reflexivity.
        -- simpl in Hrest. destruct Hrest as (s' & Hs' & _). rewrite Hs'. reflexivity.
      * intros reg0 s0 Hl0 Hs0. rewrite last_cons in Hl0.
        assert (last (reg' :: rest') = Some reg0) as Hl1.
        { destruct (last (reg' :: rest')) eqn:E; [exact Hl0|].
          rewrite last_cons in E. destruct (last rest'); discriminate. }
        destruct (Hlast reg0 s0 Hl1 Hs0) as [Hp Hc]. rewrite Hp, Hc.
        cbn [StatusStream.closing]. rewrite orb_false_r. auto.
Qed.

Lemma status_stream_delivers_log_aux (id : string)
    (activeSessions : gmap string Server.Session) (session : Server.Session)
    (snapshots : list (gmap string Server.Session)) :
  activeSessions !! id = Some session ->
  StatusStream.growing id (Server.events session) snapshots ->
  let c := StatusStream.polls id snapshots (StatusStream.open id activeSessions) in
  StatusStream.written c = StatusStream.last_log id (Server.events session) snapshots /\
  StatusStream.ended c = false /\
  forall latest s, last snapshots = Some latest -> latest !! id = Some s ->
    StatusStream.polling c = negb (StatusStream.finished s) /\
    StatusStream.closing c = StatusStream.finished s.
Proof.
  intros Hs Hgrow c.
  assert (StatusStream.open id activeSessions =
          {| StatusStream.written := Server.events session;
             StatusStream.eventIndex := length (Server.events session);
             StatusStream.polling := true; StatusStream.closing := false;
             StatusStream.ended := false |}) as Hopen.
  { unfold StatusStream.open. rewrite Hs. reflexivity. }
  subst c. rewrite Hopen.
  match goal with
  | |- context [StatusStream.polls _ _ ?c0] =>
      destruct (polls_delivers id snapshots c0 eq_refl eq_refl Hgrow) as (Hw & He & Hlast)
  end.
  split; [exact Hw|]. split; [exact He|]. exact Hlast.
Qed.

(** X2. A client of the status stream is sent every event of its session
    exactly once and in log order: if the session exists when the stream is
    opened and only gains events between firings of the poll timer, then
    after any number of firings the frames written are exactly the session's
    log as the last firing found it, and the response is still open.  The
    firing that finds the session completed or failed cancels the poll timer
    and sets the timer that ends the response. *)
Theorem status_stream_delivers_log (id : string)
    (activeSessions : gmap string Server.Session) (session : Server.Session)
    (snapshots : list (gmap string Server.Session)) :
  activeSessions !! id = Some session ->
  StatusStream.growing id (Server.events session) snapshots ->
  let c := StatusStream.polls id snapshots (StatusStream.open id activeSessions) in
  StatusStream.written c = StatusStream.last_log id (Server.events session) snapshots /\
  StatusStream.ended c = false /\
  forall latest s, last snapshots = Some latest -> latest !! id = Some s ->
    StatusStream.polling c = negb (StatusStream.finished s) /\
    StatusStream.closing c = StatusStream.finished s /\
    (StatusStream.finished s = true ->
     StatusStream.ended (StatusStream.close_timer c) = true /\
     StatusStream.written (StatusStream.close_timer c) = Server.events s).
Proof.
  intros Hs Hgrow c.
  destruct (status_stream_delivers_log_aux id activeSessions session snapshots Hs Hgrow)
    as (Hw & He & Hlast).
  fold c in Hw, He, Hlast.
  split; [exact Hw|]. split; [exact He|].
  intros latest s Hl Hlatest. destruct (Hlast latest s Hl Hlatest) as [Hp Hc].
  split; [exact Hp|]. split; [exact Hc|].
  intros Hfin. unfold StatusStream.close_timer. rewrite Hc, Hfin. simpl.
  split; [reflexivity|]. rewrite Hw. unfold StatusStream.last_log.
  rewrite Hl, Hlatest. reflexivity.
Qed.

Lemma status_stream_delivers_log_witness :
  let sessions := snd (Server.post_extract (Demo.world Failed Demo.tokens_ok 3.8%float)
                         1767000000000 Demo.url ∅) in
  let settled := Server.run_extraction (Demo.world Failed Demo.tokens_ok 3.8%float)
                   "1767000000000" Demo.url [] sessions in
  let c := StatusStream.polls "1767000000000" [settled]
             (StatusStream.open "1767000000000" sessions) in
  sessions !! "1767000000000" = Some Server.sessionData /\
  StatusStream.growing "1767000000000" [] [settled] /\
  map Server.pe_stage (StatusStream.written c) = [Setup; Capture; Error; Complete] /\
  StatusStream.ended c = false.
Proof.
  intros sessions settled c.
  assert (sessions !! "1767000000000" = Some Server.sessionData) as Hs by reflexivity.
  assert (StatusStream.growing "1767000000000" (Server.events Server.sessionData) [settled])
    as Hgrow.
  { simpl. eexists. split; [vm_compute; reflexivity|].
    split; [apply prefix_nil|]. split; [intros H; exfalso; apply H; reflexivity|exact I]. }
  destruct (status_stream_delivers_log "1767000000000" sessions Server.sessionData
              [settled] Hs Hgrow) as (Hw & He & _).
  split; [exact Hs|]. split; [exact Hgrow|]. split; [|exact He].
  fold c in Hw. rewrite Hw. vm_compute. reflexivity.
Defined.

(** ** A served run, as the stream sees it *)

Lemma deliver_lookup sid l : forall (sessions : gmap string Server.Session) s,
  sessions !! sid = Some s ->
  Server.deliver sid l sessions !! sid = Some (observe l s).
Proof.
  induction l as [|[st msg] l IH]; intros sessions s Hs; simpl; [exact Hs|].
  unfold Server.deliver in *. simpl. unfold Server.onProgress at 2. rewrite Hs. simpl.
  apply IH. apply lookup_insert_eq.
Qed.

Lemma observe_app l1 l2 s : observe (l1 ++ l2) s = observe l2 (observe l1 s).
Proof. unfold observe. apply fold_left_app. Qed.

Lemma observe_extends l : forall s,
  Server.events s `prefix_of` Server.events (observe l s) /\
  Server.status (observe l s) = Server.status s.
Proof.
  induction l as [|[st msg] l IH]; intros s; simpl; [split; reflexivity|].
  destruct (IH (Server.record_progress st msg s)) as [Hp Hs]. split; [|exact Hs].
  etransitivity; [|exact Hp]. simpl. apply prefix_app_r. reflexivity.
Qed.

Lemma observe_take_prefix (l : list (Stage * string)) s (a b : nat) :
  (a <= b)%nat ->
  Server.events (observe (take a l) s) `prefix_of` Server.events (observe (take b l) s).
Proof.
  intros Hab.
  rewrite <- (take_drop a (take b l)), take_take, Nat.min_l by exact Hab.
  rewrite observe_app. apply observe_extends.
Qed.

Lemma settle_extends w url adjectives s (k : nat) :
  Server.events (observe (take k (emitted (fst (extractBrand_body w url adjectives [])))) s)
    `prefix_of` Server.events (settle w url adjectives s) /\
  StatusStream.finished (settle w url adjectives s) = true /\
  exists earlier final,
    Server.events (settle w url adjectives s) = (earlier ++ [final])%list /\
    Server.pe_stage final = Complete.
Proof.
  unfold settle.
  destruct (extractBrand_body w url adjectives []) as [j [r|m]]; cbn [fst].
  - split; [|split; [reflexivity|]].
    + etransitivity; [|apply prefix_app_r; reflexivity].
      rewrite <- (take_drop k (emitted j)) at 2. rewrite observe_app.
      apply observe_extends.
    + simpl. eexists _, _. split; reflexivity.
  - split; [|split; [reflexivity|]].
    + etransitivity; [|apply prefix_app_r; reflexivity].
      etransitivity; [|apply prefix_app_r; reflexivity].
      rewrite <- (take_drop k (emitted j)) at 2. rewrite observe_app.
      apply observe_extends.
    + simpl. eexists _, _. split; reflexivity.
Qed.

(** The turns of a request: its POST, the reports of its extraction, and
    the [.then] handler with the result. *)
Lemma request_shape w now url adjectives sid :
  fst (Server.post_extract w now url ∅) = Server.Started sid ->
  exists reports result,
    EventLoop.request w now url adjectives
    = EventLoop.Post w now url ::
      (map (fun '(stage, message) => EventLoop.Progress sid stage message) reports
       ++ [EventLoop.Fulfilled sid result])%list /\
    settle w url adjectives Server.sessionData
    = finish result (observe reports Server.sessionData).
Proof.
  intros Hid. unfold EventLoop.request. rewrite Hid, extraction_turns. unfold settle.
  destruct (extractBrand_body w url adjectives []) as [j [r|m]].
  - exists (emitted j), (ExtractOk r). split; reflexivity.
  - exists (emitted j ++ [(Error, ("Extraction failed: " ++ m)%string)])%list,
           (ExtractFailed m).
    split.
    + rewrite map_app, <- app_assoc. reflexivity.
    + rewrite observe_app. reflexivity.
Qed.

(** What comes before the last element of a list is a piece of what comes
    before it in any other way of cutting the list in two. *)
Lemma app_snoc_split {A} (a b m : list A) (x : A) :
  (a ++ b = m ++ [x])%list -> b <> [] ->
  a = take (length a) m /\ b = (drop (length a) m ++ [x])%list /\ (length a <= length m)%nat.
Proof.
  revert m. induction a as [|y a IH]; intros m Heq Hb; simpl in *.
  - rewrite drop_0. split; [destruct m; reflexivity|]. split; [exact Heq|lia].
  - destruct m as [|z m]; simpl in *.
    + injection Heq as _ Heq. destruct a; [|discriminate Heq].
      simpl in Heq. contradiction.
    + injection Heq as <- Heq. destruct (IH m Heq Hb) as (Ha & Hbm & Hlen).
      split; [f_equal; exact Ha|]. split; [exact Hbm|lia].
Qed.

Lemma filter_concerns_app sid (a b : list EventLoop.Turn) :
  List.filter (EventLoop.concerns sid) (a ++ b)
  = (List.filter (EventLoop.concerns sid) a ++ List.filter (EventLoop.concerns sid) b)%list.
Proof. apply List.filter_app. Qed.

Lemma finish_extends result s :
  Server.events s `prefix_of` Server.events (finish result s) /\
  StatusStream.finished (finish result s) = true /\
  exists final,
    Server.events (finish result s) = (Server.events s ++ [final])%list /\
    Server.pe_stage final = Complete.
Proof.
  split; [apply prefix_app_r; reflexivity|]. split; [destruct result; reflexivity|].
  eexists. split; reflexivity.
Qed.

(** While the turns of a request are taken in batches, its session only
    gains events, and it is finished by the batch that holds the [.then]
    handler and by none before. *)
Lemma growing_batches sid reports result : forall between (n : nat)
    (activeSessions : gmap string Server.Session) final,
  activeSessions !! sid = Some (observe (take n reports) Server.sessionData) ->
  List.filter (EventLoop.concerns sid) (concat between ++ final)
  = (map (fun '(stage, message) => EventLoop.Progress sid stage message) (drop n reports)
     ++ [EventLoop.Fulfilled sid result])%list ->
  List.filter (EventLoop.concerns sid) final <> [] ->
  StatusStream.growing sid
    (Server.events (observe (take n reports) Server.sessionData))
    (snapshots (between ++ [final]) activeSessions) /\
  EventLoop.run (concat between ++ final) activeSessions !! sid
  = Some (finish result (observe reports Server.sessionData)).
Proof.
  induction between as [|batch between IH]; intros n activeSessions final Hs Hturns Hfinal.
  - simpl in *.
    assert (EventLoop.run final activeSessions !! sid
            = Some (finish result (observe reports Server.sessionData))) as Hend.
    { rewrite run_lookup, Hturns, Hs, fold_left_app, on_session_progress. simpl.
      rewrite <- observe_app, take_drop. reflexivity. }
    split; [|exact Hend].
    eexists. split; [exact Hend|]. split.
    + etransitivity; [|apply finish_extends].
      rewrite <- (take_drop n reports) at 2. rewrite observe_app. apply observe_extends.
    + split; [intros H; exfalso; apply H; reflexivity|exact I].
  - simpl in Hturns. rewrite <- app_assoc, filter_concerns_app in Hturns.
    destruct (app_snoc_split _ _ _ _ Hturns) as (Hbatch & Hrest & Hlen).
    { rewrite filter_concerns_app. intros H. apply app_eq_nil in H. tauto. }
    set (m := length (List.filter (EventLoop.concerns sid) batch)) in *.
    rewrite firstn_map in Hbatch. rewrite skipn_map, drop_drop in Hrest.
    assert (EventLoop.run batch activeSessions !! sid
            = Some (observe (take (n + m) reports) Server.sessionData)) as Hnext.
    { rewrite run_lookup, Hbatch, Hs, on_session_progress, <- observe_app.
      rewrite take_take_drop. reflexivity. }
    destruct (IH (n + m)%nat (EventLoop.run batch activeSessions) final Hnext Hrest Hfinal)
      as [Hgrow Hend].
    split.
    + simpl. eexists. split; [exact Hnext|].
      split; [apply observe_take_prefix; lia|].
      split; [|exact Hgrow].
      intros _. unfold StatusStream.finished.
      destruct (observe_extends (take (n + m) reports) Server.sessionData) as [_ ->].
      reflexivity.
    + simpl. rewrite <- app_assoc, run_app. exact Hend.
Qed.

Lemma last_snapshot : forall batches (activeSessions : gmap string Server.Session) final,
  last (snapshots (batches ++ [final]) activeSessions)
  = Some (EventLoop.run (concat batches ++ final) activeSessions).
Proof.
  induction batches as [|batch batches IH]; intros activeSessions final; simpl.
  - reflexivity.
  - rewrite last_cons, IH, <- app_assoc, (run_app batch). reflexivity.
Qed.

(** X3. The POST handler, the extraction it starts and the status stream
    together, for a request that has its session id to itself and whatever
    else the server is doing.  A client opens the stream at some moment
    after the POST; its timer fires after each of any number of further
    batches of turns, and once more after the batch in which the promise is
    settled.  The client has then been sent the whole log of the session,
    each event once and in order, ending with the 'complete' event; that
    last firing cancels the poll timer and sets the timer that ends the
    response. *)
Theorem served_run_streams_whole_log (w : World) (now : Z) (url : string)
    (adjectives : list string) (sid : string)
    (activeSessions : gmap string Server.Session)
    (before : list EventLoop.Turn) (between : list (list EventLoop.Turn))
    (final : list EventLoop.Turn) :
  sole_request (before ++ concat between ++ final) sid w now url adjectives ->
  List.filter (EventLoop.concerns sid) before <> [] ->
  List.filter (EventLoop.concerns sid) final <> [] ->
  let at_open := EventLoop.run before activeSessions in
  let c := StatusStream.polls sid (snapshots (between ++ [final]) at_open)
             (StatusStream.open sid at_open) in
  exists session earlier last_event,
    EventLoop.run (before ++ concat between ++ final) activeSessions !! sid = Some session /\
    StatusStream.written c = Server.events session /\
    Server.events session = (earlier ++ [last_event])%list /\
    Server.pe_stage last_event = Complete /\
    StatusStream.polling c = false /\
    StatusStream.closing c = true /\
    StatusStream.ended c = false.
Proof.
  intros [Hid Hturns] Hbefore Hfinal at_open c.
  destruct (request_shape w now url adjectives sid Hid) as (reports & result & Hshape & _).
  rewrite Hshape, filter_concerns_app in Hturns.
  rewrite app_comm_cons in Hturns.
  destruct (app_snoc_split _ _ _ _ Hturns) as (Hb & Hrest & Hlen).
  { rewrite filter_concerns_app. intros H. apply app_eq_nil in H. tauto. }
  destruct (List.filter (EventLoop.concerns sid) before) as [|t own] eqn:Hown;
    [contradiction|].
  simpl in Hb, Hrest, Hlen. injection Hb as -> Hb.
  rewrite firstn_map in Hb. rewrite skipn_map in Hrest.
  set (n := length own) in *.
  assert (at_open !! sid = Some (observe (take n reports) Server.sessionData)) as Hopen.
  { unfold at_open. rewrite run_lookup, Hown, Hb. simpl. apply on_session_progress. }
  destruct (growing_batches sid reports result between n at_open final Hopen Hrest Hfinal)
    as [Hgrow Hend].
  destruct (status_stream_delivers_log_aux sid at_open _ _ Hopen Hgrow) as (Hw & He & Hlast).
  fold c in Hw, He, Hlast.
  destruct (finish_extends result (observe reports Server.sessionData))
    as (_ & Hfin & last_event & Hev & Hstage).
  destruct (Hlast _ _ (last_snapshot between at_open final) Hend) as (Hp & Hc).
  exists (finish result (observe reports Server.sessionData)),
         (Server.events (observe reports Server.sessionData)), last_event.
  split.
  { rewrite run_app. exact Hend. }
  split.
  { rewrite Hw. unfold StatusStream.last_log. rewrite last_snapshot, Hend. reflexivity. }
  split; [exact Hev|]. split; [exact Hstage|].
  rewrite Hp, Hc, Hfin. auto.
Qed.

Lemma served_run_streams_whole_log_witness :
  let w := Demo.world Success Demo.tokens_ok 3.8%float in
  let a := EventLoop.request w Concurrent.now "https://stripe.com" [] in
  let b := EventLoop.request w (Concurrent.now + 1) "https://linear.app" [] in
  let before := (take 2 a ++ take 2 b)%list in
  let between := [(take 3 (drop 2 a) ++ take 1 (drop 2 b))%list] in
  let final := (drop 5 a ++ drop 3 b)%list in
  let at_open := EventLoop.run before ∅ in
  let c := StatusStream.polls Concurrent.sid (snapshots (between ++ [final]) at_open)
             (StatusStream.open Concurrent.sid at_open) in
  sole_request (before ++ concat between ++ final) Concurrent.sid w Concurrent.now
    "https://stripe.com" [] /\
  List.filter (EventLoop.concerns Concurrent.sid) before <> [] /\
  List.filter (EventLoop.concerns Concurrent.sid) final <> [] /\
  map Server.progress_percent (StatusStream.written c)
  = [5; 25; 25; 50; 50; 75; 75; 90; 90; 90; 90; 100; 100; 100] /\
  StatusStream.closing c = true.
Proof.
  intros w a b before between final at_open c.
  assert (sole_request (before ++ concat between ++ final) Concurrent.sid w Concurrent.now
            "https://stripe.com" []) as Hsole
    by (split; vm_compute; reflexivity).
  assert (List.filter (EventLoop.concerns Concurrent.sid) before <> []) as Hbefore
    by (vm_compute; discriminate).
  assert (List.filter (EventLoop.concerns Concurrent.sid) final <> []) as Hfinal
    by (vm_compute; discriminate).
  destruct (served_run_streams_whole_log w Concurrent.now "https://stripe.com" []
              Concurrent.sid ∅ before between final Hsole Hbefore Hfinal)
    as (session & earlier & last_event & Hsettled & Hw & _ & _ & _ & Hc & _).
  split; [exact Hsole|]. split; [exact Hbefore|]. split; [exact Hfinal|].
  split; [|exact Hc].
  change (StatusStream.written c = Server.events session) in Hw. rewrite Hw.
  vm_compute in Hsettled. injection Hsettled as <-. reflexivity.
Defined.

(** ** Repairing an evaluation *)

Lemma add_missing_fold req : forall acc,
  exists added,
    fold_left
      (fun (acc : list Dimension) '(name, display_name, weight) =>
         if existsb (fun d => String.eqb (dim_name d) name) acc then acc
         else (acc ++ [{| dim_name := name;
                          dim_display_name := display_name;
                          dim_score := Some 3%float;
                          dim_weight := Some weight;
                          dim_justification := "Dimension not evaluated" |}])%list)
      req acc = (acc ++ added)%list /\
    Forall (fun d => dim_score d = Some 3%float /\
                     dim_justification d = "Dimension not evaluated" /\
                     exists weight, dim_weight d = Some weight /\
                       In (dim_name d, dim_display_name d, weight) req)
           added /\
    forall name, In name (map (fun r => fst (fst r)) req) ->
                 exists d, In d (acc ++ added)%list /\ dim_name d = name.
Proof.
  induction req as [|[[name display] weight] req IH]; intros acc.
  - exists []. rewrite app_nil_r. split; [reflexivity|]. split; [constructor|].
    intros name [].
  - cbn [fold_left]. cbn beta iota.
    destruct (existsb (fun d => dim_name d =? name)%string acc) eqn:Hfound.
    + destruct (IH acc) as (added & Hfold & Hdef & Hall). exists added.
      split; [exact Hfold|]. split.
      * eapply List.Forall_impl; [|exact Hdef]. simpl.
        intros d (H1 & H2 & wt & H3 & H4). eauto 7.
      * intros n [<-|Hin]; [|auto].
        apply existsb_exists in Hfound. destruct Hfound as (d & Hd & Heq).
        apply String.eqb_eq in Heq. exists d. split; [|exact Heq].
        apply in_or_app. left. exact Hd.
    + destruct (IH (acc ++ [{| dim_name := name; dim_display_name := display;
                               dim_score := Some 3%float; dim_weight := Some weight;
                               dim_justification := "Dimension not evaluated" |}])%list)
        as (added & Hfold & Hdef & Hall).
      eexists (_ :: added). rewrite Hfold, <- app_assoc. split; [reflexivity|]. split.
      * constructor; [simpl; eauto 7|].
        eapply List.Forall_impl; [|exact Hdef]. simpl.
        intros d (H1 & H2 & wt & H3 & H4). eauto 7.
      * intros n [<-|Hin].
        -- eexists. split; [apply in_or_app; right; left; reflexivity|reflexivity].
        -- destruct (Hall n Hin) as (d & Hd & Hn). exists d. split; [|exact Hn].
           rewrite <- app_assoc in Hd. exact Hd.
Qed.

Lemma add_missing_dimensions_spec dims :
  exists added,
    add_missing_dimensions dims = (dims ++ added)%list /\
    Forall placeholder_dimension added /\
    forall name, In name required_names ->
                 exists d, In d (dims ++ added)%list /\ dim_name d = name.
Proof.
  destruct (add_missing_fold requiredDimensions dims) as (added & Hfold & Hdef & Hall).
  exists added. split; [exact Hfold|]. split; [exact Hdef|exact Hall].
Qed.

Lemma names_present_app (l added : list Dimension) :
  (forall name, In name required_names -> exists d, In d l /\ dim_name d = name) ->
  forall name, In name required_names ->
    exists d, In d (l ++ added)%list /\ dim_name d = name.
Proof.
  intros H name Hn. destruct (H name Hn) as (d & Hd & Heq).
  exists d. split; [apply in_or_app; left; exact Hd|exact Heq].
Qed.

Lemma fix_evaluation_one_dimensions ev e :
  exists added,
    default [] (dimensions (fix_evaluation_one ev e))
    = (default [] (dimensions ev) ++ added)%list /\
    Forall placeholder_dimension added /\
    (is_Some (dimensions ev) -> is_Some (dimensions (fix_evaluation_one ev e))) /\
    (too_few_dimensions e = true ->
     is_Some (dimensions (fix_evaluation_one ev e)) /\
     forall name, In name required_names ->
       exists d, In d (default [] (dimensions ev) ++ added)%list /\ dim_name d = name).
Proof.
  unfold fix_evaluation_one, too_few_dimensions.
  destruct (String.eqb (instancePath e) "/dimensions" && String.eqb (keyword e) "minItems").
  - destruct (add_missing_dimensions_spec (default [] (dimensions ev)))
      as (added & Hadd & Hdef & Hall).
    exists added. cbn [dimensions overall_score]. rewrite Hadd.
    destruct (score_falsy (overall_score ev)); cbn [dimensions default];
      (split; [reflexivity|]); (split; [exact Hdef|]);
      (split; [intros _; eexists; reflexivity|]);
      intros _; (split; [eexists; reflexivity|exact Hall]).
  - exists []. rewrite app_nil_r.
    destruct (dimensions ev) as [dims|] eqn:Hdims.
    + destruct (score_falsy (overall_score ev)); cbn [dimensions]; rewrite ?Hdims;
        (split; [reflexivity|]); (split; [constructor|]);
        (split; [intros _; eexists; reflexivity|discriminate]).
    + rewrite Hdims. split; [reflexivity|]. split; [constructor|].
      split; [intros [? [=]]|discriminate].
Qed.

Lemma fixEvaluationIssues_dimensions errs : forall ev,
  exists added,
    default [] (dimensions (fixEvaluationIssues ev errs))
    = (default [] (dimensions ev) ++ added)%list /\
    Forall placeholder_dimension added /\
    (is_Some (dimensions ev) -> is_Some (dimensions (fixEvaluationIssues ev errs))) /\
    (Exists (fun e => too_few_dimensions e = true) errs ->
     is_Some (dimensions (fixEvaluationIssues ev errs)) /\
     forall name, In name required_names ->
       exists d, In d (default [] (dimensions ev) ++ added)%list /\ dim_name d = name).
Proof.
  unfold fixEvaluationIssues.
  induction errs as [|e errs IH]; intros ev; simpl.
  - exists []. rewrite app_nil_r. split; [reflexivity|]. split; [constructor|].
    split; [auto|]. intros H. inversion H.
  - destruct (fix_evaluation_one_dimensions ev e) as (a1 & H1 & Hd1 & Hs1 & Hc1).
    destruct (IH (fix_evaluation_one ev e)) as (a2 & H2 & Hd2 & Hs2 & Hc2).
    exists (a1 ++ a2)%list. rewrite H2, H1, <- app_assoc.
    split; [reflexivity|]. split; [apply Forall_app; split; assumption|].
    split; [auto|].
    intros Hex. apply Exists_cons in Hex. destruct Hex as [He|Hex].
    + destruct (Hc1 He) as [Hsome Hall]. split; [auto|].
      rewrite app_assoc. apply names_present_app. exact Hall.
    + destruct (Hc2 Hex) as [Hsome Hall]. split; [exact Hsome|].
      rewrite H1, <- app_assoc in Hall. exact Hall.
Qed.

(** X4. When the validator reports [minItems] at "/dimensions", the
    evaluation that [fixEvaluationIssues] leaves has a [dimensions] array in
    which every one of the six rubric dimensions occurs by name.  The
    dimensions the model returned stay in front, unchanged and in order;
    what is appended are placeholders with score 3.0, the rubric weight and
    the justification "Dimension not evaluated". *)
Theorem fixEvaluationIssues_completes_dimensions (ev : Evaluation)
    (errs : list ValidationError) (e : ValidationError) :
  In e errs -> instancePath e = "/dimensions" -> keyword e = "minItems" ->
  exists added,
    dimensions (fixEvaluationIssues ev errs)
    = Some (default [] (dimensions ev) ++ added)%list /\
    Forall placeholder_dimension added /\
    forall name, In name required_names ->
      exists d, In d (default [] (dimensions ev) ++ added)%list /\ dim_name d = name.
Proof.
  intros Hin Hpath Hkw.
  destruct (fixEvaluationIssues_dimensions errs ev) as (added & Hdims & Hdef & _ & Hc).
  destruct Hc as [[dims Hsome] Hall].
  { apply List.Exists_exists. exists e. split; [exact Hin|].
    unfold too_few_dimensions. rewrite Hpath, Hkw. reflexivity. }
  exists added. rewrite Hsome in Hdims. simpl in Hdims. rewrite Hsome, Hdims. auto.
Qed.

Lemma fixEvaluationIssues_completes_dimensions_witness :
  let ev := {| ev_brand_id := None; overall_score := Some 4.1%float; quality_band := good;
               dimensions := Some (firstn 1 Demo.dims); recommendations := None;
               ev_tokens_used := 0 |} in
  let e := {| instancePath := "/dimensions"; keyword := "minItems";
              v_message := "must NOT have fewer than 6 items" |} in
  In e [e] /\
  exists dims, dimensions (fixEvaluationIssues ev [e]) = Some dims /\
               map dim_name dims = required_names.
Proof.
  intros ev e. split; [left; reflexivity|].
  destruct (fixEvaluationIssues_completes_dimensions ev [e] e
              (or_introl eq_refl) eq_refl eq_refl) as (added & Hdims & _).
  eexists. split; [exact Hdims|].
  assert (option_map (map dim_name) (dimensions (fixEvaluationIssues ev [e]))
          = Some required_names) as Hc by (vm_compute; reflexivity).
  rewrite Hdims in Hc. injection Hc as Hc.
  rewrite map_app, Hc. reflexivity.
Defined.

Lemma fix_evaluation_one_band ev e :
  quality_band (fix_evaluation_one ev e) = quality_band ev.
Proof.
  unfold fix_evaluation_one.
  destruct (String.eqb (instancePath e) "/dimensions" && String.eqb (keyword e) "minItems");
    cbn [dimensions overall_score quality_band].
  - destruct (score_falsy (overall_score ev)); reflexivity.
  - destruct (dimensions ev); [|reflexivity].
    destruct (score_falsy (overall_score ev)); reflexivity.
Qed.

Lemma fix_evaluation_one_score_kept ev e :
  score_falsy (overall_score ev) = false ->
  overall_score (fix_evaluation_one ev e) = overall_score ev.
Proof.
  intros Hs. unfold fix_evaluation_one.
  destruct (String.eqb (instancePath e) "/dimensions" && String.eqb (keyword e) "minItems");
    cbn [dimensions overall_score]; rewrite ?Hs; [reflexivity|].
  destruct (dimensions ev); reflexivity.
Qed.

Lemma fix_evaluation_one_recomputed ev e dims :
  too_few_dimensions e = false ->
  dimensions ev = Some dims ->
  score_falsy (overall_score ev) = true \/ overall_score ev = Some (weighted_sum dims) ->
  dimensions (fix_evaluation_one ev e) = Some dims /\
  overall_score (fix_evaluation_one ev e) = Some (weighted_sum dims).
Proof.
  unfold too_few_dimensions, fix_evaluation_one. intros -> Hd Hs. rewrite Hd.
  destruct (score_falsy (overall_score ev)) eqn:Hf; cbn [dimensions overall_score].
  - auto.
  - destruct Hs as [Hs|Hs]; [discriminate|auto].
Qed.

(** X18. [fixEvaluationIssues] never recomputes the band.  The repaired
    evaluation keeps the [quality_band] it came with; an [overall_score]
    that is a number other than 0 and NaN is kept too.  A score that is
    missing (or 0, or NaN) is replaced, at the first error, by the weighted
    sum of the dimension scores: with dimensions present and no [minItems]
    error among the errors, the result carries exactly that sum, next to the
    band that was derived from the missing score. *)
Theorem fixEvaluationIssues_score_and_band (ev : Evaluation) (errs : list ValidationError) :
  quality_band (fixEvaluationIssues ev errs) = quality_band ev /\
  (score_falsy (overall_score ev) = false ->
   overall_score (fixEvaluationIssues ev errs) = overall_score ev) /\
  (forall dims,
     score_falsy (overall_score ev) = true ->
     dimensions ev = Some dims ->
     errs <> [] ->
     Forall (fun e => too_few_dimensions e = false) errs ->
     overall_score (fixEvaluationIssues ev errs) = Some (weighted_sum dims)).
Proof.
  unfold fixEvaluationIssues. split; [|split].
  - revert ev. induction errs as [|e errs IH]; intros ev; simpl; [reflexivity|].
    rewrite IH. apply fix_evaluation_one_band.
  - revert ev. induction errs as [|e errs IH]; intros ev Hs; simpl; [reflexivity|].
    rewrite IH; rewrite fix_evaluation_one_score_kept; auto.
  - intros dims Hs Hd Hne Hall.
    assert (forall errs ev,
              Forall (fun e => too_few_dimensions e = false) errs ->
              dimensions ev = Some dims ->
              overall_score ev = Some (weighted_sum dims) ->
              overall_score (fold_left fix_evaluation_one errs ev)
              = Some (weighted_sum dims)) as Hkeep.
    { clear. induction errs as [|e errs IH]; intros ev Hall Hd Hs; simpl; [exact Hs|].
      inversion Hall as [|? ? He Hrest]; subst.
      destruct (fix_evaluation_one_recomputed ev e dims He Hd (or_intror Hs)) as [Hd' Hs'].
      apply IH; assumption. }
    destruct errs as [|e errs]; [contradiction|]. simpl.
    inversion Hall as [|? ? He Hrest]; subst.
    destruct (fix_evaluation_one_recomputed ev e dims He Hd (or_introl Hs)) as [Hd' Hs'].
    apply Hkeep; assumption.
Qed.

Lemma fixEvaluationIssues_score_and_band_witness :
  let dims := [{| dim_name := "brand_fidelity"; dim_display_name := "Brand Fidelity";
                  dim_score := Some 5%float; dim_weight := Some 1%float;
                  dim_justification := "Faithful" |}] in
  let ev := {| ev_brand_id := None; overall_score := None;
               quality_band := getQualityBand None;
               dimensions := Some dims; recommendations := None; ev_tokens_used := 0 |} in
  let errs := [{| instancePath := EmptyString; keyword := "required";
                  v_message := "must have required property 'overall_score'" |}] in
  score_falsy (overall_score ev) = true /\
  Forall (fun e => too_few_dimensions e = false) errs /\
  overall_score (fixEvaluationIssues ev errs) = Some 5%float /\
  quality_band (fixEvaluationIssues ev errs) = poor.
Proof.
  intros dims ev errs.
  assert (Forall (fun e => too_few_dimensions e = false) errs) as Hall
    by (repeat constructor).
  destruct (fixEvaluationIssues_score_and_band ev errs) as (Hband & _ & Hscore).
  split; [reflexivity|]. split; [exact Hall|]. split.
  - rewrite (Hscore dims eq_refl eq_refl ltac:(discriminate) Hall). reflexivity.
  - rewrite Hband. reflexivity.
Defined.

(** ** Repairing a brand specification *)

Lemma assoc_get_set_ne k k' v fields :
  k <> k' -> assoc_get k (assoc_set k' v fields) = assoc_get k fields.
Proof.
  intros Hne. induction fields as [|[k0 v0] fields IH]; simpl.
  - destruct (String.eqb_spec k k'); [contradiction|reflexivity].
  - destruct (String.eqb_spec k' k0) as [->|Hk0]; simpl.
    + destruct (String.eqb_spec k k0); [contradiction|reflexivity].
    + destruct (String.eqb k k0); [reflexivity|exact IH].
Qed.

Lemma get_set_prop fields k k' v :
  get_prop (set_prop (JObj fields) k' v) k
  = if String.eqb k k' then Some v else get_prop (JObj fields) k.
Proof.
  simpl. destruct (String.eqb_spec k k') as [->|Hne].
  - apply assoc_get_set.
  - apply assoc_get_set_ne. exact Hne.
Qed.

(** One optional repair: [if (!c.k) c.k = v]. *)
Lemma fill_step fields k v :
  truthy (Some v) = true ->
  let c' := if truthy (get_prop (JObj fields) k) then JObj fields
            else set_prop (JObj fields) k v in
  exists fields', c' = JObj fields' /\
    truthy (assoc_get k fields') = true /\
    forall k0, truthy (assoc_get k0 fields) = true \/ k0 <> k ->
               assoc_get k0 fields' = assoc_get k0 fields.
Proof.
  intros Hv c'. subst c'. destruct (truthy (get_prop (JObj fields) k)) eqn:Ht.
  - exists fields. split; [reflexivity|]. split; [exact Ht|]. reflexivity.
  - eexists. split; [reflexivity|]. split.
    + rewrite assoc_get_set. exact Hv.
    + intros k0 [Htr|Hne].
      * destruct (String.eqb_spec k0 k) as [->|Hne].
        -- simpl in Ht. rewrite Ht in Htr. discriminate.
        -- apply assoc_get_set_ne. exact Hne.
      * apply assoc_get_set_ne. exact Hne.
Qed.

Lemma fix_component_fills fields :
  exists fields',
    fix_component (Some (JObj fields)) = Returned (JObj fields') /\
    Forall (fun k => truthy (assoc_get k fields') = true) repair_keys /\
    fills_gaps (JObj fields) (JObj fields').
Proof.
  unfold fix_component.
  destruct (fill_step fields "visual_properties" (JObj []) eq_refl)
    as (f1 & -> & Ht1 & Hk1).
  destruct (fill_step f1 "category" (JStr "other") eq_refl) as (f2 & -> & Ht2 & Hk2).
  assert (truthy (Some (or_else (get_prop (JObj f2) "name") (JStr "Component"))) = true)
    as Hname.
  { unfold or_else. destruct (truthy (get_prop (JObj f2) "name")) eqn:Hn; [|reflexivity].
    destruct (get_prop (JObj f2) "name"); [exact Hn|discriminate]. }
  destruct (fill_step f2 "description" _ Hname) as (f3 & -> & Ht3 & Hk3).
  exists f3. split; [reflexivity|]. split.
  - repeat constructor.
    + rewrite Hk3, Hk2 by (right; discriminate). exact Ht1.
    + rewrite Hk3 by (right; discriminate). exact Ht2.
    + exact Ht3.
  - intros k Hk. simpl.
    assert (forall k', In k' repair_keys \/ ~ In k' repair_keys) as Hdec.
    { intros k'. destruct (in_dec String.string_dec k' repair_keys); auto. }
    destruct Hk as [Htr|Hnot].
    + simpl in Htr. rewrite Hk3, Hk2, Hk1; auto.
      * left. rewrite Hk1 by auto. exact Htr.
      * left. rewrite Hk2, Hk1; auto. left. rewrite Hk1 by auto. exact Htr.
    + assert (k <> "visual_properties" /\ k <> "category" /\ k <> "description")
        as (N1 & N2 & N3).
      { repeat split; intros ->; apply Hnot; simpl; auto. }
      rewrite Hk3, Hk2, Hk1; auto.
Qed.

Lemma fills_gaps_refl c : fills_gaps c c.
Proof. intros k _. reflexivity. Qed.

Lemma fills_gaps_trans a b c : fills_gaps a b -> fills_gaps b c -> fills_gaps a c.
Proof.
  intros Hab Hbc k Hk. rewrite <- (Hab k Hk). apply Hbc.
  destruct Hk as [Ht|Hn]; [left|right; exact Hn].
  rewrite (Hab k (or_introl Ht)). exact Ht.
Qed.

Lemma repair_of_refl s : repair_of s s.
Proof.
  split; [reflexivity|]. intros comps Hc. exists comps.
  split; [exact Hc|]. split; [reflexivity|].
  intros i c Hi. exists c. split; [exact Hi|]. split; [apply fills_gaps_refl|]. eauto.
Qed.

Lemma repair_of_trans a b c : repair_of a b -> repair_of b c -> repair_of a c.
Proof.
  intros [Hab1 Hab2] [Hbc1 Hbc2]. split.
  - intros k Hk. rewrite Hbc1, Hab1 by exact Hk. reflexivity.
  - intros comps Hc. destruct (Hab2 comps Hc) as (comps1 & Hc1 & Hl1 & Hi1).
    destruct (Hbc2 comps1 Hc1) as (comps2 & Hc2 & Hl2 & Hi2).
    exists comps2. split; [exact Hc2|]. split; [congruence|].
    intros i x Hx. destruct (Hi1 i x Hx) as (x1 & Hx1 & Hg1 & Ho1).
    destruct (Hi2 i x1 Hx1) as (x2 & Hx2 & Hg2 & Ho2).
    exists x2. split; [exact Hx2|]. split; [eapply fills_gaps_trans; eassumption|].
    intros fields ->. destruct (Ho1 _ eq_refl) as [f1 ->]. eauto.
Qed.

Lemma fix_component_repair c c' :
  fix_component (Some c) = Returned c' ->
  fills_gaps c c' /\ (forall fields, c = JObj fields -> exists fields', c' = JObj fields').
Proof.
  destruct c as [| | | |items|fields]; try discriminate.
  - intros [= <-]. split; [apply fills_gaps_refl|discriminate].
  - destruct (fix_component_fills fields) as (fields' & Hfix & _ & Hgaps).
    rewrite Hfix. intros [= <-]. split; [exact Hgaps|]. eauto.
Qed.

Lemma fix_at_repair brandSpec index repaired :
  fix_at brandSpec index = Returned repaired -> repair_of brandSpec repaired.
Proof.
  unfold fix_at. destruct brandSpec as [| | | | |top]; try discriminate.
  destruct (get_prop (JObj top) "components") as [[| | | |comps|fields]|] eqn:Hc;
    try discriminate.
  - destruct (comps !! N.to_nat index) as [c|] eqn:Hi; [|discriminate].
    destruct (fix_component (Some c)) as [c'|] eqn:Hfix; [|discriminate].
    simpl. intros [= <-]. destruct (fix_component_repair _ _ Hfix) as [Hgaps Hobj].
    split.
    + intros k Hk. apply assoc_get_set_ne. exact Hk.
    + intros comps0 Hc0. simpl in Hc, Hc0. rewrite Hc in Hc0. injection Hc0 as <-.
      eexists. split; [apply assoc_get_set|]. split; [apply length_insert|].
      intros i x Hx. destruct (decide (i = N.to_nat index)) as [->|Hne].
      * rewrite Hi in Hx. injection Hx as <-. exists c'.
        split; [|auto]. apply list_lookup_insert_eq. eapply lookup_lt_Some. exact Hi.
      * exists x. rewrite list_lookup_insert_ne by auto.
        split; [exact Hx|]. split; [apply fills_gaps_refl|eauto].
  - destruct (fix_component (assoc_get (show_Z (Z.of_N index)) fields)) as [c'|];
      [|discriminate].
    simpl. intros [= <-]. split.
    + intros k Hk. apply assoc_get_set_ne. exact Hk.
    + intros comps0 Hc0. simpl in Hc, Hc0. rewrite Hc in Hc0. discriminate.
Qed.

Lemma fix_one_repair brandSpec e repaired :
  fix_one brandSpec e = Returned repaired -> repair_of brandSpec repaired.
Proof.
  unfold fix_one.
  destruct (includes "/components/" (instancePath e) && String.eqb (keyword e) "required").
  - destruct (match_components (instancePath e)) as [index|].
    + apply fix_at_repair.
    + intros [= <-]. apply repair_of_refl.
  - intros [= <-]. apply repair_of_refl.
Qed.

Lemma fixValidationIssues_repair errs : forall brandSpec repaired,
  fixValidationIssues brandSpec errs = Returned repaired -> repair_of brandSpec repaired.
Proof.
  induction errs as [|e errs IH]; intros brandSpec repaired; simpl.
  - intros [= <-]. apply repair_of_refl.
  - destruct (fix_one brandSpec e) as [s1|] eqn:H1; [|discriminate]. simpl.
    intros H. eapply repair_of_trans; [apply (fix_one_repair _ _ _ H1)|apply IH; exact H].
Qed.

(** X5. [fixValidationIssues] only fills gaps.  Whenever it returns, the
    document has the same top-level properties apart from [components], the
    same number of components, and each component keeps every property it
    had: the only values that can differ are [visual_properties],
    [category] and [description] where the component had none or a falsy
    one. *)
Theorem fixValidationIssues_fills_gaps_only (brandSpec repaired : json)
    (errs : list ValidationError) (comps : list json) :
  fixValidationIssues brandSpec errs = Returned repaired ->
  get_prop brandSpec "components" = Some (JArr comps) ->
  (forall k, k <> "components" -> get_prop repaired k = get_prop brandSpec k) /\
  exists comps',
    get_prop repaired "components" = Some (JArr comps') /\
    length comps' = length comps /\
    forall (i : nat) c, comps !! i = Some c ->
      exists c', comps' !! i = Some c' /\
        forall k, truthy (get_prop c k) = true \/ ~ In k repair_keys ->
                  get_prop c' k = get_prop c k.
Proof.
  intros Hfix Hc. destruct (fixValidationIssues_repair _ _ _ Hfix) as [Htop Hcomps].
  split; [exact Htop|].
  destruct (Hcomps comps Hc) as (comps' & Hc' & Hlen & Hi).
  exists comps'. split; [exact Hc'|]. split; [exact Hlen|].
  intros i c Hic. destruct (Hi i c Hic) as (c' & Hc'i & Hgaps & _). eauto.
Qed.

Lemma fixValidationIssues_fills_gaps_only_witness :
  exists repaired comps,
    fixValidationIssues Demo.mapped_unnamed (errors (Demo.check Demo.mapped_unnamed))
    = Returned repaired /\
    get_prop Demo.mapped_unnamed "components" = Some (JArr comps) /\
    get_prop repaired "version" = get_prop Demo.mapped_unnamed "version" /\
    exists comps', get_prop repaired "components" = Some (JArr comps') /\
                   length comps' = length comps.
Proof.
  eexists. eexists.
  assert (fixValidationIssues Demo.mapped_unnamed (errors (Demo.check Demo.mapped_unnamed))
          = Returned _) as Hfix by (vm_compute; reflexivity).
  assert (get_prop Demo.mapped_unnamed "components" = Some (JArr _)) as Hc
    by (vm_compute; reflexivity).
  destruct (fixValidationIssues_fills_gaps_only _ _ _ _ Hfix Hc)
    as (Htop & comps' & Hc' & Hlen & _).
  split; [exact Hfix|]. split; [exact Hc|].
  split; [apply Htop; discriminate|]. eauto.
Defined.

Lemma fix_one_completes brandSpec e index comps fields :
  component_required e = true ->
  match_components (instancePath e) = Some index ->
  get_prop brandSpec "components" = Some (JArr comps) ->
  comps !! N.to_nat index = Some (JObj fields) ->
  exists repaired fields',
    fix_one brandSpec e = Returned repaired /\
    component_at repaired index = Some (JObj fields') /\
    Forall (fun k => truthy (assoc_get k fields') = true) repair_keys /\
    fills_gaps (JObj fields) (JObj fields').
Proof.
  unfold component_required. intros Hreq Hm Hc Hi.
  unfold fix_one, fix_at. rewrite Hreq, Hm, Hc, Hi.
  destruct (fix_component_fills fields) as (fields' & Hfix & Hall & Hgaps).
  rewrite Hfix. simpl. eexists _, fields'. split; [reflexivity|].
  split; [|auto].
  unfold component_at. destruct brandSpec as [| | | | |top]; try discriminate.
  simpl. rewrite assoc_get_set.
  apply list_lookup_insert_eq. eapply lookup_lt_Some. exact Hi.
Qed.

Lemma fills_gaps_keeps_truthy fields fields' :
  fills_gaps (JObj fields) (JObj fields') ->
  Forall (fun k => truthy (assoc_get k fields) = true) repair_keys ->
  Forall (fun k => truthy (assoc_get k fields') = true) repair_keys.
Proof.
  intros Hgaps Hall. eapply List.Forall_impl; [|exact Hall].
  intros k Hk. simpl in Hk. pose proof (Hgaps k (or_introl Hk)) as H. simpl in H.
  rewrite H. exact Hk.
Qed.

Lemma fills_gaps_name fields fields' :
  fills_gaps (JObj fields) (JObj fields') ->
  assoc_get "name" fields' = assoc_get "name" fields.
Proof.
  intros Hgaps. apply (Hgaps "name"). right. simpl.
  intros [H|[H|[H|[]]]]; discriminate H.
Qed.

(** X6. A component that a 'required' error points at comes out of
    [fixValidationIssues] with [visual_properties], [category] and
    [description] all present and truthy, whatever the other errors of the
    list are.  Its [name] is what it was: a missing name is never supplied,
    so a violation for [name] survives the repair. *)
Theorem fixValidationIssues_completes_addressed (brandSpec repaired : json)
    (errs : list ValidationError) (e : ValidationError) (index : N)
    (comps : list json) (fields : list (string * json)) :
  fixValidationIssues brandSpec errs = Returned repaired ->
  In e errs ->
  component_required e = true ->
  match_components (instancePath e) = Some index ->
  get_prop brandSpec "components" = Some (JArr comps) ->
  comps !! N.to_nat index = Some (JObj fields) ->
  exists fields',
    component_at repaired index = Some (JObj fields') /\
    Forall (fun k => truthy (assoc_get k fields') = true) repair_keys /\
    assoc_get "name" fields' = assoc_get "name" fields.
Proof.
  revert brandSpec comps fields.
  induction errs as [|e0 errs IH]; intros brandSpec comps fields Hfix Hin Hreq Hm Hc Hi;
    [destruct Hin|].
  simpl in Hfix. destruct (fix_one brandSpec e0) as [s1|] eqn:H1; [|discriminate].
  simpl in Hfix. destruct Hin as [->|Hin].
  - destruct (fix_one_completes _ _ _ _ _ Hreq Hm Hc Hi)
      as (s1' & f1 & H1' & Hat & Hall & Hgaps).
    rewrite H1 in H1'. injection H1' as <-.
    destruct (fixValidationIssues_repair _ _ _ Hfix) as [_ Hrest].
    unfold component_at in Hat.
    destruct (get_prop s1 "components") as [[| | | |comps1|]|] eqn:Hc1; try discriminate.
    destruct (Hrest comps1 eq_refl) as (comps2 & Hc2 & _ & Hi2).
    destruct (Hi2 _ _ Hat) as (c2 & Hc2i & Hg2 & Ho2).
    destruct (Ho2 _ eq_refl) as [f2 ->].
    exists f2. unfold component_at. rewrite Hc2. split; [exact Hc2i|]. split.
    + eapply fills_gaps_keeps_truthy; eassumption.
    + rewrite (fills_gaps_name _ _ Hg2). apply fills_gaps_name. exact Hgaps.
  - destruct (fix_one_repair _ _ _ H1) as [_ Hfirst].
    destruct (Hfirst comps Hc) as (comps1 & Hc1 & _ & Hi1).
    destruct (Hi1 _ _ Hi) as (c1 & Hc1i & Hg1 & Ho1).
    destruct (Ho1 _ eq_refl) as [f1 ->].
    destruct (IH s1 comps1 f1 Hfix Hin Hreq Hm Hc1 Hc1i) as (f' & Hat & Hall & Hname).
    exists f'. split; [exact Hat|]. split; [exact Hall|].
    rewrite Hname. apply fills_gaps_name. exact Hg1.
Qed.

Lemma fixValidationIssues_completes_addressed_witness :
  exists repaired e comps fields fields',
    fixValidationIssues Demo.mapped_unnamed (errors (Demo.check Demo.mapped_unnamed))
    = Returned repaired /\
    In e (errors (Demo.check Demo.mapped_unnamed)) /\
    component_required e = true /\
    match_components (instancePath e) = Some 0%N /\
    get_prop Demo.mapped_unnamed "components" = Some (JArr comps) /\
    comps !! 0%nat = Some (JObj fields) /\
    component_at repaired 0 = Some (JObj fields') /\
    assoc_get "description" fields' = Some (JStr "Component") /\
    assoc_get "name" fields' = None.
Proof.
  eexists. eexists. eexists. eexists.
  assert (fixValidationIssues Demo.mapped_unnamed (errors (Demo.check Demo.mapped_unnamed))
          = Returned _) as Hfix by (vm_compute; reflexivity).
  assert (In _ (errors (Demo.check Demo.mapped_unnamed))) as Hin
    by (vm_compute; left; reflexivity).
  assert (get_prop Demo.mapped_unnamed "components" = Some (JArr _)) as Hc
    by (vm_compute; reflexivity).
  destruct (fixValidationIssues_completes_addressed _ _ _ _ 0%N _ _ Hfix Hin
              eq_refl eq_refl Hc eq_refl) as (fields' & Hat & Hall & Hname).
  exists fields'.
  split; [exact Hfix|]. split; [exact Hin|]. split; [reflexivity|].
  split; [reflexivity|]. split; [exact Hc|]. split; [reflexivity|].
  split; [exact Hat|].
  vm_compute in Hat. injection Hat as <-. split; reflexivity.
Defined.

(** ** Synthesized components and the repair *)

Lemma or_else_truthy v fallback :
  truthy (Some fallback) = true -> truthy (Some (or_else v fallback)) = true.
Proof.
  intros Hf. unfold or_else. destruct (truthy v) eqn:Hv; [|exact Hf].
  destruct v; [exact Hv|discriminate].
Qed.

Lemma assoc_get_field_ne k k' v rest :
  k <> k' -> assoc_get k (field k' v ++ rest) = assoc_get k rest.
Proof.
  intros Hne. destruct v as [d|]; simpl; [|reflexivity].
  destruct (String.eqb_spec k k'); [contradiction|reflexivity].
Qed.

Lemma synthesizeComponent_shape w comp c :
  synthesizeComponent w comp = Returned c ->
  exists fields,
    c = JObj fields /\
    assoc_get "name" fields = get_prop comp "name" /\
    Forall (fun k => truthy (assoc_get k fields) = true)
           ["category"; "visual_properties"; "states"; "example_html"].
Proof.
  unfold synthesizeComponent.
  destruct (get_prop_strict (Some comp) "name") as [name|m] eqn:Hn; [|discriminate].
  assert (name = get_prop comp "name") as Hname.
  { unfold get_prop_strict in Hn. destruct comp; congruence. }
  cbn [obind].
  destruct (truthy (get_prop comp "example_html")) eqn:Hex.
  - cbn [obind]. intros [= <-]. eexists. split; [reflexivity|]. split.
    + rewrite <- Hname. destruct name as [d|]; simpl; reflexivity.
    + repeat constructor; rewrite assoc_get_field_ne by discriminate; cbn;
        try (apply or_else_truthy; reflexivity).
      destruct (get_prop comp "example_html"); [exact Hex|discriminate].
  - destruct name as [[| | |n| |]|]; cbn [obind]; try discriminate.
    intros [= <-]. eexists. split; [reflexivity|]. split; [rewrite <- Hname; reflexivity|].
    repeat constructor; cbn; try (apply or_else_truthy; reflexivity).
Qed.

(** X19. On a synthesized document only one of the three repairs can ever
    fire.  Every component that [synthesizeComponents] returns is an object
    with [category], [visual_properties], [states] and [example_html]
    present and truthy; there is one per token.  So when
    [fixValidationIssues] repairs such a component, the only property it can
    change is [description]. *)
Theorem synthesized_component_repair (w : World) (tokens : json) (comps : list json) :
  synthesizeComponents w tokens = Returned (JArr comps) ->
  (forall input, get_prop tokens "components" = Some (JArr input) ->
                 length comps = length input) /\
  forall c, In c comps ->
    exists fields,
      c = JObj fields /\
      Forall (fun k => truthy (assoc_get k fields) = true)
             ["category"; "visual_properties"; "states"; "example_html"] /\
      exists fields',
        fix_component (Some c) = Returned (JObj fields') /\
        forall k, k <> "description" -> assoc_get k fields' = assoc_get k fields.
Proof.
  intros Hsyn.
  assert (exists input, map_outcome (synthesizeComponent w) input = Returned comps /\
                        (forall input', get_prop tokens "components" = Some (JArr input') ->
                                        length comps = length input')) as (input & Hmap & Hlen).
  { unfold synthesizeComponents in Hsyn.
    destruct (get_prop tokens "components") as [[|b|x|s|[|c0 input]|fields]|] eqn:Hc.
    - simpl in Hsyn. injection Hsyn as <-. exists []. split; [reflexivity|]. intros ? [=].
    - destruct b; simpl in Hsyn; [discriminate|].
      injection Hsyn as <-. exists []. split; [reflexivity|]. intros ? [=].
    - simpl in Hsyn. destruct (num_truthy x); [discriminate|].
      injection Hsyn as <-. exists []. split; [reflexivity|]. intros ? [=].
    - simpl in Hsyn. destruct (negb (String.eqb s EmptyString)); [discriminate|].
      injection Hsyn as <-. exists []. split; [reflexivity|]. intros ? [=].
    - injection Hsyn as <-. exists []. split; [reflexivity|]. intros ? [= <-]. reflexivity.
    - destruct (map_outcome (synthesizeComponent w) (c0 :: input)) as [l|] eqn:Hm;
        [|discriminate].
      simpl in Hsyn. injection Hsyn as <-. exists (c0 :: input). split; [exact Hm|].
      intros ? [= <-]. apply (map_outcome_length _ _ _ Hm).
    - destruct (assoc_get "length" fields) as [[| |x| | |]|]; try discriminate.
      destruct (PrimFloat.eqb x 0); [|discriminate].
      injection Hsyn as <-. exists []. split; [reflexivity|]. intros ? [=].
    - simpl in Hsyn. injection Hsyn as <-. exists []. split; [reflexivity|]. intros ? [=]. }
  split; [exact Hlen|].
  intros c Hin. apply map_outcome_Returned in Hmap.
  apply list_elem_of_In in Hin.
  destruct (proj1 (list_elem_of_lookup _ _) Hin) as [i Hi].
  destruct (Forall2_lookup_r _ _ _ _ _ Hmap Hi) as (comp & _ & Hc).
  destruct (synthesizeComponent_shape w comp c Hc) as (fields & -> & _ & Hall).
  exists fields. split; [reflexivity|]. split; [exact Hall|].
  destruct (fix_component_fills fields) as (fields' & Hfix & _ & Hgaps).
  exists fields'. split; [exact Hfix|].
  intros k Hk.
  inversion Hall as [|? ? Hcat Hrest]; subst.
  inversion Hrest as [|? ? Hvis _]; subst.
  destruct (String.eqb_spec k "category") as [->|N1];
    [exact (Hgaps "category" (or_introl Hcat))|].
  destruct (String.eqb_spec k "visual_properties") as [->|N2];
    [exact (Hgaps "visual_properties" (or_introl Hvis))|].
  apply (Hgaps k). right. simpl. intros [H|[H|[H|[]]]]; congruence.
Qed.

Lemma synthesized_component_repair_witness :
  exists comps,
    synthesizeComponents (Demo.world Success Demo.tokens_unnamed 3.8%float)
      Demo.tokens_unnamed = Returned (JArr comps) /\
    length comps = 1%nat /\
    exists fields fields',
      comps = [JObj fields] /\
      fix_component (Some (JObj fields)) = Returned (JObj fields') /\
      assoc_get "description" fields = Some (JStr EmptyString) /\
      assoc_get "description" fields' = Some (JStr "Component") /\
      assoc_get "category" fields' = assoc_get "category" fields.
Proof.
  eexists.
  assert (synthesizeComponents (Demo.world Success Demo.tokens_unnamed 3.8%float)
            Demo.tokens_unnamed = Returned (JArr _)) as Hsyn by (vm_compute; reflexivity).
  destruct (synthesized_component_repair _ _ _ Hsyn) as [Hlen Hall].
  split; [exact Hsyn|]. split; [reflexivity|].
  destruct (Hall _ (or_introl eq_refl)) as (fields & Hc & _ & fields' & Hfix & Hkeep).
  injection Hc as <-. eexists _, fields'. split; [reflexivity|]. split; [exact Hfix|].
  split; [reflexivity|]. split.
  - vm_compute in Hfix. injection Hfix as <-. reflexivity.
  - apply Hkeep. discriminate.
Defined.

(** ** Stage 2 *)

Lemma str_le_total : Total str_le.
Proof. intros a b. apply String.leb_total. Qed.

Lemma Sorted_take {A} (R : relation A) (l : list A) : forall n,
  Sorted R l -> Sorted R (take n l).
Proof.
  induction l as [|x l IH]; intros [|n] Hs; simpl; try constructor.
  - apply IH. apply Sorted_inv in Hs. tauto.
  - apply Sorted_inv in Hs. destruct Hs as [_ Hhd].
    destruct l as [|y l]; destruct n; simpl; constructor.
    apply HdRel_inv in Hhd. exact Hhd.
Qed.

(** The files [loadScreenshots] goes on to read. *)
Lemma loadScreenshots_chosen env files :
  Analyze.readdir env = Returned files ->
  let chosen :=
    take 5 (merge_sort str_le
              (filter (fun f => ends_with ".png" f && negb (String.eqb f "full_page.png"))
                 files)) in
  Analyze.loadScreenshots env = [] \/
  (map Analyze.name (Analyze.loadScreenshots env) = chosen /\
   Forall (fun s => Analyze.mediaType s = "image/png" /\
                    Analyze.readFile env (Analyze.name s) = Returned (Analyze.data s))
          (Analyze.loadScreenshots env)).
Proof.
  intros Hdir chosen. unfold Analyze.loadScreenshots. rewrite Hdir. fold chosen.
  destruct (map_outcome _ chosen) as [shots|] eqn:Hmap; [|left; reflexivity].
  right. apply map_outcome_Returned in Hmap.
  induction Hmap as [|file s chosen' shots' Hs _ [IHn IHf]]; [split; constructor|].
  destruct (Analyze.readFile env file) as [d|] eqn:Hd; [|discriminate].
  simpl in Hs. injection Hs as <-. simpl. split; [f_equal; exact IHn|].
  constructor; [auto|exact IHf].
Qed.

(** What is loaded is at most five of the eligible files of the directory. *)
Lemma loadScreenshots_eligible (env : Analyze.Env) :
  (length (Analyze.loadScreenshots env) <= 5)%nat /\
  Forall (fun s =>
            exists files,
              Analyze.readdir env = Returned files /\
              Analyze.name s ∈
                filter (fun f => ends_with ".png" f && negb (String.eqb f "full_page.png"))
                  files)
         (Analyze.loadScreenshots env).
Proof.
  destruct (Analyze.readdir env) as [files|m] eqn:Hdir.
  2:{ unfold Analyze.loadScreenshots. rewrite Hdir. simpl. split; [lia|constructor]. }
  destruct (loadScreenshots_chosen env files Hdir) as [->|[Hnames _]].
  { simpl. split; [lia|constructor]. }
  split.
  - rewrite <- (length_map Analyze.name), Hnames, length_take. lia.
  - apply Forall_forall. intros s Hs. exists files. split; [reflexivity|].
    assert (In (Analyze.name s) (map Analyze.name (Analyze.loadScreenshots env))) as Hn
      by (apply in_map, list_elem_of_In; exact Hs).
    rewrite Hnames in Hn. apply list_elem_of_In, (subseteq_take 5) in Hn.
    rewrite (merge_sort_Permutation str_le) in Hn. exact Hn.
Qed.

(** X7. [loadScreenshots] hands the model at most five images.  Each is a
    file of the screenshots directory whose name ends in ".png" and is not
    "full_page.png", read successfully, labelled "image/png"; they come in
    ascending order of name. *)
Theorem loadScreenshots_selection (env : Analyze.Env) :
  let shots := Analyze.loadScreenshots env in
  (length shots <= 5)%nat /\
  Sorted str_le (map Analyze.name shots) /\
  Forall (fun s =>
            ends_with ".png" (Analyze.name s) = true /\
            Analyze.name s <> "full_page.png" /\
            Analyze.mediaType s = "image/png" /\
            Analyze.readFile env (Analyze.name s) = Returned (Analyze.data s) /\
            exists files, Analyze.readdir env = Returned files /\ In (Analyze.name s) files)
         shots.
Proof.
  intros shots. subst shots.
  destruct (loadScreenshots_eligible env) as [Hlen Heligible].
  split; [exact Hlen|].
  destruct (Analyze.readdir env) as [files|m] eqn:Hdir.
  2:{ unfold Analyze.loadScreenshots. rewrite Hdir. simpl. split; constructor. }
  destruct (loadScreenshots_chosen env files Hdir) as [Hnone|[Hnames Hread]].
  { rewrite Hnone. split; constructor. }
  split.
  - rewrite Hnames. apply Sorted_take. apply Sorted_merge_sort. apply str_le_total.
  - apply Forall_forall. intros s Hs.
    rewrite Forall_forall in Hread, Heligible.
    destruct (Hread s Hs) as [Hmt Hrd].
    destruct (Heligible s Hs) as (files' & [= <-] & Hin).
    apply list_elem_of_filter in Hin. destruct Hin as [Hcond Hfiles].
    apply Is_true_true in Hcond. apply andb_true_iff in Hcond.
    destruct Hcond as [Hpng Hfull].
    split; [exact Hpng|]. split.
    { intros Heq. rewrite Heq in Hfull. discriminate. }
    split; [exact Hmt|]. split; [exact Hrd|].
    exists files. split; [reflexivity|]. apply list_elem_of_In. exact Hfiles.
Qed.

(** X8. [loadScreenshots] is all or nothing.  With the directory listed, the
    files it tries are the first five eligible names in order; if every one
    of them can be read it returns exactly those, and if any one cannot it
    returns no screenshot at all, dropping the ones already read. *)
Theorem loadScreenshots_all_or_nothing (env : Analyze.Env) (files : list string) :
  Analyze.readdir env = Returned files ->
  let chosen :=
    take 5 (merge_sort str_le
              (filter (fun f => ends_with ".png" f && negb (String.eqb f "full_page.png"))
                 files)) in
  let readable := fun f => exists base64, Analyze.readFile env f = Returned base64 in
  (Forall readable chosen -> map Analyze.name (Analyze.loadScreenshots env) = chosen) /\
  (~ Forall readable chosen -> Analyze.loadScreenshots env = []).
Proof.
  intros Hdir chosen readable.
  pose proof (loadScreenshots_chosen env files Hdir) as Hchosen. cbv zeta in Hchosen.
  fold chosen in Hchosen.
  unfold Analyze.loadScreenshots in *. rewrite Hdir in *. fold chosen in Hchosen |- *.
  set (read := fun file : string =>
         obind (Analyze.readFile env file)
           (fun base64 : string =>
              Returned {| Analyze.name := file; Analyze.mediaType := "image/png";
                          Analyze.data := base64 |})) in *.
  assert (forall f, (exists y, read f = Returned y) <-> readable f) as Hrd.
  { intros f. unfold read, readable. destruct (Analyze.readFile env f); simpl.
    - split; eauto.
    - split; intros [? [=]]. }
  destruct (map_outcome_cases read chosen) as [(r & Hr & Hall)|(m & Hm & Hnot)].
  - rewrite Hr in *. split.
    + intros _. destruct Hchosen as [->|[Hn _]]; [|exact Hn].
      apply map_outcome_Returned in Hr. inversion Hr. reflexivity.
    + intros Hno. exfalso. apply Hno. eapply List.Forall_impl; [|exact Hall].
      intros f. apply Hrd.
  - rewrite Hm. split; [|reflexivity].
    intros Hall. exfalso. apply Hnot. eapply List.Forall_impl; [|exact Hall].
    intros f. apply Hrd.
Qed.

Lemma loadScreenshots_all_or_nothing_witness :
  Analyze.readdir (AnalyzeDemo.env "none") = Returned AnalyzeDemo.files /\
  map Analyze.name (Analyze.loadScreenshots (AnalyzeDemo.env "none"))
  = ["hero.png"; "section_1.png"; "section_2.png"] /\
  Analyze.loadScreenshots (AnalyzeDemo.env "section_2.png") = [].
Proof.
  split; [reflexivity|]. split.
  - destruct (loadScreenshots_all_or_nothing (AnalyzeDemo.env "none") AnalyzeDemo.files
                eq_refl) as [Hall _].
    rewrite Hall; [vm_compute; reflexivity|].
    vm_compute. repeat constructor; eexists; reflexivity.
  - destruct (loadScreenshots_all_or_nothing (AnalyzeDemo.env "section_2.png")
                AnalyzeDemo.files eq_refl) as [_ Hnone].
    apply Hnone. intros Hall. vm_compute in Hall.
    repeat match goal with
      | H : Forall _ (_ :: _) |- _ => apply Forall_cons in H; destruct H as [? H]
      end.
    repeat match goal with
      | H : exists _, Thrown _ = Returned _ |- _ => destruct H as [? H]; discriminate H
      | H : exists _, _ |- _ => clear H
      end.
Defined.

Lemma map_outcome_strings (f : json -> Outcome string) (words : list string) :
  (forall s, f (JStr s) = Returned s) ->
  map_outcome f (map JStr words) = Returned words.
Proof.
  intros Hf. induction words as [|word words IH]; simpl; [reflexivity|].
  rewrite Hf, IH. reflexivity.
Qed.

(** The prompt can always be built from an array of strings. *)
Lemma buildAnalysisPrompt_strings env captureData (words : list string) :
  exists prompt,
    Analyze.buildAnalysisPrompt env captureData (JArr (map JStr words)) = Returned prompt.
Proof.
  unfold Analyze.buildAnalysisPrompt, Analyze.adjectives_text.
  destruct words as [|word words]; simpl; [eexists; reflexivity|].
  unfold Analyze.join. simpl.
  rewrite (map_outcome_strings (Analyze.element_text env) words) by reflexivity.
  simpl. eexists. reflexivity.
Qed.

(** X9. [analyzeWithClaude] sends the model at most one request, and a
    request carries between one and five images, none of them
    "full_page.png".  When no screenshot could be loaded no request is
    sent: the stage fails with the single error "No screenshots available
    for analysis" and reports zero tokens.  When screenshots were loaded,
    the request is sent exactly when the prompt can be built from
    [adjectives]; if building it throws (as it does for null or for a string
    that is not empty, which have no [join] to call) no request is sent
    either and the stage fails with the message of that exception.  From an
    array of strings the prompt is always built. *)
Theorem analyzeWithClaude_requests (env : Analyze.Env)
    (captureData : Analyze.CaptureData) (adjectives : json) :
  let run := Analyze.analyze_try env captureData adjectives in
  let result := Analyze.analyzeWithClaude env captureData adjectives in
  let failed_with message :=
    an_status result = Failed /\
    an_errors result = [{| err_code := "ANALYSIS_ERROR"; err_message := message;
                           err_recoverable := false |}] /\
    option_map tokens_input (an_metrics result) = Some 0 /\
    option_map tokens_output (an_metrics result) = Some 0 /\
    an_data result = None in
  (length (Analyze.requests run) <= 1)%nat /\
  Forall (fun request =>
            (1 <= length (fst request) <= 5)%nat /\
            Forall (fun s => Analyze.name s <> "full_page.png") (fst request))
         (Analyze.requests run) /\
  (Analyze.loadScreenshots env = [] ->
   Analyze.requests run = [] /\ failed_with "No screenshots available for analysis") /\
  (Analyze.loadScreenshots env <> [] ->
   match Analyze.buildAnalysisPrompt env captureData adjectives with
   | Returned prompt => Analyze.requests run = [(Analyze.loadScreenshots env, prompt)]
   | Thrown message => Analyze.requests run = [] /\ failed_with message
   end) /\
  (forall words, adjectives = JArr (map JStr words) ->
   exists prompt,
     Analyze.buildAnalysisPrompt env captureData adjectives = Returned prompt).
Proof.
  intros run result failed_with. subst run result failed_with.
  unfold Analyze.analyzeWithClaude, Analyze.analyze_try.
  destruct (loadScreenshots_eligible env) as (Hlen & Hall).
  assert (forall words, adjectives = JArr (map JStr words) ->
          exists prompt,
            Analyze.buildAnalysisPrompt env captureData adjectives = Returned prompt)
    as Hstrings.
  { intros words ->. apply buildAnalysisPrompt_strings. }
  destruct (Analyze.loadScreenshots env) as [|s shots] eqn:Hshots.
  - simpl. split; [lia|]. split; [constructor|].
    split; [intros _; repeat split; reflexivity|].
    split; [intros H; contradiction|exact Hstrings].
  - assert (Forall (fun s0 => Analyze.name s0 <> "full_page.png") (s :: shots)) as Hnames.
    { eapply List.Forall_impl; [|exact Hall]. simpl.
      intros shot (files & _ & Hin) Heq.
      apply list_elem_of_filter in Hin. destruct Hin as [Hcond _].
      apply Is_true_true in Hcond. apply andb_true_iff in Hcond.
      rewrite Heq in Hcond. destruct Hcond as [_ Hfull]. discriminate Hfull. }
    destruct (Analyze.buildAnalysisPrompt env captureData adjectives) as [prompt|m].
    + destruct (Analyze.messages_create env (s :: shots) prompt) as [message|m];
        cbn [Analyze.requests].
      * split; [simpl; lia|]. split.
        { constructor; [|constructor]. split; [simpl in *; lia|exact Hnames]. }
        split; [discriminate|]. split; [reflexivity|exact Hstrings].
      * split; [simpl; lia|]. split.
        { constructor; [|constructor]. split; [simpl in *; lia|exact Hnames]. }
        split; [discriminate|]. split; [reflexivity|exact Hstrings].
    + cbn [Analyze.requests]. split; [simpl; lia|]. split; [constructor|].
      split; [discriminate|].
      split; [intros _; repeat split; reflexivity|exact Hstrings].
Qed.

Lemma analyzeWithClaude_requests_witness :
  let env := AnalyzeDemo.env "none" in
  let result := Analyze.analyzeWithClaude env AnalyzeDemo.captureData (JStr "bold") in
  Analyze.loadScreenshots env <> [] /\
  Analyze.requests (Analyze.analyze_try env AnalyzeDemo.captureData (JStr "bold")) = [] /\
  an_status result = Failed /\
  an_errors result = [{| err_code := "ANALYSIS_ERROR";
                         err_message := "adjectives.join is not a function";
                         err_recoverable := false |}] /\
  length (Analyze.requests
            (Analyze.analyze_try env AnalyzeDemo.captureData
               (JArr [JStr "bold"; JStr "calm"]))) = 1%nat.
Proof.
  intros env result.
  assert (Analyze.loadScreenshots env <> []) as Hshots by (vm_compute; discriminate).
  destruct (analyzeWithClaude_requests env AnalyzeDemo.captureData (JStr "bold"))
    as (_ & _ & _ & Hloaded & _).
  specialize (Hloaded Hshots).
  change (Analyze.buildAnalysisPrompt env AnalyzeDemo.captureData (JStr "bold"))
    with (@Thrown Analyze.AnalysisPrompt "adjectives.join is not a function") in Hloaded.
  destruct Hloaded as (Hnone & Hstatus & Herrors & _).
  split; [exact Hshots|]. split; [exact Hnone|]. split; [exact Hstatus|].
  split; [exact Herrors|].
  destruct (analyzeWithClaude_requests env AnalyzeDemo.captureData
              (JArr [JStr "bold"; JStr "calm"])) as (_ & _ & _ & Hsent & _).
  specialize (Hsent Hshots).
  destruct (Analyze.buildAnalysisPrompt env AnalyzeDemo.captureData
              (JArr [JStr "bold"; JStr "calm"])) as [prompt|m] eqn:Hprompt;
    [|vm_compute in Hprompt; discriminate Hprompt].
  rewrite Hsent. reflexivity.
Defined.

(** ** Stage 1 *)

Lemma Math_min_5 y : PrimFloat.ltb 5%float (Math_min 5%float y) = false.
Proof.
  unfold Math_min.
  destruct (PrimFloat.is_nan 5 || PrimFloat.is_nan y); [reflexivity|].
  destruct (PrimFloat.ltb 5 y) eqn:H1; [reflexivity|].
  destruct (PrimFloat.ltb y 5) eqn:H2; [exact H1|].
  destruct (PrimFloat.is_zero 5 && PrimFloat.get_sign 5); [reflexivity|exact H1].
Qed.

Lemma or_so_far_ok {A} (c : Capture.Run A) s k j (P : list Artifact -> Prop) :
  P s ->
  (forall a j', exists shots, snd (k a j') = Returned shots /\ P shots) ->
  exists shots, snd (Capture.or_so_far c s k j) = Returned shots /\ P shots.
Proof.
  intros Hs Hk. unfold Capture.or_so_far, Capture.guarded.
  destruct (c j) as [j' [a|m]]; [apply Hk|]. simpl. eauto.
Qed.

Lemma shoot_cases b file fullPage s j :
  (exists size j', Capture.shoot b file fullPage s j
                   = (j', Returned (s ++ [Capture.screenshot_artifact file size])%list)) \/
  (exists m j', Capture.shoot b file fullPage s j = (j', Thrown m)).
Proof.
  unfold Capture.shoot, Capture.bind, Capture.call, Capture.stat, Capture.ret.
  destruct (Capture.perform b (Capture.Screenshot file fullPage)); [|right; eauto].
  destruct (Capture.getFileSize b file); [left|right]; eauto.
Qed.

Lemma first_screenshots_snoc (n : nat) shots file size :
  first_screenshots n shots ->
  Capture.screenshot_names !! n = Some file ->
  first_screenshots (S n) (shots ++ [Capture.screenshot_artifact file size]).
Proof.
  intros [Hnames Hpaths] Hfile. split.
  - rewrite map_app, Hnames. cbn [map Capture.screenshot_artifact art_name].
    symmetry. apply take_S_r. exact Hfile.
  - apply Forall_app. split; [exact Hpaths|]. repeat constructor.
Qed.

Lemma shoot_ok b file fullPage s j (n : nat) k :
  first_screenshots n s ->
  Capture.screenshot_names !! n = Some file ->
  (forall s' j', first_screenshots (S n) s' ->
     exists m shots, snd (k s' j') = Returned shots /\ first_screenshots m shots) ->
  exists m shots,
    snd (Capture.or_so_far (Capture.shoot b file fullPage s) s k j) = Returned shots /\
    first_screenshots m shots.
Proof.
  intros Hs Hfile Hk. unfold Capture.or_so_far, Capture.guarded.
  destruct (shoot_cases b file fullPage s j) as [(size & j' & ->)|(m & j' & ->)].
  - apply Hk. apply first_screenshots_snoc; assumption.
  - simpl. eauto.
Qed.

Lemma call_ok {A} (c : Capture.Run A) s k j (n : nat) :
  first_screenshots n s ->
  (forall a j', exists m shots, snd (k a j') = Returned shots /\ first_screenshots m shots) ->
  exists m shots,
    snd (Capture.or_so_far c s k j) = Returned shots /\ first_screenshots m shots.
Proof.
  intros Hs Hk. unfold Capture.or_so_far, Capture.guarded.
  destruct (c j) as [j' [a|m]]; [apply Hk|]. simpl. eauto.
Qed.

Lemma sections_ok b numSections k : forall fuel (i : nat) s j,
  PrimFloat.ltb 5%float numSections = false ->
  (1 <= i <= 5)%nat ->
  first_screenshots (S i) s ->
  (forall s' j' n, first_screenshots n s' ->
     exists m shots, snd (k s' j') = Returned shots /\ first_screenshots m shots) ->
  exists m shots,
    snd (Capture.sections b fuel (Z.of_nat i) numSections s k j) = Returned shots /\
    first_screenshots m shots.
Proof.
  induction fuel as [|fuel IH]; intros i s j Hns Hi Hs Hk; simpl; [eauto|].
  destruct (PrimFloat.ltb (of_Z (Z.of_nat i)) numSections) eqn:Hguard; [|eauto].
  assert (i <= 4)%nat as Hi4.
  { destruct (decide (i = 5%nat)) as [->|]; [|lia].
    change (of_Z (Z.of_nat 5)) with 5%float in Hguard. congruence. }
  apply (call_ok _ _ _ _ _ Hs). intros _ j1.
  apply (call_ok _ _ _ _ _ Hs). intros _ j2.
  apply (shoot_ok _ _ _ _ _ (S i)); [exact Hs| |].
  - destruct i as [|[|[|[|[|?]]]]]; try lia; reflexivity.
  - intros s' j' Hs'. replace (Z.of_nat i + 1) with (Z.of_nat (S i)) by lia.
    apply IH; [exact Hns|lia|exact Hs'|exact Hk].
Qed.

Lemma captureScreenshots_first (b : Capture.Browser) (journal : list Capture.Op) :
  exists n shots, snd (Capture.captureScreenshots b journal) = Returned shots /\
                  first_screenshots n shots.
Proof.
  unfold Capture.captureScreenshots.
  assert (first_screenshots 0 []) as H0 by (split; constructor).
  apply (shoot_ok _ _ _ _ _ 0%nat); [exact H0|reflexivity|]. intros s1 j1 H1.
  apply (shoot_ok _ _ _ _ _ 1%nat); [exact H1|reflexivity|]. intros s2 j2 H2.
  apply (call_ok _ _ _ _ _ H2). intros viewportHeight j3.
  apply (call_ok _ _ _ _ _ H2). intros pageHeight j4.
  apply (sections_ok b _ _ 5 1%nat); [apply Math_min_5|lia|exact H2|].
  intros s3 j5 n3 H3.
  apply (call_ok _ _ _ _ _ H3). intros _ j6.
  apply (call_ok _ _ _ _ _ H3). intros _ j7. simpl. eauto.
Qed.

(** X10. [captureScreenshots] never throws and takes at most six
    screenshots: whatever the page and the file system answer, whatever the
    height of the page, its result is the first [n] of hero.png,
    full_page.png, section_1.png ... section_4.png, for some [n], each with
    its path under captures/screenshots/. *)
Theorem captureScreenshots_bounded (b : Capture.Browser) (journal : list Capture.Op) :
  exists (n : nat) (screenshots : list Artifact),
    snd (Capture.captureScreenshots b journal) = Returned screenshots /\
    map art_name screenshots = take n Capture.screenshot_names /\
    Forall (fun a => art_path a = "captures/screenshots/" ++ art_name a) screenshots /\
    (length screenshots <= 6)%nat.
Proof.
  destruct (captureScreenshots_first b journal) as (n & shots & Hret & Hnames & Hpaths).
  exists n, shots. split; [exact Hret|]. split; [exact Hnames|]. split; [exact Hpaths|].
  rewrite <- (length_map art_name), Hnames, length_take. simpl. lia.
Qed.

Lemma on_error_released b attempt artifacts m j :
  browser_released b (Capture.on_error b true attempt artifacts m j).
Proof.
  unfold browser_released, Capture.on_error, Capture.bind, Capture.call, Capture.ret,
    closed_last.
  destruct (Capture.perform b (Capture.Close attempt)) as [[]|m'] eqn:Hclose; simpl; eauto.
Qed.

Lemma guarded_released {A} b (c : Capture.Run A) handler k j :
  (forall m j', browser_released b (handler m j')) ->
  (forall a j', browser_released b (k a j')) ->
  browser_released b (Capture.guarded c handler k j).
Proof.
  intros Hh Hk. unfold Capture.guarded. destruct (c j) as [j' [a|m]]; auto.
Qed.

Lemma captureScreenshots_returns b j :
  exists j' shots, Capture.captureScreenshots b j = (j', Returned shots).
Proof.
  destruct (captureScreenshots_first b j) as (n & shots & Hret & _).
  destruct (Capture.captureScreenshots b j) as [j' o]. simpl in Hret. subst o. eauto.
Qed.

(** X11. [captureWebsite] does not leave a browser behind.  Once
    [chromium.launch()] has returned, every way the function can end has
    [browser.close()] as its last request: when the promise is fulfilled
    (with a success or a failed result) that close returned; the promise is
    rejected only when the close attempted in the [catch] block threw.  When
    the launch itself throws, nothing else is requested and the result is a
    failed one. *)
Theorem captureWebsite_releases_browser (b : Capture.Browser) :
  (Capture.perform b Capture.Launch = Returned tt ->
   browser_released b (Capture.captureWebsite b [])) /\
  (forall m, Capture.perform b Capture.Launch = Thrown m ->
   fst (Capture.captureWebsite b []) = [Capture.Launch] /\
   exists result, snd (Capture.captureWebsite b []) = Returned result /\
                  cap_status result = Failed).
Proof.
  split.
  - intros Hlaunch. unfold Capture.captureWebsite.
    unfold Capture.guarded at 1. unfold Capture.call at 1. rewrite Hlaunch.
    do 3 (apply guarded_released; [intros; apply on_error_released|intros]).
    unfold Capture.capture_page.
    apply guarded_released; [intros; apply on_error_released|intros].
    unfold Capture.bind.
    match goal with
    | |- context [Capture.captureScreenshots b ?j0] =>
        destruct (captureScreenshots_returns b j0) as (j4 & shots & ->)
    end.
    do 6 (apply guarded_released; [intros; apply on_error_released|intros]).
    unfold Capture.guarded, Capture.call.
    destruct (Capture.perform b (Capture.Close 1)) as [[]|m] eqn:Hclose.
    + unfold browser_released, closed_last, Capture.ret. simpl. eauto.
    + apply on_error_released.
  - intros m Hlaunch. unfold Capture.captureWebsite, Capture.guarded, Capture.call.
    rewrite Hlaunch. simpl. split; [reflexivity|]. eexists. split; reflexivity.
Qed.

Lemma captureWebsite_releases_browser_witness :
  Capture.perform (CaptureDemo.browser [Capture.SaveJSON "styles.json"]) Capture.Launch
  = Returned tt /\
  browser_released (CaptureDemo.browser [Capture.SaveJSON "styles.json"])
    (Capture.captureWebsite (CaptureDemo.browser [Capture.SaveJSON "styles.json"]) []) /\
  option_map cap_status
    (match snd (Capture.captureWebsite
                  (CaptureDemo.browser [Capture.SaveJSON "styles.json"]) []) with
     | Returned r => Some r
     | Thrown _ => None
     end) = Some Failed /\
  last (fst (Capture.captureWebsite (CaptureDemo.browser [Capture.SaveJSON "styles.json"]) []))
  = Some (Capture.Close 1).
Proof.
  split; [reflexivity|]. split.
  - apply (proj1 (captureWebsite_releases_browser
                    (CaptureDemo.browser [Capture.SaveJSON "styles.json"]))).
    reflexivity.
  - split; vm_compute; reflexivity.
Defined.

(** *** The journal only grows *)

Lemma extends_ret {A} P j (a : A) : extends_with P j (Capture.ret a j).
Proof. exists []. rewrite app_nil_r. split; reflexivity. Qed.

Lemma extends_step {A} P j (op : Capture.Op) (o : Outcome A) :
  P op = true -> extends_with P j ((j ++ [op])%list, o).
Proof. intros Hop. exists [op]. split; [reflexivity|]. simpl. rewrite Hop. reflexivity. Qed.

Lemma extends_trans {A} P j j' (r : list Capture.Op * Outcome A) :
  (exists ops, j' = (j ++ ops)%list /\ forallb P ops = true) ->
  extends_with P j' r -> extends_with P j r.
Proof.
  intros (ops1 & -> & H1) (ops2 & Hr & H2). exists (ops1 ++ ops2)%list.
  rewrite Hr, app_assoc. split; [reflexivity|].
  rewrite forallb_app, H1, H2. reflexivity.
Qed.

Lemma extends_guarded {A B} P j (c : Capture.Run A) (handler : string -> Capture.Run B) k :
  extends_with P j (c j) ->
  (forall m j', extends_with P j' (handler m j')) ->
  (forall a j', extends_with P j' (k a j')) ->
  extends_with P j (Capture.guarded c handler k j).
Proof.
  intros Hc Hh Hk. unfold Capture.guarded.
  destruct (c j) as [j' [a|m]]; (eapply extends_trans; [exact Hc|]); auto.
Qed.

Lemma extends_bind {A B} P j (c : Capture.Run A) (k : A -> Capture.Run B) :
  extends_with P j (c j) ->
  (forall a j', extends_with P j' (k a j')) ->
  extends_with P j (Capture.bind c k j).
Proof.
  intros Hc Hk. unfold Capture.bind.
  destruct (c j) as [j' [a|m]]; [eapply extends_trans; [exact Hc|]; auto|exact Hc].
Qed.

Lemma extends_shoot P b file fullPage s j :
  P (Capture.Screenshot file fullPage) = true -> P (Capture.GetFileSize file) = true ->
  extends_with P j (Capture.shoot b file fullPage s j).
Proof.
  intros H1 H2. unfold Capture.shoot.
  apply extends_bind; [apply extends_step; exact H1|]. intros _ j1.
  apply extends_bind; [apply extends_step; exact H2|]. intros size j2.
  apply extends_ret.
Qed.

Lemma extends_sections P b numSections k :
  (forall op, is_goto op || is_close op = false -> P op = true) ->
  (forall s j, extends_with P j (k s j)) ->
  forall fuel i s j, extends_with P j (Capture.sections b fuel i numSections s k j).
Proof.
  intros HP Hk. induction fuel as [|fuel IH]; intros i s j; simpl; [apply Hk|].
  destruct (PrimFloat.ltb (of_Z i) numSections); [|apply Hk].
  unfold Capture.or_so_far.
  apply extends_guarded; [apply extends_step, HP; reflexivity|intros; apply extends_ret|].
  intros _ j1.
  apply extends_guarded; [apply extends_step, HP; reflexivity|intros; apply extends_ret|].
  intros _ j2.
  apply extends_guarded;
    [apply extends_shoot; apply HP; reflexivity|intros; apply extends_ret|].
  intros s' j3. apply IH.
Qed.

Lemma extends_captureScreenshots P b j :
  (forall op, is_goto op || is_close op = false -> P op = true) ->
  extends_with P j (Capture.captureScreenshots b j).
Proof.
  intros HP. unfold Capture.captureScreenshots, Capture.or_so_far.
  apply extends_guarded;
    [apply extends_shoot; apply HP; reflexivity|intros; apply extends_ret|].
  intros s1 j1.
  apply extends_guarded;
    [apply extends_shoot; apply HP; reflexivity|intros; apply extends_ret|].
  intros s2 j2.
  apply extends_guarded; [apply extends_step, HP; reflexivity|intros; apply extends_ret|].
  intros vh j3.
  apply extends_guarded; [apply extends_step, HP; reflexivity|intros; apply extends_ret|].
  intros ph j4.
  apply extends_sections; [exact HP|]. intros s3 j5.
  apply extends_guarded; [apply extends_step, HP; reflexivity|intros; apply extends_ret|].
  intros _ j6.
  apply extends_guarded; [apply extends_step, HP; reflexivity|intros; apply extends_ret|].
  intros _ j7. apply extends_ret.
Qed.

Lemma extends_on_error b launched attempt artifacts m j :
  extends_with (fun op => negb (is_goto op)) j
    (Capture.on_error b launched attempt artifacts m j).
Proof.
  unfold Capture.on_error.
  apply extends_bind; [|intros; apply extends_ret].
  destruct launched; [apply extends_step; reflexivity|apply extends_ret].
Qed.

Lemma filter_extends {A} j (r : list Capture.Op * Outcome A) :
  extends_with (fun op => negb (is_goto op)) j r ->
  List.filter is_goto (fst r) = List.filter is_goto j.
Proof.
  intros (ops & -> & Hops). rewrite List.filter_app.
  replace (List.filter is_goto ops) with (@nil Capture.Op); [apply app_nil_r|].
  induction ops as [|op ops IH]; [reflexivity|]. simpl in *.
  apply andb_true_iff in Hops. destruct Hops as [Hop Hops].
  destruct (is_goto op); [discriminate|auto].
Qed.

(** What follows the navigation requests no page to load. *)
Lemma after_navigation_no_goto b j :
  extends_with (fun op => negb (is_goto op)) j (Capture.capture_page b j).
Proof.
  unfold Capture.capture_page.
  apply extends_guarded;
    [apply extends_step; reflexivity|intros; apply extends_on_error|]. intros _ j1.
  apply extends_bind.
  { apply extends_captureScreenshots. intros op Hop.
    apply orb_false_iff in Hop. destruct Hop as [-> _]. reflexivity. }
  intros screenshots j2.
  repeat (apply extends_guarded;
          [apply extends_step; reflexivity|intros; apply extends_on_error|intros]).
  apply extends_ret.
Qed.

(** X12. Navigation is tried at most twice.  With the browser, the context
    and the page in place, [captureWebsite] requests the page once, waiting
    for 'domcontentloaded'; it requests it a second time, waiting for
    'load', exactly when the first request threw, and never a third time.
    When the second request throws as well, nothing else is asked of the
    page: the browser is closed and the result is a failed one carrying the
    message of the second failure and no artifact. *)
Theorem captureWebsite_navigation (b : Capture.Browser) :
  Capture.perform b Capture.Launch = Returned tt ->
  Capture.perform b Capture.NewContext = Returned tt ->
  Capture.perform b Capture.NewPage = Returned tt ->
  let journal := fst (Capture.captureWebsite b []) in
  match Capture.perform b (Capture.Goto "domcontentloaded") with
  | Returned _ => List.filter is_goto journal = [Capture.Goto "domcontentloaded"]
  | Thrown _ =>
      List.filter is_goto journal
      = [Capture.Goto "domcontentloaded"; Capture.Goto "load"] /\
      forall m, Capture.perform b (Capture.Goto "load") = Thrown m ->
        journal = [Capture.Launch; Capture.NewContext; Capture.NewPage;
                   Capture.Goto "domcontentloaded"; Capture.Goto "load"; Capture.Close 1] /\
        forall result, snd (Capture.captureWebsite b []) = Returned result ->
          cap_status result = Failed /\
          cap_errors result = [{| err_code := "CAPTURE_ERROR"; err_message := m;
                                  err_recoverable := false |}] /\
          cap_artifacts result = []
  end.
Proof.
  intros Hlaunch Hcontext Hpage journal. subst journal.
  assert (Capture.captureWebsite b [] =
          Capture.guarded (Capture.navigate b) (Capture.on_error b true 1 [])
            (fun _ => Capture.capture_page b)
            [Capture.Launch; Capture.NewContext; Capture.NewPage]) as ->.
  { unfold Capture.captureWebsite.
    unfold Capture.guarded at 1. unfold Capture.call at 1. rewrite Hlaunch.
    unfold Capture.guarded at 1. unfold Capture.call at 1. rewrite Hcontext.
    unfold Capture.guarded at 1. unfold Capture.call at 1. rewrite Hpage.
    reflexivity. }
  unfold Capture.guarded, Capture.navigate, Capture.guarded, Capture.call, Capture.ret.
  cbn [app].
  destruct (Capture.perform b (Capture.Goto "domcontentloaded")) as [[]|m1] eqn:Hfirst.
  - rewrite (filter_extends _ _ (after_navigation_no_goto b _)). reflexivity.
  - destruct (Capture.perform b (Capture.Goto "load")) as [[]|m2] eqn:Hsecond.
    + rewrite (filter_extends _ _ (after_navigation_no_goto b _)).
      split; [reflexivity|]. intros m [=].
    + split.
      * rewrite (filter_extends _ _ (extends_on_error b true 1 [] m2 _)). reflexivity.
      * intros m [= <-]. unfold Capture.on_error, Capture.bind, Capture.call, Capture.ret.
        destruct (Capture.perform b (Capture.Close 1)) as [[]|m3]; simpl.
        -- split; [reflexivity|]. intros result [= <-]. auto.
        -- split; [reflexivity|]. intros result [=].
Qed.

Lemma captureWebsite_navigation_witness :
  let b := CaptureDemo.browser [Capture.Goto "domcontentloaded"] in
  Capture.perform b Capture.Launch = Returned tt /\
  Capture.perform b Capture.NewContext = Returned tt /\
  Capture.perform b Capture.NewPage = Returned tt /\
  List.filter is_goto (fst (Capture.captureWebsite b []))
  = [Capture.Goto "domcontentloaded"; Capture.Goto "load"] /\
  option_map cap_status
    (match snd (Capture.captureWebsite b []) with
     | Returned r => Some r
     | Thrown _ => None
     end) = Some Success.
Proof.
  intros b. split; [reflexivity|]. split; [reflexivity|]. split; [reflexivity|].
  pose proof (captureWebsite_navigation b eq_refl eq_refl eq_refl) as H.
  cbv zeta in H.
  change (Capture.perform b (Capture.Goto "domcontentloaded"))
    with (@Thrown unit "Target page, context or browser has been closed") in H.
  destruct H as [Hgoto _]. split; [exact Hgoto|]. vm_compute. reflexivity.
Defined.

(** *** The result *)

Lemma on_error_shape b launched attempt (n : nat) shots rest m j result :
  first_screenshots n shots ->
  map art_name rest `prefix_of` ["dom.json"; "styles.json"] ->
  snd (Capture.on_error b launched attempt (shots ++ rest) m j) = Returned result ->
  capture_result_shape result.
Proof.
  intros Hshots Hrest. unfold Capture.on_error, Capture.bind, Capture.ret.
  destruct ((if launched then Capture.call b (Capture.Close attempt) else _) j)
    as [j' [[]|m']]; [|discriminate].
  simpl. intros [= <-]. exists n, shots. split; [exact Hshots|]. right. simpl.
  split; [reflexivity|]. split; [reflexivity|]. split; [eauto|]. eauto.
Qed.

Lemma guarded_shape {A} (c : Capture.Run A) handler k j result :
  (forall m j' r, snd (handler m j') = Returned r -> capture_result_shape r) ->
  (forall a j' r, snd (k a j') = Returned r -> capture_result_shape r) ->
  snd (Capture.guarded c handler k j) = Returned result -> capture_result_shape result.
Proof.
  intros Hh Hk. unfold Capture.guarded. destruct (c j) as [j' [a|m]]; eauto.
Qed.

Lemma first_screenshots_nil : first_screenshots 0 [].
Proof. split; constructor. Qed.

(** X13. Every result of [captureWebsite] has one of two shapes.  A
    successful one lists the screenshots (the first [n] the stage can take),
    then dom.json, then styles.json, has no error, and its data names
    exactly those screenshots.  A failed one has the single error
    CAPTURE_ERROR and no data, and keeps as artifacts what had been saved when
    the exception was thrown: the screenshots, possibly followed by dom.json
    and styles.json. *)
Theorem captureWebsite_result_shape (b : Capture.Browser) (result : CaptureResult) :
  snd (Capture.captureWebsite b []) = Returned result -> capture_result_shape result.
Proof.
  assert (forall attempt m j r,
            snd (Capture.on_error b true attempt [] m j) = Returned r ->
            capture_result_shape r) as Hnone.
  { intros attempt m j r.
    apply (on_error_shape b true attempt 0 [] [] m j r first_screenshots_nil).
    apply prefix_nil. }
  unfold Capture.captureWebsite.
  apply guarded_shape.
  { intros m j r. apply (on_error_shape b false 1 0 [] [] m j r first_screenshots_nil).
    apply prefix_nil. }
  intros _ j1 r1. do 3 (apply guarded_shape; [intros; eapply Hnone; eassumption|intros ? ? ?]).
  unfold Capture.capture_page.
  apply guarded_shape; [intros; eapply Hnone; eassumption|intros ? ? ?].
  unfold Capture.bind.
  match goal with
  | |- context [Capture.captureScreenshots b ?j0] =>
      destruct (captureScreenshots_first b j0) as (n & shots & Hret & Hshots);
      destruct (Capture.captureScreenshots b j0) as [j5 o]
  end.
  simpl in Hret. subst o.
  assert (forall attempt rest m j r0,
            map art_name rest `prefix_of` ["dom.json"; "styles.json"] ->
            snd (Capture.on_error b true attempt (shots ++ rest) m j) = Returned r0 ->
            capture_result_shape r0) as Hsome.
  { intros attempt rest m j rx Hrest. apply (on_error_shape b true attempt n); assumption. }
  assert (forall attempt m j r0,
            snd (Capture.on_error b true attempt shots m j) = Returned r0 ->
            capture_result_shape r0) as Hshots_only.
  { intros attempt m j rx. rewrite <- (app_nil_r shots). apply Hsome. apply prefix_nil. }
  do 3 (apply guarded_shape; [intros; eapply Hshots_only; eassumption|intros ? ? ?]).
  cbv zeta.
  do 3 (apply guarded_shape;
        [intros ? ? ?; apply Hsome; exists ["styles.json"]; reflexivity|intros ? ? ?]).
  apply guarded_shape.
  - intros m jx rf. rewrite <- app_assoc. apply Hsome. reflexivity.
  - intros _ jx rf. unfold Capture.ret. simpl. intros [= <-].
    exists n, shots. split; [exact Hshots|]. left. simpl.
    split; [reflexivity|]. split; [reflexivity|].
    eexists _, _, _, _. rewrite <- app_assoc. split; reflexivity.
Qed.

Lemma captureWebsite_result_shape_witness :
  exists result,
    snd (Capture.captureWebsite (CaptureDemo.browser [Capture.Close 1]) [])
    = Returned result /\
    cap_status result = Failed /\
    map art_name (cap_artifacts result)
    = ["hero.png"; "full_page.png"; "section_1.png"; "section_2.png";
       "dom.json"; "styles.json"] /\
    capture_result_shape result.
Proof.
  eexists.
  assert (snd (Capture.captureWebsite (CaptureDemo.browser [Capture.Close 1]) [])
          = Returned _) as Hret by (vm_compute; reflexivity).
  split; [exact Hret|]. split; [reflexivity|]. split; [reflexivity|].
  exact (captureWebsite_result_shape _ _ Hret).
Defined.

(** *** The loop never uses up its bound *)

Lemma or_so_far_ext {A} (c : Capture.Run A) s k1 k2 j :
  (forall a j', k1 a j' = k2 a j') ->
  Capture.or_so_far c s k1 j = Capture.or_so_far c s k2 j.
Proof.
  intros H. unfold Capture.or_so_far, Capture.guarded.
  destruct (c j) as [j' [a|m]]; [apply H|reflexivity].
Qed.

(** With [numSections] at most 5 the loop ends by its own test: any bound
    that leaves room for the tests still to come gives the same run. *)
Lemma sections_fuel b numSections k :
  PrimFloat.ltb 5%float numSections = false ->
  forall fuel1 fuel2 (i : nat) s j,
    (1 <= i <= 5)%nat -> (6 - i <= fuel1)%nat -> (6 - i <= fuel2)%nat ->
    Capture.sections b fuel1 (Z.of_nat i) numSections s k j
    = Capture.sections b fuel2 (Z.of_nat i) numSections s k j.
Proof.
  intros Hns. induction fuel1 as [|fuel1 IH]; intros fuel2 i s j Hi H1 H2; [lia|].
  destruct fuel2 as [|fuel2]; [lia|]. simpl.
  destruct (PrimFloat.ltb (of_Z (Z.of_nat i)) numSections) eqn:Hguard; [|reflexivity].
  assert (i <= 4)%nat as Hi4.
  { destruct (decide (i = 5%nat)) as [->|]; [|lia].
    change (of_Z (Z.of_nat 5)) with 5%float in Hguard. congruence. }
  apply or_so_far_ext. intros _ j1. apply or_so_far_ext. intros _ j2.
  apply or_so_far_ext. intros s' j3.
  replace (Z.of_nat i + 1) with (Z.of_nat (S i)) by lia. apply IH; lia.
Qed.

(** ** Helpers of the orchestrator *)

Lemma underscore_others_safe s :
  Forall (fun c => OrchestratorHelpers.alphanumeric c = true \/ c = "_"%char)
         (list_ascii_of_string (OrchestratorHelpers.underscore_others s)).
Proof.
  induction s as [|c s IH]; simpl; constructor; [|exact IH].
  destruct (OrchestratorHelpers.alphanumeric c) eqn:Hc; auto.
Qed.

Lemma before_first_no_separator sep s :
  Forall (fun c => c <> sep)
         (list_ascii_of_string (OrchestratorHelpers.before_first sep s)).
Proof.
  induction s as [|c s IH]; simpl; [constructor|].
  destruct (Ascii.eqb_spec c sep); simpl; constructor; assumption.
Qed.

Lemma underscore_others_length s :
  String.length (OrchestratorHelpers.underscore_others s) = String.length s.
Proof. induction s; simpl; congruence. Qed.

Lemma before_first_length sep s :
  (String.length (OrchestratorHelpers.before_first sep s) <= String.length s)%nat.
Proof. induction s as [|c s IH]; simpl; [lia|]. destruct (Ascii.eqb c sep); simpl; lia. Qed.

(** X14. The brand name is always usable as one path segment: whatever the
    URL, [extractBrandName] returns a string made of ASCII letters, digits
    and underscores only, so it contains no dot, slash or backslash; it is
    "brand" when the URL does not parse.  A dot of the host name never gets
    through: the name is cut at the first dot before the other characters
    are replaced. *)
Theorem extractBrandName_path_segment (hostname : string -> Outcome string) (url : string) :
  let name := OrchestratorHelpers.extractBrandName hostname url in
  Forall (fun c => OrchestratorHelpers.alphanumeric c = true \/ c = "_"%char)
         (list_ascii_of_string name) /\
  Forall (fun c => c <> "."%char /\ c <> "/"%char /\ c <> "\"%char)
         (list_ascii_of_string name) /\
  (forall m, hostname url = Thrown m -> name = "brand").
Proof.
  intros name. subst name. unfold OrchestratorHelpers.extractBrandName.
  assert (forall s,
            Forall (fun c => OrchestratorHelpers.alphanumeric c = true \/ c = "_"%char)
                   (list_ascii_of_string s) ->
            Forall (fun c => c <> "."%char /\ c <> "/"%char /\ c <> "\"%char)
                   (list_ascii_of_string s)) as Hsafe.
  { intros s Hs. eapply List.Forall_impl; [|exact Hs]. intros c [Hc| ->].
    - repeat split; intros ->; vm_compute in Hc; discriminate Hc.
    - repeat split; discriminate. }
  destruct (hostname url) as [host|m].
  - split; [apply underscore_others_safe|].
    split; [apply Hsafe, underscore_others_safe|]. discriminate.
  - assert (Forall (fun c => OrchestratorHelpers.alphanumeric c = true \/ c = "_"%char)
                   (list_ascii_of_string "brand")) as Hb
      by (repeat constructor).
    split; [exact Hb|]. split; [exact (Hsafe _ Hb)|]. reflexivity.
Qed.

(** *** extractDominantColors *)

Lemma fill_length random missing : forall colors,
  length (OrchestratorHelpers.fill random missing colors) = (length colors + missing)%nat.
Proof.
  induction missing as [|missing IH]; intros colors; simpl; [lia|].
  rewrite IH, length_app. simpl. lia.
Qed.

Lemma push_value_length tokens k colors :
  (length colors <= length (OrchestratorHelpers.push_value tokens k colors)
   <= S (length colors))%nat.
Proof.
  unfold OrchestratorHelpers.push_value.
  destruct (truthy _); [|lia].
  destruct (OrchestratorHelpers.get_optional _ _); rewrite ?length_app; simpl; lia.
Qed.

(** X15. The preview always has exactly three colours.
    [extractDominantColors] returns three values whatever the specification
    is: the defaults when the colour tokens are missing or an exception is
    thrown, otherwise the values found (primary, secondary, accent, then
    the first gray while fewer than three were found) topped up with random
    colours.  The closing [slice(0, 5)] never removes anything. *)
Theorem extractDominantColors_three (random : nat -> string) (brandSpec : jsval) :
  length (OrchestratorHelpers.extractDominantColors random brandSpec) = 3%nat.
Proof.
  unfold OrchestratorHelpers.extractDominantColors,
    OrchestratorHelpers.extractDominantColors_try.
  destruct (get_prop_strict brandSpec "design_tokens") as [design_tokens|m];
    [|reflexivity]. cbn [obind].
  destruct (truthy (OrchestratorHelpers.get_optional design_tokens "colors"));
    [|reflexivity]. cbn [negb].
  destruct (OrchestratorHelpers.get_optional design_tokens "colors") as [tokens|];
    [|reflexivity].
  set (c1 := OrchestratorHelpers.push_value tokens "primary" []).
  set (c2 := OrchestratorHelpers.push_value tokens "secondary" c1).
  set (c3 := OrchestratorHelpers.push_value tokens "accent" c2).
  assert (length c3 <= 3)%nat as H3.
  { pose proof (push_value_length tokens "primary" []) as P1.
    pose proof (push_value_length tokens "secondary" c1) as P2.
    pose proof (push_value_length tokens "accent" c2) as P3.
    fold c1 in P1, P2. fold c2 in P2, P3. fold c3 in P3. simpl in P1. lia. }
  assert (forall colors, (length colors <= 3)%nat ->
            length (take 5 (OrchestratorHelpers.fill random (3 - length colors) colors))
            = 3%nat) as Hfill.
  { intros colors Hc. rewrite length_take, fill_length. lia. }
  assert (forall v, (length c3 <? 3)%nat = true -> (length (c3 ++ [v]) <= 3)%nat) as Hsnoc.
  { intros v Hlt. apply Nat.ltb_lt in Hlt. rewrite length_app. simpl. lia. }
  destruct ((length c3 <? 3)%nat) eqn:Hlt; cbn [andb]; [|cbn [obind]; auto].
  destruct (truthy (OrchestratorHelpers.get_optional (get_prop tokens "neutrals") "gray"));
    [|cbn [obind]; auto].
  destruct (OrchestratorHelpers.get_optional (get_prop tokens "neutrals") "gray")
    as [gray|]; [|cbn [obind]; auto].
  destruct (OrchestratorHelpers.Object_values gray) as [|first rest];
    [cbn [obind]; auto|].
  destruct (get_prop_strict (Some first) "value") as [value|m]; [|reflexivity].
  cbn [obind]. destruct (truthy value); [|cbn [obind]; auto].
  destruct value as [v|]; cbn [obind]; auto.
Qed.

(** *** generateTags *)

Lemma characters_length s :
  length (OrchestratorHelpers.characters s) = String.length s.
Proof. induction s; simpl; congruence. Qed.

Lemma substring_length_le s : forall n m, (String.length (substring n m s) <= m)%nat.
Proof.
  induction s as [|c s IH]; intros [|n] [|m]; simpl; try lia.
  - specialize (IH 0%nat m). lia.
  - apply (IH n 0%nat).
  - apply (IH n (S m)).
Qed.

Lemma first_three_length adjectives l :
  OrchestratorHelpers.first_three adjectives = Returned l -> (length l <= 3)%nat.
Proof.
  destruct adjectives; simpl; try discriminate; intros [= <-].
  - rewrite characters_length. apply substring_length_le.
  - rewrite length_take. lia.
Qed.

(** X16. [generateTags] never throws and returns at most four tags.  For a
    specification whose [brand_essence] was built by
    [synthesizeBrandEssence], the tags are the tone followed by the first
    three adjectives. *)
Theorem generateTags_tone_and_adjectives (brandSpec : jsval) :
  (length (OrchestratorHelpers.generateTags brandSpec) <= 4)%nat /\
  forall fields tokens,
    brandSpec = Some (JObj fields) ->
    assoc_get "brand_essence" fields = Some (synthesizeBrandEssence tokens) ->
    exists tone adjectives,
      get_prop (synthesizeBrandEssence tokens) "tone" = Some tone /\
      get_prop (synthesizeBrandEssence tokens) "adjectives" = Some (JArr adjectives) /\
      OrchestratorHelpers.generateTags brandSpec = tone :: take 3 adjectives.
Proof.
  split.
  - unfold OrchestratorHelpers.generateTags, OrchestratorHelpers.generateTags_try.
    destruct (get_prop_strict brandSpec "brand_essence") as [essence|m]; [|simpl; lia].
    cbn [obind].
    set (tags := if truthy (OrchestratorHelpers.get_optional essence "tone")
                 then match OrchestratorHelpers.get_optional essence "tone" with
                      | Some tone => [tone]
                      | None => []
                      end
                 else []).
    assert (length tags <= 1)%nat as Htags.
    { subst tags. destruct (truthy _); [|simpl; lia].
      destruct (OrchestratorHelpers.get_optional essence "tone"); simpl; lia. }
    destruct (truthy (OrchestratorHelpers.get_optional essence "adjectives")); [|lia].
    destruct (OrchestratorHelpers.get_optional essence "adjectives") as [adjectives|];
      [|lia].
    destruct (OrchestratorHelpers.first_three adjectives) as [l|m] eqn:Hl; [|simpl; lia].
    cbn [obind]. rewrite length_app. apply first_three_length in Hl. lia.
  - intros fields tokens -> Hessence.
    unfold OrchestratorHelpers.generateTags, OrchestratorHelpers.generateTags_try.
    assert (get_prop_strict (Some (JObj fields)) "brand_essence"
            = Returned (Some (synthesizeBrandEssence tokens))) as ->.
    { unfold get_prop_strict. cbn [get_prop]. rewrite Hessence. reflexivity. }
    cbn [obind]. unfold synthesizeBrandEssence.
    set (essence := if truthy (get_prop tokens "brand_essence")
                    then default (JObj []) (get_prop tokens "brand_essence")
                    else JObj []).
    set (tone := if truthy (get_prop essence "tone")
                 then default JNull (get_prop essence "tone")
                 else JStr "professional").
    set (adjectives := match get_prop essence "adjectives" with
                       | Some (JArr l) => JArr l
                       | _ => JArr []
                       end).
    assert (truthy (Some tone) = true) as Htone.
    { subst tone. destruct (truthy (get_prop essence "tone")) eqn:Ht; [|reflexivity].
      destruct (get_prop essence "tone"); [exact Ht|discriminate]. }
    assert (exists l, adjectives = JArr l) as [l Hadj].
    { subst adjectives. destruct (get_prop essence "adjectives") as [[]|]; eauto. }
    exists tone, l. cbn [OrchestratorHelpers.get_optional get_prop assoc_get app].
    cbn. cbn in Htone. rewrite Htone, Hadj. cbn. auto.
Qed.

Lemma generateTags_tone_and_adjectives_witness :
  exists fields,
    Demo.mapped_unnamed = JObj fields /\
    assoc_get "brand_essence" fields = Some (synthesizeBrandEssence Demo.tokens_unnamed) /\
    OrchestratorHelpers.generateTags (Some Demo.mapped_unnamed) = [JStr "professional"].
Proof.
  eexists. split; [reflexivity|]. split; [reflexivity|].
  destruct (generateTags_tone_and_adjectives (Some Demo.mapped_unnamed)) as [_ H].
  destruct (H _ Demo.tokens_unnamed eq_refl eq_refl) as (tone & adjectives & Ht & Ha & Htags).
  rewrite Htags. vm_compute in Ht, Ha. injection Ht as <-. injection Ha as <-. reflexivity.
Defined.

(** ** The schema cache *)

(** X17. A schema is read from disk at most once.  After a call of a
    validator that loaded its schema (an object, as JSON Schemas in the
    schemas directory are), every later load of that schema returns the
    cached document without touching the file system: the outcome is the
    same whatever has become of the file, and the cache is left as it is.
    A load that failed caches nothing, so the next call reads the file
    again. *)
Theorem loadSchema_reads_once {D : Type} (env : SchemaValidator.Env D)
    (schemaName : SchemaValidator.SchemaName) (schemaCache : SchemaValidator.Cache) :
  match SchemaValidator.loadSchema env schemaName schemaCache with
  | (Returned schema, schemaCache') =>
      truthy (Some schema) = true ->
      forall (later : SchemaValidator.Env D),
        SchemaValidator.loadSchema later schemaName schemaCache'
        = (Returned schema, schemaCache') /\
        forall data,
          SchemaValidator.validateAgainstSchema later schemaName data schemaCache'
          = (obind (SchemaValidator.compile later schema) (fun validate =>
               Returned {| valid := fst (validate data);
                           errors := default [] (snd (validate data)) |}),
             schemaCache')
  | (Thrown _, schemaCache') =>
      schemaCache' = schemaCache /\
      SchemaValidator.loadSchema env schemaName schemaCache'
      = SchemaValidator.read_schema env schemaName schemaCache
  end.
Proof.
  unfold SchemaValidator.loadSchema at 1.
  assert (forall schema cache1,
            cache1 !! SchemaValidator.schema_key schemaName = Some schema ->
            truthy (Some schema) = true ->
            forall later : SchemaValidator.Env D,
              SchemaValidator.loadSchema later schemaName cache1 = (Returned schema, cache1) /\
              forall data,
                SchemaValidator.validateAgainstSchema later schemaName data cache1
                = (obind (SchemaValidator.compile later schema) (fun validate =>
                     Returned {| valid := fst (validate data);
                                 errors := default [] (snd (validate data)) |}),
                   cache1)) as Hhit.
  { intros schema cache1 Hlookup Htruthy later.
    assert (SchemaValidator.loadSchema later schemaName cache1 = (Returned schema, cache1))
      as Hload.
    { unfold SchemaValidator.loadSchema. rewrite Hlookup, Htruthy. reflexivity. }
    split; [exact Hload|]. intros data.
    unfold SchemaValidator.validateAgainstSchema. rewrite Hload.
    destruct (SchemaValidator.compile later schema) as [validate|m]; [|reflexivity].
    simpl. destruct (validate data). reflexivity. }
  assert (match SchemaValidator.read_schema env schemaName schemaCache with
          | (Returned schema, schemaCache') =>
              schemaCache' !! SchemaValidator.schema_key schemaName = Some schema
          | (Thrown _, schemaCache') => schemaCache' = schemaCache
          end) as Hread.
  { unfold SchemaValidator.read_schema.
    destruct (obind _ _) as [schema|m]; [apply lookup_insert_eq|reflexivity]. }
  destruct (truthy (schemaCache !! SchemaValidator.schema_key schemaName)) eqn:Htruthy.
  - destruct (schemaCache !! SchemaValidator.schema_key schemaName) as [schema|] eqn:Hl;
      [|discriminate].
    intros _. apply Hhit; assumption.
  - destruct (SchemaValidator.read_schema env schemaName schemaCache)
      as [[schema|m] cache1] eqn:Hr.
    + intros Ht. apply Hhit; assumption.
    + subst cache1. split; [reflexivity|].
      unfold SchemaValidator.loadSchema. rewrite Htruthy. exact Hr.
Qed.

Lemma loadSchema_reads_once_witness :
  let first := SchemaValidator.loadSchema (SchemaDemo.env true) SchemaValidator.evaluation ∅ in
  fst first = Returned SchemaDemo.schema /\
  SchemaValidator.read_schema (SchemaDemo.env false) SchemaValidator.evaluation ∅
  = (Thrown "ENOENT: no such file or directory", ∅) /\
  SchemaValidator.loadSchema (SchemaDemo.env false) SchemaValidator.evaluation (snd first)
  = (Returned SchemaDemo.schema, snd first).
Proof.
  intros first.
  pose proof (loadSchema_reads_once (SchemaDemo.env true) SchemaValidator.evaluation ∅)
    as Hfirst.
  fold first in Hfirst.
  assert (first = (Returned SchemaDemo.schema,
                   <["evaluation" := SchemaDemo.schema]> (∅ : SchemaValidator.Cache)))
    as Heq by reflexivity.
  rewrite Heq in *. cbn [fst snd].
  split; [reflexivity|]. split; [reflexivity|].
  exact (proj1 (Hfirst eq_refl (SchemaDemo.env false))).
Defined.

(** ** The Processing page at the end of a run *)

Lemma append_not_empty a b : a <> EmptyString -> (a ++ b)%string <> EmptyString.
Proof. destruct a; [contradiction|discriminate]. Qed.

(** What the body reports, on every path: no message is empty, and a
    fulfilled run names its brand after the URL. *)
Lemma body_reports w url adjectives :
  Forall (fun report => snd report <> EmptyString)
         (emitted (fst (extractBrand_body w url adjectives []))) /\
  forall r, snd (extractBrand_body w url adjectives []) = Returned r ->
            brand_id r = extractBrandName w url ++ "_" ++ id_suffix w.
Proof.
  destruct (extractBrand_body w url adjectives []) as [j c] eqn:H.
  unfold extractBrand_body, refine_step in H. cbn in H.
  repeat (split_match_in H; cbn in H).
  all: injection H as <- <-; cbn.
  all: split; [|intros r0 Hr; try discriminate Hr; injection Hr as <-; reflexivity].
  all: repeat (apply List.Forall_cons;
               [cbn; try apply append_not_empty; discriminate|]).
  all: apply List.Forall_nil.
Qed.

Lemma observe_events l : forall s,
  exists evs,
    Server.events (observe l s) = (Server.events s ++ evs)%list /\
    Forall2 (fun report e => Server.pe_stage e = fst report /\
                             Server.pe_message e = snd report /\
                             Server.pe_brand_id e = None) l evs.
Proof.
  induction l as [|[st msg] l IH]; intros s; simpl.
  - exists []. rewrite app_nil_r. split; [reflexivity|constructor].
  - destruct (IH (Server.record_progress st msg s)) as (evs & Hev & Hall).
    eexists (_ :: evs). rewrite Hev. simpl. rewrite <- app_assoc. split; [reflexivity|].
    constructor; [simpl; auto|exact Hall].
Qed.

Lemma receive_app frames1 frames2 page :
  Client.receive (frames1 ++ frames2) page
  = Client.receive frames2 (Client.receive frames1 page).
Proof. unfold Client.receive. apply fold_left_app. Qed.

(** Frames of a running extraction: all are shown, none ends the stream. *)
Lemma receive_progress evs : forall page,
  Forall (fun e => Server.pe_message e <> EmptyString /\
                   Server.pe_brand_id e = None /\
                   rank (Server.pe_stage e) <= 6) evs ->
  Client.events (Client.receive evs page) = (Client.events page ++ evs)%list /\
  Client.brandId (Client.receive evs page) = Client.brandId page /\
  Client.error (Client.receive evs page) = Client.error page /\
  Client.redirect (Client.receive evs page) = Client.redirect page /\
  Client.closing (Client.receive evs page) = Client.closing page.
Proof.
  induction evs as [|e evs IH]; intros page Hall.
  - simpl. rewrite app_nil_r. auto.
  - inversion Hall as [|? ? (Hmsg & Hid & Hrank) Hrest]; subst.
    change (Client.receive (e :: evs) page)
      with (Client.receive evs (Client.onmessage e page)).
    destruct (IH (Client.onmessage e page) Hrest) as (H1 & H2 & H3 & H4 & H5).
    rewrite H1, H2, H3, H4, H5. unfold Client.onmessage.
    destruct (String.eqb_spec (Server.pe_message e) EmptyString) as [Heq|_];
      [contradiction|].
    unfold Client.onProgress. rewrite Hid.
    destruct (Server.pe_stage e); simpl in Hrank; try lia; simpl;
      rewrite <- app_assoc; auto.
Qed.

Lemma brand_id_present a b : Client.present (Some (a ++ "_" ++ b)) = true.
Proof. destruct a; reflexivity. Qed.

(** X20. The Processing page ends in the right state, for a request that
    has its session id to itself and whatever else the server is doing.  Fed
    the frames of the session log of the request, in order, the page shows
    every one of them (none is dropped by the check for a stage and a
    message), ends at 100 percent, and has scheduled the close of the
    stream.  After a successful extraction it shows the success box, no
    error, and has scheduled the redirect to the report of the brand; after
    a failed one it shows the error box with "Extraction failed: " and the
    error's message, no success box, and schedules no redirect. *)
Theorem processing_page_outcome (w : World) (now : Z) (url : string)
    (adjectives : list string) (sid : string) (schedule : list EventLoop.Turn)
    (activeSessions : gmap string Server.Session) (session : Server.Session) :
  sole_request schedule sid w now url adjectives ->
  EventLoop.run schedule activeSessions !! sid = Some session ->
  let page := Client.receive (Server.events session) Client.initial in
  Client.events page = Server.events session /\
  Client.progress page = 100 /\
  Client.closing page = true /\
  match Server.result session with
  | Some (ExtractOk r) =>
      Client.shows_success page = true /\
      Client.shows_error page = false /\
      Client.redirect page = Some ("/brand/" ++ brand_id r)
  | Some (ExtractFailed m) =>
      Client.shows_success page = false /\
      Client.shows_error page = true /\
      Client.error page = Some ("Extraction failed: " ++ m) /\
      Client.redirect page = None
  | None => False
  end.
Proof.
  intros Hsole Hsession page. subst page.
  rewrite (own_session_settled _ _ _ _ _ _ _ Hsole) in Hsession. injection Hsession as <-.
  destruct (body_reports w url adjectives) as [Hmsgs Hid].
  destruct (body_emits_in_order w url adjectives) as (_ & Hrank & _).
  unfold settle.
  destruct (extractBrand_body w url adjectives []) as [j [r|m]]; cbn [fst snd] in *.
  - destruct (observe_events (emitted j) Server.sessionData) as (evs & Hev & Hshape).
    simpl in Hev.
    assert (Forall (fun e => Server.pe_message e <> EmptyString /\
                             Server.pe_brand_id e = None /\
                             rank (Server.pe_stage e) <= 6) evs) as Hevs.
    { clear Hev. induction Hshape as [|[st msg] e l evs (Hs & Hm & Hb) _ IH];
        [constructor|].
      inversion Hmsgs; subst. inversion Hrank; subst.
      constructor; [|apply IH; assumption]. simpl in *. rewrite Hs, Hm. auto. }
    unfold finish. cbn [Server.events Server.result]. rewrite Hev.
    rewrite receive_app.
    destruct (receive_progress evs Client.initial Hevs) as (H1 & H2 & H3 & H4 & H5).
    cbn [Client.receive fold_left]. unfold Client.onmessage.
    cbn [Server.pe_message Server.pe_stage].
    destruct (String.eqb_spec ("Extraction complete! Brand ID: " ++ brand_id r)
                EmptyString) as [Heq|_]; [discriminate Heq|].
    unfold Client.onProgress, Client.shows_success, Client.shows_error.
    cbn [Client.events Client.progress Client.closing Client.brandId Client.currentStage
         Client.error Client.redirect Server.pe_brand_id Server.pe_stage
         Server.progress_percent Server.pe_message].
    rewrite H1, H3, H4. rewrite (Hid r eq_refl), brand_id_present.
    cbn iota. rewrite brand_id_present. simpl. repeat apply conj; reflexivity.
  - destruct (observe_events (emitted j) Server.sessionData) as (evs & Hev & Hshape).
    simpl in Hev.
    assert (Forall (fun e => Server.pe_message e <> EmptyString /\
                             Server.pe_brand_id e = None /\
                             rank (Server.pe_stage e) <= 6) evs) as Hevs.
    { clear Hev. induction Hshape as [|[st msg] e l evs (Hs & Hm & Hb) _ IH];
        [constructor|].
      inversion Hmsgs; subst. inversion Hrank; subst.
      constructor; [|apply IH; assumption]. simpl in *. rewrite Hs, Hm. auto. }
    unfold finish. cbn [Server.events Server.result Server.record_progress]. rewrite Hev.
    rewrite <- app_assoc, receive_app.
    destruct (receive_progress evs Client.initial Hevs) as (H1 & H2 & H3 & H4 & H5).
    cbn [Client.receive fold_left app]. unfold Client.onmessage.
    cbn [Server.pe_message Server.pe_stage].
    destruct (String.eqb_spec ("Extraction failed: " ++ m) EmptyString) as [Heq|_];
      [discriminate Heq|].
    unfold Client.onProgress, Client.shows_success, Client.shows_error.
    cbn [Client.events Client.progress Client.closing Client.brandId Client.currentStage
         Client.error Client.redirect Server.pe_brand_id Server.pe_stage
         Server.progress_percent Server.pe_message Client.present].
    rewrite H1, H2, H4. simpl. rewrite <- app_assoc. repeat apply conj; reflexivity.
Qed.

Lemma processing_page_outcome_witness :
  let w := Demo.world Success Demo.tokens_ok 3.8%float in
  let schedule := Concurrent.apart w w in
  sole_request schedule Concurrent.sid w Concurrent.now "https://stripe.com" [] /\
  exists session,
    EventLoop.run schedule ∅ !! Concurrent.sid = Some session /\
    let page := Client.receive (Server.events session) Client.initial in
    length (Client.events page) = 14%nat /\
    Client.shows_success page = true /\
    Client.redirect page = Some "/brand/stripe_2025_12_29_1a2b3c4d".
Proof.
  intros w schedule.
  assert (sole_request schedule Concurrent.sid w Concurrent.now "https://stripe.com" [])
    as Hsole by (split; vm_compute; reflexivity).
  destruct (EventLoop.run schedule ∅ !! Concurrent.sid) as [session|] eqn:Hsession;
    [|vm_compute in Hsession; discriminate Hsession].
  pose proof (processing_page_outcome w Concurrent.now "https://stripe.com" []
                Concurrent.sid schedule ∅ session Hsole Hsession)
    as (Hevents & _ & _ & Hend).
  split; [exact Hsole|]. exists session. split; [reflexivity|].
  vm_compute in Hsession. injection Hsession as <-.
  cbn [Server.result] in Hend. destruct Hend as (Hsuccess & _ & Hredirect).
  split; [rewrite Hevents; reflexivity|]. split; [exact Hsuccess|exact Hredirect].
Defined.
